(** * Household-leverage pipeline: feature engineering and validation

    A shallow embedding of the core of the CHFS 2017 siblings/debt analysis:
    the interval-code midpoint resolver ([src/data/midpoint_tables.py]), the
    coalesce / totals / ratio stages ([src/processing/features.py]), head
    extraction ([src/data/loader.py]), the head merge
    ([src/processing/merge.py]) and the schema validator
    ([src/data/validator.py]).

    Cells of a pandas float64 column are IEEE-754 binary64 numbers, modelled
    by Rocq's primitive [float]; an undefined cell is NaN.  Column names are
    ASCII strings.  A raised Python exception is an explicit [Raise];
    logging is left out. *)

From Stdlib Require Import ZArith List Bool Lia Floats Ascii String.
From stdpp Require Import base option list gmap strings sorting.

Local Open Scope Z_scope.

(** ** Exceptions *)

Inductive exn : Set :=
  | ValueError
  | OverflowError
  | IndexError
  | DataLoadError
  | KeyError
  | TypeError.

Inductive result (A : Type) : Type :=
  | Ok (a : A)
  | Raise (e : exn).
Arguments Ok {A} a.
Arguments Raise {A} e.

#[global] Instance result_ret : MRet result := fun _ a => Ok a.

#[global] Instance result_bind : MBind result := fun _ _ k m =>
  match m with
  | Ok a => k a
  | Raise e => Raise e
  end.

(** Mapping a function that may raise over a list: the first exception
    aborts the traversal. *)
Fixpoint rmapM {A B} (f : A -> result B) (l : list A) : result (list B) :=
  match l with
  | [] => Ok []
  | a :: l' => b ← f a; bs ← rmapM f l'; Ok (b :: bs)
  end.

(** ** Floating-point cells *)

Module Cell.

(** [pd.isna] on a float cell. *)
Definition isna (x : float) : bool := PrimFloat.is_nan x.

(** [Series.fillna(v)], one cell. *)
Definition fillna (v x : float) : float := if isna x then v else x.

(** Python's [int(x)] on a float: truncation toward zero; [OverflowError]
    on an infinity and [ValueError] on NaN. *)
Definition int (x : float) : result Z :=
  match Prim2SF x with
  | S754_zero _ => Ok 0
  | S754_infinity _ => Raise OverflowError
  | S754_nan => Raise ValueError
  | S754_finite s m e =>
      let mag := if 0 <=? e then Z.pos m * 2 ^ e else Z.pos m / 2 ^ (- e) in
      Ok (if s then - mag else mag)
  end.

End Cell.

(** ** Midpoint tables ([src/data/midpoint_tables.py]) *)

(** One [code: midpoint] entry of a table literal. *)
Definition kv (k : Z) (v : float) : Z * float := (k, v).

Definition _MAP_1 : gmap Z float :=
  list_to_map [
    kv 1 5000; kv 2 20000; kv 3 40000; kv 4 60000;
    kv 5 85000; kv 6 200000; kv 7 400000; kv 8 750000;
    kv 9 3000000; kv 10 7500000; kv 11 15000000
  ].
Definition _VARS_1 : list string :=
  [
    "b2003ait"; "b2050it"; "b2059it"; "b2063it"; "b2080it"; "d3109it";
    "d3110it"; "d4103it"; "d5107it"; "d5108it"; "d6100ait"; "d8104it";
    "d9103it"; "d9110ait"; "k2102cit"; "c3019ait"
  ].

Definition _MAP_2 : gmap Z float := _MAP_1.
Definition _VARS_2 : list string :=
  [
    "b2003bit"; "b2052it"
  ].

Definition _MAP_3 : gmap Z float :=
  list_to_map [
    kv 1 5000; kv 2 15000; kv 3 35000; kv 4 75000;
    kv 5 150000; kv 6 250000; kv 7 400000; kv 8 750000;
    kv 9 1500000; kv 10 3500000; kv 11 7500000
  ].
Definition _VARS_3 : list string :=
  [
    "b2003eit"; "b2055it"; "a3136it"; "d3117it"; "b2046it"; "b3004bit";
    "b3005bit"; "b3005it"; "b3006ait"; "b3030dit"; "b3030eit"; "b3031ait";
    "b3045cit"; "b3056ait"; "c3017cait"; "c3019cit"; "c3019eit"; "c7052bit";
    "c7060it"; "c7061it"; "c7062it"; "c8007it"; "d1105it"; "d2104it";
    "d3103it"; "d7106hit"; "d7110ait"; "e1006it"; "e1022it"; "e3003cit";
    "e4003it"; "h2004it"; "c2035ait"
  ].

Definition _MAP_4 : gmap Z float :=
  list_to_map [
    kv 1 2500; kv 2 7500; kv 3 15000; kv 4 35000;
    kv 5 75000; kv 6 125000; kv 7 175000; kv 8 250000;
    kv 9 400000; kv 10 750000; kv 11 1500000
  ].
Definition _VARS_4 : list string :=
  [
    "b2093it"; "a3136ait"; "a3136bit"; "a3137it"; "b2110it"; "d5109it";
    "d7106jit"; "d7112it"; "d9105it"; "d9108it"; "d9110bit"; "k1101it";
    "k2208it"; "f1010it"; "f1031it"
  ].

Definition _MAP_5 : gmap Z float :=
  list_to_map [
    kv 1 500; kv 2 1500; kv 3 3500; kv 4 7500;
    kv 5 15000; kv 6 35000; kv 7 75000; kv 8 150000
  ].
Definition _VARS_5 : list string :=
  [
    "b3008fit"
  ].

Definition _MAP_6 : gmap Z float :=
  list_to_map [
    kv 1 25; kv 2 60.5; kv 3 80.5; kv 4 95.5;
    kv 5 110.5; kv 6 132; kv 7 172; kv 8 300
  ].
Definition _VARS_6 : list string :=
  [
    "c1000bbit"
  ].

Definition _MAP_7 : gmap Z float :=
  list_to_map [
    kv 1 50000; kv 2 200000; kv 3 400000; kv 4 600000;
    kv 5 850000; kv 6 1250000; kv 7 2250000; kv 8 4000000;
    kv 9 6000000; kv 10 8500000; kv 11 12500000; kv 12 17500000;
    kv 13 30000000
  ].
Definition _VARS_7 : list string :=
  [
    "c1000bdit"
  ].

Definition _MAP_8 : gmap Z float :=
  list_to_map [
    kv 1 5000; kv 2 15000; kv 3 35000; kv 4 75000;
    kv 5 150000; kv 6 250000; kv 7 400000; kv 8 750000;
    kv 9 1500000; kv 10 3500000; kv 11 6000000; kv 12 8500000;
    kv 13 12500000; kv 14 17500000; kv 15 30000000
  ].
Definition _VARS_8 : list string :=
  [
    "c2000fit"
  ].

Definition _MAP_9 : gmap Z float :=
  list_to_map [
    kv 1 5000; kv 2 20000; kv 3 40000; kv 4 60000;
    kv 5 85000; kv 6 200000; kv 7 400000; kv 8 750000;
    kv 9 3000000; kv 10 7500000; kv 11 12500000; kv 12 17500000;
    kv 13 30000000
  ].
Definition _VARS_9 : list string :=
  [
    "c2013it"; "c2016it"
  ].

Definition _MAP_10 : gmap Z float :=
  list_to_map [
    kv 1 50000; kv 2 150000; kv 3 350000; kv 4 650000;
    kv 5 900000; kv 6 1250000; kv 7 1750000; kv 8 3500000;
    kv 9 6500000; kv 10 9000000; kv 11 15000000
  ].
Definition _VARS_10 : list string :=
  [
    "c2027dit"; "c2032it"; "c2064it"
  ].

Definition _MAP_11 : gmap Z float :=
  list_to_map [
    kv 1 500; kv 2 2000; kv 3 4000; kv 4 6500;
    kv 5 9000; kv 6 12500; kv 7 17500; kv 8 25000;
    kv 9 40000; kv 10 75000
  ].
Definition _VARS_11 : list string :=
  [
    "c2045it"
  ].

Definition _MAP_12 : gmap Z float :=
  list_to_map [
    kv 1 25000; kv 2 75000; kv 3 150000; kv 4 250000;
    kv 5 400000; kv 6 650000; kv 7 900000; kv 8 1250000;
    kv 9 1750000; kv 10 3500000; kv 11 7500000
  ].
Definition _VARS_12 : list string :=
  [
    "c3002it"; "c3002ait"
  ].

Definition _MAP_13 : gmap Z float :=
  list_to_map [
    kv 1 5000; kv 2 15000; kv 3 35000; kv 4 75000;
    kv 5 150000; kv 6 250000; kv 7 400000; kv 8 750000;
    kv 9 1500000; kv 10 3500000; kv 11 7500000
  ].
Definition _VARS_13 : list string :=
  [
    "c3024it"; "c3025it"; "d4111it"; "d6116it"
  ].

Definition _MAP_14 : gmap Z float :=
  list_to_map [
    kv 1 1000; kv 2 3500; kv 3 7500; kv 4 15000;
    kv 5 35000; kv 6 75000; kv 7 125000; kv 8 175000;
    kv 9 250000; kv 10 400000; kv 11 750000
  ].
Definition _VARS_14 : list string :=
  [
    "c8002ait"; "g1017it"; "g1018it"; "g1019it"; "g1019ait"; "g1020it";
    "c8005ait"; "f2006it"; "f4011it"
  ].

Definition _MAP_15 : gmap Z float :=
  list_to_map [
    kv 1 10000; kv 2 35000; kv 3 75000; kv 4 150000;
    kv 5 350000; kv 6 750000; kv 7 1500000; kv 8 3500000;
    kv 9 7500000; kv 10 15000000; kv 11 30000000
  ].
Definition _VARS_15 : list string :=
  [
    "d8106it"
  ].

Definition _MAP_16 : gmap Z float :=
  list_to_map [
    kv 1 5000; kv 2 15000; kv 3 35000; kv 4 75000;
    kv 5 150000; kv 6 250000; kv 7 400000; kv 8 750000;
    kv 9 1500000; kv 10 3500000; kv 11 7500000
  ].
Definition _VARS_16 : list string :=
  [
    "e3005cit"
  ].

Definition _MAP_17 : gmap Z float :=
  list_to_map [
    kv 1 25; kv 2 75; kv 3 125; kv 4 225;
    kv 5 400; kv 6 650; kv 7 1150; kv 8 2250;
    kv 9 4000; kv 10 7500; kv 11 15000; kv 12 25000;
    kv 13 40000; kv 14 75000
  ].
Definition _VARS_17 : list string :=
  [
    "f1005it"
  ].

Definition _MAP_18 : gmap Z float :=
  list_to_map [
    kv 1 100; kv 2 250; kv 3 400; kv 5 750;
    kv 6 1500; kv 7 2500; kv 8 4000; kv 9 6500;
    kv 10 11500; kv 11 17500; kv 12 30000
  ].
Definition _VARS_18 : list string :=
  [
    "f4005it"
  ].

Definition _MAP_19 : gmap Z float :=
  list_to_map [
    kv 1 500; kv 2 2000; kv 3 4000; kv 5 7500;
    kv 6 15000; kv 7 35000; kv 8 75000; kv 9 125000;
    kv 10 175000; kv 11 250000; kv 12 400000; kv 13 750000;
    kv 14 1500000
  ].
Definition _VARS_19 : list string :=
  [
    "f4008it"
  ].

Definition _MAP_20 : gmap Z float :=
  list_to_map [
    kv 1 250; kv 2 750; kv 3 1500; kv 4 3500;
    kv 5 7500; kv 6 15000; kv 7 30000
  ].
Definition _VARS_20 : list string :=
  [
    "h3351it"
  ].

Definition _MAP_21 : gmap Z float :=
  list_to_map [
    kv 1 250; kv 2 750; kv 3 2000; kv 4 4000;
    kv 5 7500; kv 6 15000; kv 7 35000; kv 8 75000
  ].
Definition _VARS_21 : list string :=
  [
    "h3354it"; "h3356it"
  ].

Definition _MAP_22 : gmap Z float :=
  list_to_map [
    kv 1 50; kv 2 300; kv 3 750; kv 4 3000;
    kv 5 7500; kv 6 30000; kv 7 75000
  ].
Definition _VARS_22 : list string :=
  [
    "h3367it"; "h3368it"; "h3369it"
  ].

Definition _MAP_23 : gmap Z float :=
  list_to_map [
    kv 1 150; kv 2 450; kv 3 800; kv 4 1250;
    kv 5 2250; kv 6 4500; kv 7 8000; kv 8 15000;
    kv 9 35000; kv 10 75000; kv 11 150000
  ].
Definition _VARS_23 : list string :=
  [
    "g1024it"
  ].
Definition _REGISTRY : list (list string * gmap Z float) :=
  [ (_VARS_1, _MAP_1); (_VARS_2, _MAP_2); (_VARS_3, _MAP_3);
    (_VARS_4, _MAP_4); (_VARS_5, _MAP_5); (_VARS_6, _MAP_6);
    (_VARS_7, _MAP_7); (_VARS_8, _MAP_8); (_VARS_9, _MAP_9);
    (_VARS_10, _MAP_10); (_VARS_11, _MAP_11); (_VARS_12, _MAP_12);
    (_VARS_13, _MAP_13); (_VARS_14, _MAP_14); (_VARS_15, _MAP_15);
    (_VARS_16, _MAP_16); (_VARS_17, _MAP_17); (_VARS_18, _MAP_18);
    (_VARS_19, _MAP_19); (_VARS_20, _MAP_20); (_VARS_21, _MAP_21);
    (_VARS_22, _MAP_22); (_VARS_23, _MAP_23) ].

(** The module-level loop [for _vars, _mp in _REGISTRY: for _v in _vars:
    _VAR_TO_MAP[_v] = _mp]; a later assignment overwrites an earlier one. *)
Definition _VAR_TO_MAP : gmap string (gmap Z float) :=
  foldl (fun acc '(vars, mp) => foldl (fun acc' v => <[v := mp]> acc') acc vars)
        ∅ _REGISTRY.

(** [str.isdigit] on an ASCII string (the names of the survey variables
    are ASCII; on other strings Python also accepts further Unicode
    digits, which are not modelled): non-empty and every character a
    decimal digit. *)
Definition is_digit_char (c : ascii) : bool :=
  let n := nat_of_ascii c in (48 <=? n)%nat && (n <=? 57)%nat.

Fixpoint all_digits (s : string) : bool :=
  match s with
  | EmptyString => true
  | String c s' => is_digit_char c && all_digits s'
  end.

Definition isdigit (s : string) : bool :=
  match s with
  | EmptyString => false
  | _ => all_digits s
  end.

(** [s.rsplit("_", 1)]: [None] stands for the one-element list [[s]] (no
    underscore in [s]); [Some (a, b)] for [[a, b]], split at the last
    underscore. *)
Fixpoint rsplit_underscore (s : string) : option (string * string) :=
  match s with
  | EmptyString => None
  | String c s' =>
      match rsplit_underscore s' with
      | Some (a, b) => Some (String c a, b)
      | None => if Ascii.eqb c "_" then Some (EmptyString, s') else None
      end
  end.

Definition _normalise_var_name (var_name : string) : string :=
  match rsplit_underscore var_name with
  | Some (base, suffix) => if isdigit suffix then base else var_name
  | None => var_name
  end.

Definition get_midpoint (interval_code : float) (var_name : string)
  : result float :=
  if Cell.isna interval_code then Ok nan
  else
    let base := _normalise_var_name var_name in
    match _VAR_TO_MAP !! base with
    | None => Ok nan
    | Some mapping =>
        k ← Cell.int interval_code;
        Ok (default nan (mapping !! k))
    end.

(** [series.apply(lambda x: get_midpoint(x, var_name))]. *)
Definition get_midpoint_series (series : list float) (var_name : string)
  : result (list float) :=
  rmapM (fun x => get_midpoint x var_name) series.

(** ** Configuration ([src/config.py]) *)

Record Settings : Type := mkSettings {
  survey_year : Z;
  head_min_age : Z;
  sibling_max_age : Z;
  winsorize_limits : float * float;
  epsilon : float;
  log_dv_constant : float
}.

(** The defaults of the dataclass; [1e-9] and [0.001] denote, as in Python,
    the nearest binary64 numbers. *)
Definition default_settings : Settings :=
  {| survey_year := 2017;
     head_min_age := 16;
     sibling_max_age := 40;
     winsorize_limits := (0x1.47ae147ae147bp-7, 0x1.47ae147ae147bp-7)%float;
     epsilon := 0x1.12e0be826d695p-30%float;
     log_dv_constant := 0x1.0624dd2f1a9fcp-10%float |}.

(** A Python [int] used in float arithmetic (exact below [2^53], which
    covers years, ages and row counts). *)
Definition float_of_Z (z : Z) : float :=
  if z <? 0 then (- PrimFloat.of_uint63 (Uint63.of_Z (- z)))%float
  else PrimFloat.of_uint63 (Uint63.of_Z z).

(** ** Variable catalogue ([src/data/variables.py]) *)

Record VarSpec : Type := mkVarSpec {
  exact : string;
  interval : option string
}.

#[global] Instance VarSpec_eq_dec : EqDecision VarSpec.
Proof. solve_decision. Defined.

Definition coalesced_name (spec : VarSpec) : string :=
  String.append (exact spec) "_val".

(** [[VarSpec(f"{e}_{i}", f"{it}_{i}") for i in range(1, n + 1)]] with
    [n <= 9], so that each index is one decimal digit. *)
Definition digit_string (i : nat) : string :=
  String (ascii_of_nat (48 + i)) EmptyString.

Definition indexed_specs (e it : string) (n : nat) : list VarSpec :=
  fmap (fun i =>
         mkVarSpec (String.append e (String.append "_" (digit_string i)))
                   (Some (String.append it (String.append "_" (digit_string i)))))
      (seq 1 n).

Definition spec1 (e : string) : list VarSpec := [mkVarSpec e None].
Definition spec2 (e it : string) : list VarSpec := [mkVarSpec e (Some it)].

Definition ALL_DEBT_VARS : list VarSpec :=
  spec1 "b3005b_2"                       (* DEBT_BUSINESS_BANK *)
  ++ spec2 "b3031a_2" "b3031ait_2"       (* DEBT_BUSINESS_PRIVATE *)
  ++ indexed_specs "c2064" "c2064it" 6   (* DEBT_HOUSE_BANK *)
  ++ indexed_specs "c3002a" "c3002ait" 6 (* DEBT_HOUSE_OTHER *)
  ++ spec2 "c2023e" "c2023eit"           (* DEBT_HOUSE_AGG_OTHER *)
  ++ spec2 "c3017ca" "c3017cait"         (* DEBT_HOUSE_COLLATERAL *)
  ++ spec2 "c3019c" "c3019cit"           (* DEBT_SHOP_BANK *)
  ++ spec2 "c3019e" "c3019eit"           (* DEBT_SHOP_OTHER *)
  ++ spec2 "c7060" "c7060it"             (* DEBT_CAR *)
  ++ spec2 "c7061" "c7061it"             (* DEBT_VEHICLE_OTHER *)
  ++ spec2 "c8007" "c8007it"             (* DEBT_DURABLE *)
  ++ spec1 "d3116b"                      (* DEBT_STOCK *)
  ++ spec2 "d9108" "d9108it"             (* DEBT_FINANCE_OTHER *)
  ++ spec2 "e1006" "e1006it"             (* DEBT_EDU_BANK *)
  ++ spec2 "e1022" "e1022it"             (* DEBT_EDU_PRIVATE *)
  ++ spec2 "e4003" "e4003it"             (* DEBT_MEDICAL *)
  ++ spec2 "e3003c" "e3003cit".          (* DEBT_OTHER *)

Definition ASSET_VEHICLE_IN_BUSINESS : VarSpec :=
  mkVarSpec "c7062" (Some "c7062it").

Definition ALL_ASSET_VARS : list VarSpec :=
  spec2 "b2003d" "b2003dit"              (* ASSET_BUSINESS *)
  ++ indexed_specs "c2016" "c2016it" 6   (* ASSET_HOUSE *)
  ++ spec2 "c2023d" "c2023dit"           (* ASSET_HOUSE_AGG_OTHER *)
  ++ spec2 "c3019a" "c3019ait"           (* ASSET_SHOP *)
  ++ spec2 "c7052b" "c7052bit"           (* ASSET_CAR *)
  ++ spec1 "c7059"                       (* ASSET_VEHICLE_COMM *)
  ++ spec1 "c7058"                       (* ASSET_VEHICLE_OTHER *)
  ++ spec1 "c8002"                       (* ASSET_DURABLE *)
  ++ spec1 "c8005"                       (* ASSET_OTHER_NONFIN *)
  ++ spec2 "d1105" "d1105it"             (* ASSET_DEPOSIT_CHECKING *)
  ++ spec2 "d2104" "d2104it"             (* ASSET_DEPOSIT_SAVINGS *)
  ++ spec2 "d3103" "d3103it"             (* ASSET_STOCK_CASH *)
  ++ spec2 "d3109" "d3109it"             (* ASSET_STOCK_VALUE *)
  ++ spec2 "d3116" "d3116it"             (* ASSET_STOCK_NONPUBLIC *)
  ++ spec2 "d5107" "d5107it"             (* ASSET_FUND *)
  ++ spec2 "d7106h" "d7106hit"           (* ASSET_INTERNET_FINANCE *)
  ++ spec2 "d7110a" "d7110ait"           (* ASSET_OTHER_FINANCE_PROD *)
  ++ indexed_specs "d4103" "d4103it" 5   (* ASSET_BOND *)
  ++ spec2 "d6100a" "d6100ait"           (* ASSET_DERIVATIVE *)
  ++ spec2 "d8104" "d8104it"             (* ASSET_NON_RMB *)
  ++ spec2 "d9103" "d9103it"             (* ASSET_GOLD *)
  ++ spec2 "d9110a" "d9110ait"           (* ASSET_OTHER_FIN *)
  ++ spec2 "k1101" "k1101it"             (* ASSET_CASH *)
  ++ spec2 "k2102c" "k2102cit".          (* ASSET_RECEIVABLE *)

(** ** Data frames *)

(** A pandas [DataFrame] with float64 columns: the number of rows, the
    column names in order ([df.columns]) and the cells of each column.
    Every column holds [nrows] cells, and [colnames] lists exactly the
    names bound in [columns]. *)
Record DataFrame : Type := mkDataFrame {
  nrows : nat;
  colnames : list string;
  columns : gmap string (list float)
}.

(** [df[name] = series] (the series is positionally aligned); a new column
    is appended after the existing ones. *)
Definition set_column (df : DataFrame) (name : string) (col : list float)
  : DataFrame :=
  {| nrows := nrows df;
     colnames := if bool_decide (name ∈ colnames df) then colnames df
                 else colnames df ++ [name];
     columns := <[name := col]> (columns df) |}.

(** [df[name] = scalar]. *)
Definition set_scalar (df : DataFrame) (name : string) (v : float)
  : DataFrame :=
  set_column df name (replicate (nrows df) v).

(** [pd.DataFrame({name: cells, ...})]. *)
Definition frame_of (n : nat) (cols : list (string * list float))
  : DataFrame :=
  foldl (fun df '(name, col) => set_column df name col)
        {| nrows := n; colnames := []; columns := ∅ |} cols.

(** [df[name]], a [KeyError] when the column is absent. *)
Definition get_column (df : DataFrame) (name : string) : result (list float) :=
  match columns df !! name with
  | Some col => Ok col
  | None => Raise KeyError
  end.

Definition has_column (df : DataFrame) (name : string) : bool :=
  bool_decide (is_Some (columns df !! name)).

Definition well_formed (df : DataFrame) : Prop :=
  forall name col, columns df !! name = Some col -> length col = nrows df.

(** ** Feature engineering ([src/processing/features.py]) *)

(** The inner loop of [_ensure_columns]: create a missing column as NaN. *)
Definition ensure_column (acc : DataFrame * nat) (col : option string)
  : DataFrame * nat :=
  match col with
  | Some c =>
      if has_column acc.1 c then acc
      else (set_scalar acc.1 c nan, S acc.2)
  | None => acc
  end.

Definition _ensure_columns (df : DataFrame) (specs : list VarSpec)
  : DataFrame * nat :=
  foldl (fun acc spec =>
           foldl ensure_column acc [Some (exact spec); interval spec])
        (df, 0%nat) specs.

(** [a.combine_first(b)] for two series over the same index. *)
Definition combine_first (a b : list float) : list float :=
  zip_with (fun x y => if Cell.isna x then y else x) a b.

(** Truthiness of [spec.interval]: neither [None] nor the empty string. *)
Definition interval_given (spec : VarSpec) : option string :=
  match interval spec with
  | Some EmptyString => None
  | other => other
  end.

Definition _coalesce_var (df : DataFrame) (spec : VarSpec)
  : result (list float) :=
  let exact_series :=
    default (replicate (nrows df) nan) (columns df !! exact spec) in
  match interval_given spec with
  | Some it =>
      match columns df !! it with
      | Some codes =>
          midpoint_series ← get_midpoint_series codes it;
          Ok (combine_first exact_series midpoint_series)
      | None => Ok exact_series
      end
  | None => Ok exact_series
  end.

(** One of the two loops of [coalesce_all]: [df[name] = _coalesce_var(df,
    spec); cols.append(name)]. *)
Fixpoint coalesce_loop (df : DataFrame) (specs : list VarSpec)
  : result (DataFrame * list string) :=
  match specs with
  | [] => Ok (df, [])
  | spec :: rest =>
      col ← _coalesce_var df spec;
      '(df', names) ← coalesce_loop (set_column df (coalesced_name spec) col) rest;
      Ok (df', coalesced_name spec :: names)
  end.

(** The prologue of [coalesce_all]: the exact and interval columns of the
    debt, asset and vehicle-in-business variables are created when
    absent. *)
Definition ensured (df : DataFrame) : DataFrame :=
  let df := (_ensure_columns df ALL_DEBT_VARS).1 in
  let df := (_ensure_columns df ALL_ASSET_VARS).1 in
  (foldl ensure_column (df, 0%nat)
     [Some (exact ASSET_VEHICLE_IN_BUSINESS);
      interval ASSET_VEHICLE_IN_BUSINESS]).1.

Definition coalesce_all (df : DataFrame)
  : result (DataFrame * list string * list string) :=
  let df := ensured df in
  '(df, debt_cols) ← coalesce_loop df ALL_DEBT_VARS;
  '(df, asset_cols) ← coalesce_loop df ALL_ASSET_VARS;
  Ok (df, debt_cols, asset_cols).

(** [df[cols]]: the listed columns, a [KeyError] when one is absent. *)
Definition select_columns (df : DataFrame) (cols : list string)
  : result (list (list float)) :=
  rmapM (get_column df) cols.

(** The rows of a block of [n]-row columns, as [frame.values] holds
    them. *)
Definition block_rows (n : nat) (cols : list (list float))
  : list (list float) :=
  (fun i => (fun col => default nan (col !! i)) <$> cols) <$> seq 0 n.

(** [frame.sum(axis=1)] on NaN-free columns: one sum per row.  [np_sum]
    stands for NumPy's reduction of the block along its rows: the order in
    which it adds the cells of a row depends on the memory layout of the
    block and on the NumPy version, and the source does not fix it. *)
Definition sum_axis1 (np_sum : list (list float) -> list float) (n : nat)
    (cols : list (list float)) : list float :=
  np_sum (block_rows n cols).

(** One of the orders NumPy may use: each row added left to right,
    starting from 0. *)
Definition fold_sum (rows : list (list float)) : list float :=
  foldl PrimFloat.add 0%float <$> rows.

(** [series.clip(lower=lo)]: a cell below [lo] becomes [lo]; NaN stays. *)
Definition clip_lower (lo x : float) : float :=
  if Cell.isna x || (lo <=? x)%float then x else lo.

Definition compute_totals (np_sum : list (list float) -> list float)
    (df : DataFrame) (debt_cols asset_cols : list string)
  : result DataFrame :=
  debt ← select_columns df debt_cols;
  let df := set_column df "total_debt"
              (sum_axis1 np_sum (nrows df)
                 (fmap (M := list) (fmap (Cell.fillna 0)) debt)) in
  assets ← select_columns df asset_cols;
  let total_assets_raw :=
    sum_axis1 np_sum (nrows df)
      (fmap (M := list) (fmap (Cell.fillna 0)) assets) in
  let df := set_column df "total_assets_raw" total_assets_raw in
  vib_raw ← _coalesce_var df ASSET_VEHICLE_IN_BUSINESS;
  let vib := fmap (M := list) (Cell.fillna 0) vib_raw in
  raw ← get_column df "total_assets_raw";
  Ok (set_column df "total_assets"
        (fmap (clip_lower 0) (zip_with PrimFloat.sub raw vib))).

(** *** Winsorisation *)

(** [df.loc[mask, col] = v] on one column. *)
Definition loc_assign (mask : list bool) (v : float) (col : list float)
  : list float :=
  zip_with (fun (b : bool) x => if b then v else x) mask col.

(** Order used by [argsort]: the input holds no NaN, so [<=?] is total. *)
Definition rank_le (p q : nat * float) : Prop := (p.2 <=? q.2)%float = true.

#[global] Instance rank_le_dec : RelDecision rank_le.
Proof. intros p q. unfold rank_le. apply _. Defined.

(** [a.argsort()]: the positions of [a] in increasing order of value.
    NumPy leaves the order among equal values unspecified; the order of
    [merge_sort] is used here. *)
Definition argsort (a : list float) : list nat :=
  (merge_sort rank_le (imap (fun i x => (i, x)) a)).*1.

(** [a[positions] = v]. *)
Definition assign_at (positions : list nat) (v : float) (a : list float)
  : list float :=
  foldl (fun acc i => <[i := v]> acc) a positions.

(** [idx[k]] with Python's negative indexing; [IndexError] out of range. *)
Definition py_index {A} (l : list A) (k : Z) : result A :=
  let k' := if k <? 0 then k + Z.of_nat (length l) else k in
  if k' <? 0 then Raise IndexError
  else match l !! Z.to_nat k' with
       | Some x => Ok x
       | None => Raise IndexError
       end.

(** [l[k:]]; a negative [k] counts from the end. *)
Definition py_slice_from {A} (l : list A) (k : Z) : list A :=
  if k <? 0 then drop (Z.to_nat (Z.of_nat (length l) + k)) l
  else drop (Z.to_nat k) l.

(** The check of one limit in [winsorize]: a [ValueError] unless the
    proportion is between 0 and 1. *)
Definition check_limit (lim : float) : result unit :=
  if (1 <? lim)%float || (lim <? 0)%float then Raise ValueError else Ok ().

(** The lower tail of [_winsorize1D], both limits inclusive:
    [lowidx = int(low_limit * n); a[idx[:lowidx]] = a[idx[lowidx]]],
    skipped when [low_limit] is zero. *)
Definition winsorize_low (idx : list nat) (low_limit : float)
    (a : list float) : result (list float) :=
  if (low_limit =? 0)%float then Ok a
  else
    let n := Z.of_nat (length a) in
    lowidx ← Cell.int (low_limit * float_of_Z n);
    i ← py_index idx lowidx;
    v ← py_index a (Z.of_nat i);
    Ok (assign_at (take (Z.to_nat lowidx) idx) v a).

(** The upper tail: [upidx = n - int(n * up_limit);
    a[idx[upidx:]] = a[idx[upidx - 1]]]. *)
Definition winsorize_up (idx : list nat) (up_limit : float)
    (n : Z) (a : list float) : result (list float) :=
  k ← Cell.int (float_of_Z n * up_limit);
  let upidx := n - k in
  i ← py_index idx (upidx - 1);
  v ← py_index a (Z.of_nat i);
  Ok (assign_at (py_slice_from idx upidx) v a).

(** [scipy.stats.mstats.winsorize(a, limits=[lo, up])] on a one-dimensional
    input without NaN, with the default [inclusive=(True, True)].  The
    routine belongs to SciPy, not to this repository; the definition follows
    its documented algorithm. *)
Definition winsorize (a : list float) (limits : float * float)
  : result (list float) :=
  _ ← check_limit limits.1;
  _ ← check_limit limits.2;
  let n := Z.of_nat (length a) in
  let idx := argsort a in
  a ← winsorize_low idx limits.1 a;
  winsorize_up idx limits.2 n a.

(** [series.replace([inf, -inf], nan).dropna()], as (row position, value)
    pairs: the series keeps its index. *)
Definition finite_rows (col : list float) : list (nat * float) :=
  filter (fun p => negb (Cell.isna p.2 || PrimFloat.is_infinity p.2))
         (imap (fun i x => (i, x)) col).

(** Lookup in a series given as (index label, value) pairs. *)
Fixpoint series_lookup (s : list (nat * float)) (i : nat) : option float :=
  match s with
  | [] => None
  | (j, v) :: s' => if Nat.eqb i j then Some v else series_lookup s' i
  end.

(** [df[name] = pd.Series(vals, index=labels)]: rows are matched by index
    label, and a row without a label in the series receives NaN. *)
Definition align_to_rows (n : nat) (s : list (nat * float)) : list float :=
  fmap (fun i => default nan (series_lookup s i)) (seq 0 n).

(** The raw ratio with its two overrides, as three column operations. *)
Definition raw_debt_ratio (eps : float) (total_debt total_assets : list float)
  : list float :=
  let ratio :=
    zip_with PrimFloat.div total_debt
             (fmap (fun a => (a + eps)%float) total_assets) in
  let both_zero :=
    zip_with (fun d a => (d =? 0)%float && (a =? 0)%float)
             total_debt total_assets in
  let ratio := loc_assign both_zero 0%float ratio in
  let no_assets :=
    zip_with (fun d a => (0 <? d)%float && (a =? 0)%float)
             total_debt total_assets in
  loc_assign no_assets nan ratio.

(** [compute_debt_ratio]; [np_log] stands for [numpy.log]. *)
Definition compute_debt_ratio (np_log : float -> float)
    (df : DataFrame) (cfg : Settings) : result DataFrame :=
  let eps := epsilon cfg in
  total_debt ← get_column df "total_debt";
  total_assets ← get_column df "total_assets";
  let df := set_column df "debt_ratio"
              (raw_debt_ratio eps total_debt total_assets) in
  ratio ← get_column df "debt_ratio";
  let clean := finite_rows ratio in
  df ← match clean with
       | [] => Ok (set_scalar df "debt_ratio_winsorized" nan)
       | _ =>
           win_vals ← winsorize clean.*2 (winsorize_limits cfg);
           Ok (set_column df "debt_ratio_winsorized"
                 (align_to_rows (nrows df) (zip clean.*1 win_vals)))
       end;
  let c := log_dv_constant cfg in
  w ← get_column df "debt_ratio_winsorized";
  let log_input := fmap (fun x => (x + c)%float) w in
  Ok (set_column df "log_debt_ratio_winsorized"
        (fmap (fun x => np_log (if (0 <? x)%float then x else nan)) log_input)).

(** ** Head extraction ([src/data/loader.py]) *)

(** [HEAD_COLS_MAP], in the order of the dict literal. *)
Definition HEAD_COLS_MAP : list (string * string) :=
  [ ("hhid", "hhid");
    ("head_age", "head_age");
    ("a2003", "head_sex");
    ("a2012", "head_educ");
    ("a2024", "head_marital");
    ("a2025b", "head_health");
    ("head_siblings", "head_siblings") ].

(** Boolean indexing of one column: the cells whose mask entry is [True]. *)
Fixpoint filter_by {A} (mask : list bool) (col : list A) : list A :=
  match mask, col with
  | b :: mask', x :: col' =>
      if b then x :: filter_by mask' col' else filter_by mask' col'
  | _, _ => []
  end.

(** [df[mask]]: the rows whose mask entry is [True], in every column. *)
Definition filter_rows (mask : list bool) (df : DataFrame) : DataFrame :=
  {| nrows := length (filter_by mask (replicate (nrows df) ()));
     colnames := colnames df;
     columns := filter_by mask <$> columns df |}.

(** Equality of two join or de-duplication keys: pandas hashes the values,
    so two NaN keys are the same key. *)
Definition key_eq (x y : float) : bool :=
  (x =? y)%float || (Cell.isna x && Cell.isna y).

(** The mask of [drop_duplicates(keep="first")]: a row is kept when no
    earlier row has its key. *)
Fixpoint first_occurrence (seen keys : list float) : list bool :=
  match keys with
  | [] => []
  | k :: keys' =>
      negb (existsb (key_eq k) seen) :: first_occurrence (k :: seen) keys'
  end.

(** [heads[col] = 0] when the column is absent (the sibling fields). *)
Definition ensure_zero (h : DataFrame) (col : string) : DataFrame :=
  if has_column h col then h else set_scalar h col 0.

(** The frame [heads] of [extract_heads] once [head_siblings] is set, i.e.
    before the selection of the head columns. *)
Definition heads_frame (ind_df : DataFrame) (cfg : Settings)
  : result DataFrame :=
  if negb (has_column ind_df "a2001") then Raise DataLoadError
  else
    role ← get_column ind_df "a2001";
    let heads := filter_rows (fmap (fun r => (r =? 1)%float) role) ind_df in
    if negb (has_column heads "a2005") then Raise DataLoadError
    else
      birth ← get_column heads "a2005";
      let heads :=
        set_column heads "head_age"
          (fmap (fun b => (float_of_Z (survey_year cfg) - b)%float) birth) in
      age ← get_column heads "head_age";
      let heads :=
        filter_rows
          (fmap (fun a => (float_of_Z (head_min_age cfg) <=? a)%float) age)
          heads in
      let heads :=
        foldl ensure_zero heads ["a2028"; "a2029"] in
      s1 ← get_column heads "a2028";
      s2 ← get_column heads "a2029";
      let heads :=
        set_column heads "head_siblings_raw"
          (zip_with PrimFloat.add
             (fmap (Cell.fillna 0) s1) (fmap (Cell.fillna 0) s2)) in
      age ← get_column heads "head_age";
      raw ← get_column heads "head_siblings_raw";
      Ok (set_column heads "head_siblings"
            (zip_with
               (fun a r =>
                  if (a <=? float_of_Z (sibling_max_age cfg))%float
                  then r else nan)
               age raw)).

(** [heads[cols_present].rename(columns=rename_map)]. *)
Definition select_rename (heads : DataFrame) : DataFrame :=
  frame_of (nrows heads)
    (omap (fun '(c, c') => (fun col => (c', col)) <$> columns heads !! c)
          HEAD_COLS_MAP).

Definition extract_heads (ind_df : DataFrame) (cfg : Settings)
  : result DataFrame :=
  heads ← heads_frame ind_df cfg;
  let result := select_rename heads in
  hhid ← get_column result "hhid";
  Ok (filter_rows (first_occurrence [] hhid) result).

(** ** Merge ([src/processing/merge.py]) *)

(** The rows of a left join: for each left row, in order, its matching
    right rows in order, or one unmatched row. *)
Definition matches (k : float) (right_keys : list float) : list nat :=
  (filter (fun p => key_eq k p.2) (imap (fun j x => (j, x)) right_keys)).*1.

Definition join_row (right_keys : list float) (i : nat) (k : float)
  : list (nat * option nat) :=
  match matches k right_keys with
  | [] => [(i, None)]
  | js => fmap (fun j => (i, Some j)) js
  end.

Definition merge_plan (left_keys right_keys : list float)
  : list (nat * option nat) :=
  concat (imap (join_row right_keys) left_keys).

(** [pd.merge(left, right, on="hhid", how="left")]: the key and the left
    columns come from the left row, the other right columns from the
    matching right row or NaN; a non-key name present on both sides gets
    the suffix [_x] on the left and [_y] on the right.  Where a suffixed
    name is itself a column already (a left table with both [c] and
    [c_x]), pandas yields two columns of that name or, from version 2 on,
    a [MergeError]; the source pins no version, and such tables are
    outside this model, which keeps the later column. *)
Definition pd_merge_left (left right : DataFrame) : result DataFrame :=
  lk ← get_column left "hhid";
  rk ← get_column right "hhid";
  let plan := merge_plan lk rk in
  let overlap c :=
    negb (String.eqb c "hhid")
    && bool_decide (c ∈ colnames left) && bool_decide (c ∈ colnames right) in
  let left_cols :=
    omap (fun c =>
            (fun col =>
               (if overlap c then String.append c "_x" else c,
                fmap (fun p : nat * option nat => default nan (col !! p.1)) plan))
            <$> columns left !! c)
         (colnames left) in
  let right_cols :=
    omap (fun c =>
            if String.eqb c "hhid" then None
            else
              (fun col =>
                 (if overlap c then String.append c "_y" else c,
                  fmap (fun p : nat * option nat =>
                         default nan (j ← p.2; col !! j)) plan))
              <$> columns right !! c)
         (colnames right) in
  Ok (frame_of (length plan) (left_cols ++ right_cols)).

(** The match rate that [merge_head_into_household] logs:
    [matched = col.notna().sum(); matched / n_after * 100].  The division
    is NumPy's true division of an [int64] by an [int]: with [n_after = 0]
    it gives NaN (and a warning), not an exception. *)
Definition match_rate (col : list float) (n_after : nat) : float :=
  let matched := length (filter (fun x => Cell.isna x = false) col) in
  (float_of_Z (Z.of_nat matched) / float_of_Z (Z.of_nat n_after) * 100)%float.

Definition merge_head_into_household (hh_df head_df : DataFrame)
  : result DataFrame :=
  let n_before := nrows hh_df in
  merged ← pd_merge_left hh_df head_df;
  let n_after := nrows merged in
  if negb (Nat.eqb n_after n_before) then Raise ValueError
  else
    first ← match filter (fun c => negb (String.eqb c "hhid"))
                         (colnames head_df) with
            | c :: _ => Ok c
            | [] => Raise IndexError
            end;
    col ← get_column merged first;
    (* the rate is only logged *)
    let rate := match_rate col n_after in
    Ok merged.

(** ** Schema and validator ([src/data/schema.py], [src/data/validator.py]) *)

Inductive DType : Set := FLOAT | INT | CATEGORICAL | BINARY.

Record ColumnSchema : Type := mkColumnSchema {
  name : string;
  label : string;
  dtype : DType;
  nullable : bool;
  min_value : option float;
  max_value : option float;
  allowed_values : option (list float)
}.

(** [ColumnSchema.__post_init__]: construction fails when the minimum
    exceeds the maximum. *)
Definition new_ColumnSchema (cs : ColumnSchema) : result ColumnSchema :=
  match min_value cs, max_value cs with
  | Some lo, Some hi => if (hi <? lo)%float then Raise ValueError else Ok cs
  | _, _ => Ok cs
  end.

(** A violation; the free-text [detail] message is not modelled. *)
Record Violation : Type := mkViolation {
  column : string;
  rule : string;
  severity : string
}.

Record ValidationReport : Type := mkValidationReport {
  violations : list Violation;
  rows_checked : nat;
  columns_checked : nat
}.

Definition is_error (v : Violation) : bool := String.eqb (severity v) "ERROR".

Definition is_valid (report : ValidationReport) : bool :=
  negb (existsb is_error (violations report)).

(** The number of elements satisfying [p], as [mask.sum()] or
    [sum(1 for v in l if p(v))]. *)
Fixpoint count_where {A} (p : A -> bool) (l : list A) : nat :=
  match l with
  | [] => 0
  | x :: l' => ((if p x then 1 else 0) + count_where p l')%nat
  end.

Definition error_count (report : ValidationReport) : nat :=
  count_where is_error (violations report).

Definition warning_count (report : ValidationReport) : nat :=
  count_where (fun v => String.eqb (severity v) "WARNING") (violations report).

(** The nullability step of [_check_column]. *)
Definition check_nullability (schema : ColumnSchema) (series : list float)
  : list Violation :=
  let col := name schema in
  let null_count := count_where Cell.isna series in
  if (0 <? null_count)%nat then
    let pct :=
      (float_of_Z (Z.of_nat null_count)
       / float_of_Z (Z.of_nat (length series)) * 100)%float in
    if negb (nullable schema) then [mkViolation col "NOT_NULLABLE" "ERROR"]
    else if (80 <? pct)%float then [mkViolation col "HIGH_MISSING" "WARNING"]
    else []
  else [].

(** The range, allowed-set and infinity steps, on the defined cells.  The
    cells are float64, so the infinity step always applies. *)
Definition check_values (schema : ColumnSchema) (non_null : list float)
  : list Violation :=
  let col := name schema in
  (match min_value schema with
   | Some lo =>
       if (0 <? count_where (fun x => (x <? lo)%float) non_null)%nat
       then [mkViolation col "BELOW_MIN" "ERROR"] else []
   | None => []
   end)
  ++ (match max_value schema with
      | Some hi =>
          if (0 <? count_where (fun x => (hi <? x)%float) non_null)%nat
          then [mkViolation col "ABOVE_MAX" "ERROR"] else []
      | None => []
      end)
  ++ (match allowed_values schema with
      | Some allowed =>
          let invalid x := negb (existsb (fun a => (x =? a)%float) allowed) in
          if (0 <? count_where invalid non_null)%nat
          then [mkViolation col "INVALID_VALUES" "ERROR"] else []
      | None => []
      end)
  ++ (if (0 <? count_where PrimFloat.is_infinity non_null)%nat
      then [mkViolation col "INFINITE_VALUES" "ERROR"] else []).

Definition _check_column (df : DataFrame) (schema : ColumnSchema)
  : list Violation :=
  let col := name schema in
  match columns df !! col with
  | None => [mkViolation col "MISSING_COLUMN" "ERROR"]
  | Some series =>
      let violations := check_nullability schema series in
      let non_null := filter (fun x => Cell.isna x = false) series in
      match non_null with
      | [] => violations
      | _ => violations ++ check_values schema non_null
      end
  end.

Definition validate (df : DataFrame) (schema : list ColumnSchema)
  : ValidationReport :=
  {| violations := concat (fmap (_check_column df) schema);
     rows_checked := nrows df;
     columns_checked := length schema |}.

(** [ANALYSIS_SCHEMA], the default schema of [validate]. *)
Definition ANALYSIS_SCHEMA : list ColumnSchema :=
  [ mkColumnSchema "hhid" "Household ID" INT false None None None;
    mkColumnSchema "head_siblings" "Number of siblings (head, age <= 40)"
      FLOAT true (Some 0%float) (Some 30%float) None;
    mkColumnSchema "debt_ratio_winsorized" "Debt-to-asset ratio (winsorized 1%)"
      FLOAT true (Some 0%float) None None;
    mkColumnSchema "log_debt_ratio_winsorized" "Log debt-to-asset ratio"
      FLOAT true None None None;
    mkColumnSchema "total_debt" "Total household debt (CNY)"
      FLOAT true (Some 0%float) None None;
    mkColumnSchema "total_assets" "Total household assets (CNY)"
      FLOAT true (Some 0%float) None None;
    mkColumnSchema "head_age" "Head age (years)"
      FLOAT true (Some 16%float) (Some 120%float) None;
    mkColumnSchema "head_is_male" "Head is male (1/0)"
      BINARY true None None (Some [0; 1]%float);
    mkColumnSchema "head_educ" "Head education level"
      CATEGORICAL true (Some 1%float) (Some 9%float) None;
    mkColumnSchema "head_is_married" "Head is married (1/0)"
      BINARY true None None (Some [0; 1]%float);
    mkColumnSchema "head_health" "Head self-rated health (1=best .. 5=worst)"
      CATEGORICAL true (Some 1%float) (Some 5%float) None;
    mkColumnSchema "has_business" "Household owns a business (1/0)"
      BINARY true None None (Some [0; 1]%float);
    mkColumnSchema "num_houses" "Number of houses owned"
      FLOAT true (Some 0%float) None None;
    mkColumnSchema "log_total_assets" "Log(total_assets + 1)"
      FLOAT true (Some 0%float) None None ].

(** ** Notions used in the statements *)

(** The check run over the registry: a key of [_VAR_TO_MAP] is its own
    base name, and no entry of its table is NaN. *)
Definition registry_entry_ok (e : string * gmap Z float) : bool :=
  String.eqb (_normalise_var_name e.1) e.1
  && forallb (fun kv => negb (Cell.isna kv.2)) (map_to_list e.2).

(** The cell of column [c] in row [i]; NaN when there is none. *)
Definition cell (df : DataFrame) (c : string) (i : nat) : float :=
  default nan (columns df !! c ≫= (.!! i)).

(** The exact value of [spec] in row [i]: the cell of the exact column, NaN
    when the frame has no such column. *)
Definition exact_cell (df : DataFrame) (spec : VarSpec) (i : nat) : float :=
  cell df (exact spec) i.

(** The midpoint resolved from the interval code of [spec] in row [i]; NaN
    when [spec] has no interval twin or the frame lacks its column. *)
Definition interval_midpoint (df : DataFrame) (spec : VarSpec) (i : nat)
  : result float :=
  match interval_given spec with
  | Some it =>
      match columns df !! it with
      | Some codes =>
          match codes !! i with
          | Some c => get_midpoint c it
          | None => Ok nan
          end
      | None => Ok nan
      end
  | None => Ok nan
  end.

(** No interval code of [spec] is an infinity (on which [int] raises). *)
Definition codes_finite (df : DataFrame) (spec : VarSpec) : Prop :=
  forall it codes c,
    interval_given spec = Some it -> columns df !! it = Some codes ->
    c ∈ codes -> PrimFloat.is_infinity c = false.

(** The cells of the named columns in row [i]. *)
Definition row_cells (df : DataFrame) (cols : list string) (i : nat)
  : list float :=
  (fun c => cell df c i) <$> cols.

(** [t] is a floating-point sum of the cells [l]: the cells added in some
    order and grouping, possibly together with zeros, the identity a
    reduction may start from. *)
Inductive sums_to : list float -> float -> Prop :=
  | sums_zero : sums_to [] 0%float
  | sums_neg_zero : sums_to [] (-0)%float
  | sums_cell (x : float) : sums_to [x] x
  | sums_add (l1 l2 : list float) (a b : float) :
      sums_to l1 a -> sums_to l2 b -> sums_to (l1 ++ l2) (a + b)%float
  | sums_perm (l l' : list float) (a : float) :
      l ≡ₚ l' -> sums_to l a -> sums_to l' a.

(** The coalesced names of [specs] are distinct and none of them is an
    input (exact or interval) column of a spec of the list. *)
Definition names_fresh (specs : list VarSpec) : bool :=
  bool_decide (NoDup (coalesced_name <$> specs))
  && forallb
       (fun s =>
          forallb
            (fun s' =>
               negb (String.eqb (coalesced_name s) (exact s'))
               && negb (bool_decide (interval s' = Some (coalesced_name s))))
            specs)
       specs.

(** [dfE] is [df] with some absent columns added as all-NaN columns. *)
Definition nan_extends (df dfE : DataFrame) : Prop :=
  nrows dfE = nrows df
  /\ forall c,
       columns dfE !! c = columns df !! c
       \/ (columns df !! c = None
           /\ columns dfE !! c = Some (replicate (nrows df) nan)).


(** The keys of a table are unique: no two rows carry the same key. *)
Definition unique_keys (keys : list float) : Prop :=
  forall i j x y,
    keys !! i = Some x -> keys !! j = Some y -> key_eq x y = true -> i = j.

(** A violation of rule [r] recorded for column [c]. *)
Definition is_violation (c r : string) (v : Violation) : bool :=
  String.eqb (column v) c && String.eqb (rule v) r.




(** ** Sample tables *)


(** Two households as in the end-to-end scenario of the specification: an
    exact value, and an interval code 3 of a map-3 variable. *)
Definition sample_coalesce : DataFrame :=
  frame_of 2 [ ("hhid", [1; 2]%float);
               ("c7060", [1000; nan]%float);
               ("c7060it", [nan; 3]%float) ].

(** One household with a debt of 300 in one category and none reported in
    another, assets of 1000 + 500, and a business vehicle worth 2000. *)
Definition sample_coalesced : DataFrame :=
  frame_of 1 [ ("c7060_val", [300]%float);
               ("c7061_val", [nan]%float);
               ("d1105_val", [1000]%float);
               ("d2104_val", [500]%float);
               ("c7062", [2000]%float) ].

(** Five individuals: a head aged 27 listed twice, a head aged 67, a head
    without birth year, and a non-head. *)
Definition sample_individuals : DataFrame :=
  frame_of 5 [ ("hhid", [1; 1; 2; 3; 4]%float);
               ("a2001", [1; 1; 1; 1; 2]%float);
               ("a2005", [1990; 1990; 1950; nan; 2005]%float);
               ("a2028", [2; 2; nan; 1; 0]%float);
               ("a2029", [1; 1; 3; 1; 0]%float) ].

(** Two households, with three head tables: one head per household (the
    unit test [test_basic_merge]); household 1 listed twice (the unit test
    [test_row_count_guard]); and a duplicated key 3 that matches no
    household. *)
Definition sample_households : DataFrame :=
  frame_of 2 [ ("hhid", [1; 2]%float); ("income", [100; 200]%float) ].

Definition sample_heads : DataFrame :=
  frame_of 2 [ ("hhid", [1; 2]%float); ("head_age", [30; 40]%float) ].

Definition sample_heads_clash : DataFrame :=
  frame_of 3 [ ("hhid", [1; 1; 2]%float); ("head_age", [30; 31; 40]%float) ].

Definition sample_heads_dup : DataFrame :=
  frame_of 2 [ ("hhid", [3; 3]%float); ("head_age", [30; 31]%float) ].

(** The table and schema of the unit test [test_non_nullable_violation]. *)
Definition sample_ids : DataFrame := frame_of 3 [ ("id", [1; nan; 3]%float) ].

Definition sample_id_schema : ColumnSchema :=
  mkColumnSchema "id" "ID" INT false None None None.


(** Eleven households: nine with debt and assets, one with neither, and
    one with debt but no assets. *)
Definition sample_spread : DataFrame :=
  frame_of 11 [ ("total_debt", [8; 1; 9; 8; 5; 3; 7; 2; 0; 6; 4]%float);
                ("total_assets", [2; 1; 1; 1; 1; 1; 1; 1; 0; 1; 0]%float) ].

(** ** Control variables ([src/processing/controls.py]) *)

(** [np.where(cond, 1.0, 0.0)], one cell. *)
Definition np_where_flag (cond : bool) : float :=
  if cond then 1%float else 0%float.

(** One indicator block of [build_controls], which the source writes out
    three times:
    [df[dst] = np.where(p(df[src]), 1.0, 0.0);
     df.loc[df[src].isna(), dst] = np.nan]
    when [src] is a column, and [df[dst] = np.nan] otherwise. *)
Definition indicator_column (df : DataFrame) (src dst : string)
    (p : float -> bool) : result DataFrame :=
  if has_column df src then
    s ← get_column df src;
    let df := set_column df dst (fmap (fun x => np_where_flag (p x)) s) in
    s ← get_column df src;
    cur ← get_column df dst;
    Ok (set_column df dst (loc_assign (fmap Cell.isna s) nan cur))
  else Ok (set_scalar df dst nan).

(** [series.isin([2, 3, 7])], one cell. *)
Definition is_married_code (x : float) : bool :=
  existsb (fun a => (x =? a)%float) [2; 3; 7]%float.

(** [build_controls]; [np_log] stands for [numpy.log]. *)
Definition build_controls (np_log : float -> float) (df : DataFrame)
  : result DataFrame :=
  df ← indicator_column df "head_sex" "head_is_male"
         (fun x => (x =? 1)%float);
  df ← indicator_column df "head_marital" "head_is_married" is_married_code;
  df ← indicator_column df "b2000b" "has_business" (fun x => (x =? 1)%float);
  df ← (if has_column df "c2002" then
          c ← get_column df "c2002";
          Ok (set_column df "num_houses" (fmap (Cell.fillna 0) c))
        else Ok (set_scalar df "num_houses" 0));
  if has_column df "total_assets" then
    ta ← get_column df "total_assets";
    Ok (set_column df "log_total_assets"
          (fmap (fun a => np_log (a + 1)%float) ta))
  else Ok (set_scalar df "log_total_assets" nan).

(** ** Pipeline ([src/processing/pipeline.py]) *)

Record PipelineResult : Type := mkPipelineResult {
  analysis_df : DataFrame;
  validation_report : ValidationReport;
  n_raw_households : nat;
  n_raw_individuals : nat;
  n_analysis_rows : nat
}.

Definition core_vars : list string :=
  [ "hhid"; "head_siblings"; "debt_ratio_winsorized";
    "log_debt_ratio_winsorized"; "total_debt"; "total_assets" ].

(** The defaults of [Settings.head_control_vars] and
    [Settings.hh_control_vars]. *)
Definition default_head_control_vars : list string :=
  [ "head_age"; "head_is_male"; "head_educ"; "head_is_married";
    "head_health" ].

Definition default_hh_control_vars : list string :=
  [ "has_business"; "num_houses"; "log_total_assets" ].

(** [existing = [c for c in all_cols if c in df.columns]; df[existing]].
    A name listed twice gives two columns of that name in pandas; here it
    gives one (see [selected_twice]). *)
Definition select_existing (df : DataFrame) (all_cols : list string)
  : DataFrame :=
  frame_of (nrows df)
    (omap (fun c => (fun col => (c, col)) <$> columns df !! c) all_cols).

(** A column of the schema is selected twice.  [validate] then fails: for
    such a name [df[col]] is a two-column frame, and [int(series.isna()
    .sum())] in [_check_column] raises [TypeError]. *)
Definition selected_twice (df : DataFrame) (all_cols : list string)
    (schema : list ColumnSchema) : bool :=
  existsb
    (fun cs =>
       (2 <=? length (filter (fun c => c = name cs)
                        (filter (fun c => is_Some (columns df !! c))
                           all_cols)))%nat)
    schema.

(** [run_pipeline] from its second step on: the two tables are those that
    [load_raw_data] has read, and the two lists are the variable groups of
    the settings; [np_log] and [np_sum] stand for NumPy's logarithm and
    row reduction. *)
Definition run_pipeline (np_log : float -> float)
    (np_sum : list (list float) -> list float) (cfg : Settings)
    (head_control_vars hh_control_vars : list string)
    (hh_df ind_df : DataFrame) : result PipelineResult :=
  let n_hh := nrows hh_df in
  let n_ind := nrows ind_df in
  head_df ← extract_heads ind_df cfg;
  hh_df ← merge_head_into_household hh_df head_df;
  '(hh_df, debt_cols, asset_cols) ← coalesce_all hh_df;
  hh_df ← compute_totals np_sum hh_df debt_cols asset_cols;
  hh_df ← compute_debt_ratio np_log hh_df cfg;
  hh_df ← build_controls np_log hh_df;
  let all_cols := core_vars ++ head_control_vars ++ hh_control_vars in
  if selected_twice hh_df all_cols ANALYSIS_SCHEMA then Raise TypeError
  else
  let analysis_df := select_existing hh_df all_cols in
  let report := validate analysis_df ANALYSIS_SCHEMA in
  Ok {| analysis_df := analysis_df;
        validation_report := report;
        n_raw_households := n_hh;
        n_raw_individuals := n_ind;
        n_analysis_rows := nrows analysis_df |}.

(** ** Notions used in the further properties *)

(** A name of ASCII characters only, as the names of the survey variables
    are.  On such a name [str.isdigit] accepts the decimal digits 0 to 9
    and nothing else; names with other characters, where it also accepts
    further Unicode digits, are outside the model of [isdigit]. *)
Definition is_ascii (s : string) : bool :=
  forallb (fun c => (nat_of_ascii c <? 128)%nat) (list_ascii_of_string s).

(** No column that [spec] reads is a coalesced column of [specs]. *)
Definition inputs_kept (v : VarSpec) (specs : list VarSpec) : bool :=
  forallb
    (fun s =>
       negb (String.eqb (coalesced_name s) (exact v))
       && negb (bool_decide (interval v = Some (coalesced_name s))))
    specs.

(** ** Further sample tables *)

(** Two households without a defined ratio: debt without assets, and an
    undefined debt; with limits that [winsorize] would refuse. *)
Definition sample_undefined : DataFrame :=
  frame_of 2 [ ("total_debt", [5; nan]%float);
               ("total_assets", [0; 3]%float) ].

Definition sample_wide_limits : Settings :=
  mkSettings 2017 16 40 (2, 2)%float 0 0.

(** A defined cell passes the range, allowed-set and infinity checks of a
    schema entry. *)
Definition cell_conforms (cs : ColumnSchema) (x : float) : Prop :=
  (forall lo, min_value cs = Some lo -> (x <? lo)%float = false)
  /\ (forall hi, max_value cs = Some hi -> (hi <? x)%float = false)
  /\ (forall allowed, allowed_values cs = Some allowed ->
        existsb (fun a => (x =? a)%float) allowed = true)
  /\ PrimFloat.is_infinity x = false.

(** The column of a schema entry is in the table, has no undefined cell
    unless the entry is nullable, and its defined cells conform. *)
Definition column_conforms (df : DataFrame) (cs : ColumnSchema) : Prop :=
  exists series,
    columns df !! name cs = Some series
    /\ (nullable cs = false -> forall x, x ∈ series -> Cell.isna x = false)
    /\ (forall x, x ∈ series -> Cell.isna x = false -> cell_conforms cs x).

(** The cell [build_controls] writes for a survey code [x]. *)
Definition indicator_cell (p : float -> bool) (x : float) : float :=
  if Cell.isna x then nan else if p x then 1%float else 0%float.

(** Four households: a male married head with a business and two houses,
    a female single head without, and two with undefined answers. *)
Definition sample_controls : DataFrame :=
  frame_of 4 [ ("head_sex", [1; 2; nan; 1]%float);
               ("head_marital", [2; 1; 7; nan]%float);
               ("b2000b", [1; 2; nan; 2]%float);
               ("c2002", [2; nan; 1; 0]%float);
               ("total_assets", [0; 10; 20; 30]%float) ].

(** Within one table the midpoints are positive and grow with the code. *)
Definition midpoints_increase (e : string * gmap Z float) : bool :=
  forallb
    (fun p : Z * float =>
       (0 <? p.2)%float
       && forallb
            (fun q : Z * float =>
               implb (p.1 <? q.1) (p.2 <? q.2)%float)
            (map_to_list e.2))
    (map_to_list e.2).

(** * Verification *)

(** ** IEEE comparisons on cells *)

Lemma SFcompare_antisym (x y : spec_float) :
  SFcompare y x = option_map CompOpp (SFcompare x y).
Proof.
  destruct x as [sx|sx| |sx mx ex], y as [sy|sy| |sy my ey]; simpl;
    repeat match goal with b : bool |- _ => destruct b end;
    simpl; try reflexivity;
    rewrite (Z.compare_antisym ex ey);
    destruct (ex ?= ey)%Z; simpl; try reflexivity;
    rewrite (Pos.compare_cont_antisym mx my Eq); reflexivity.
Qed.

Lemma isna_true (x : float) :
  Cell.isna x = true <-> Prim2SF x = S754_nan.
Proof.
  unfold Cell.isna, is_nan. rewrite FloatAxioms.eqb_spec. unfold SFeqb.
  destruct (Prim2SF x) as [s|s| |s m e]; simpl.
  - split; [discriminate|discriminate].
  - destruct s; split; discriminate.
  - split; reflexivity.
  - destruct s; rewrite Z.compare_refl, Pos.compare_cont_refl;
      split; discriminate.
Qed.

Lemma isna_false (x : float) :
  Cell.isna x = false <-> Prim2SF x <> S754_nan.
Proof.
  rewrite <- isna_true. destruct (Cell.isna x); split; congruence.
Qed.

Lemma is_infinity_true (x : float) :
  is_infinity x = true <-> exists s, Prim2SF x = S754_infinity s.
Proof.
  unfold is_infinity. rewrite FloatAxioms.eqb_spec, FloatAxioms.abs_spec.
  change (Prim2SF infinity) with (S754_infinity false).
  destruct (Prim2SF x) as [s|s| |s m e]; unfold SFeqb; simpl;
    split; try discriminate; try (intros [s' H]; discriminate H).
  - intros _. exists s. reflexivity.
  - reflexivity.
Qed.

(** [int(x)] succeeds on every cell that is neither NaN nor infinite. *)
Lemma int_total (x : float) :
  Cell.isna x = false -> is_infinity x = false ->
  exists k, Cell.int x = Ok k.
Proof.
  intros Hna Hinf. apply isna_false in Hna.
  unfold Cell.int.
  destruct (Prim2SF x) as [s|s| |s m e] eqn:E.
  - eexists; reflexivity.
  - assert (is_infinity x = true) by (apply is_infinity_true; eauto).
    congruence.
  - congruence.
  - eexists; reflexivity.
Qed.

(** [int(x)] differs from a finite [x = m * 2^e] by less than one. *)
Lemma int_truncates (x : float) (s : bool) (m : positive) (e k : Z) :
  Prim2SF x = S754_finite s m e ->
  Cell.int x = Ok k ->
  (0 <= e -> Z.abs k = Z.pos m * 2 ^ e)
  /\ (e < 0 ->
      Z.abs k * 2 ^ (- e) <= Z.pos m < (Z.abs k + 1) * 2 ^ (- e)).
Proof.
  intros Hx Hk. unfold Cell.int in Hk. rewrite Hx in Hk.
  injection Hk as <-.
  assert (Habs : forall mag, 0 <= mag ->
            Z.abs (if s then - mag else mag) = mag)
    by (intros mag Hmag; destruct s; lia).
  destruct (Z.leb_spec 0 e) as [He|He].
  - split; [|lia]. intros _. apply Habs.
    apply Z.mul_nonneg_nonneg; [lia|apply Z.pow_nonneg; lia].
  - split; [lia|]. intros _.
    assert (Hp : 0 < 2 ^ (- e)) by (apply Z.pow_pos_nonneg; lia).
    rewrite Habs by (apply Z.div_pos; lia).
    split.
    + rewrite Z.mul_comm. apply Z.mul_div_le. exact Hp.
    + rewrite Z.mul_comm. apply Z.mul_succ_div_gt. exact Hp.
Qed.

Lemma leb_defined (x y : float) :
  (x <=? y)%float = true -> Cell.isna x = false /\ Cell.isna y = false.
Proof.
  rewrite FloatAxioms.leb_spec. intros H. rewrite !isna_false.
  unfold SFleb in H.
  split; intros E; rewrite E in H; simpl in H;
    [|destruct (Prim2SF x)]; discriminate.
Qed.

Lemma ltb_not_leb (x y : float) :
  (x <? y)%float = true -> (y <=? x)%float = false.
Proof.
  rewrite FloatAxioms.ltb_spec, FloatAxioms.leb_spec. unfold SFltb, SFleb.
  rewrite (SFcompare_antisym (Prim2SF x) (Prim2SF y)).
  destruct (SFcompare (Prim2SF x) (Prim2SF y)) as [[]|]; simpl; congruence.
Qed.

Lemma not_leb_ltb (x y : float) :
  Cell.isna x = false -> Cell.isna y = false ->
  (y <=? x)%float = false -> (x <? y)%float = true.
Proof.
  rewrite !isna_false, FloatAxioms.ltb_spec, FloatAxioms.leb_spec. unfold SFltb, SFleb.
  rewrite (SFcompare_antisym (Prim2SF x) (Prim2SF y)).
  intros Hx Hy.
  destruct (Prim2SF x) as [sx|sx| |sx mx ex]; try congruence;
  destruct (Prim2SF y) as [sy|sy| |sy my ey]; try congruence;
  match goal with
  | |- context [SFcompare ?a ?b] =>
      destruct (SFcompare a b) as [[]|] eqn:E; simpl; try congruence;
      try (simpl in E; discriminate E)
  end.
Qed.


(** ** The midpoint resolver *)

Example get_midpoint_indexed :
  get_midpoint 1 "c2064it_3" = Ok 50000%float
  /\ get_midpoint 4 "c1000bbit" = Ok 95.5%float
  /\ get_midpoint 2.5 "d1105it" = Ok 15000%float
  /\ get_midpoint 999 "d1105it" = Ok nan
  /\ get_midpoint 1 "nonexistent_var" = Ok nan
  /\ get_midpoint infinity "d1105it" = Raise OverflowError.
Proof. vm_compute. repeat split; reflexivity. Qed.

Lemma forallb_map_lookup `{Countable K} {A} (m : gmap K A)
    (f : K * A -> bool) :
  forallb f (map_to_list m) = true ->
  forall k v, m !! k = Some v -> f (k, v) = true.
Proof.
  intros Hall k v Hk. rewrite forallb_forall in Hall. apply Hall.
  apply list_elem_of_In, elem_of_map_to_list. exact Hk.
Qed.

Section Midpoint.

Local Open Scope string_scope.

Lemma all_digits_no_underscore (d : string) :
  all_digits d = true -> rsplit_underscore d = None.
Proof.
  induction d as [|c d IH]; simpl; [reflexivity|].
  intros [Hc Hd]%andb_true_iff.
  rewrite (IH Hd).
  destruct (Ascii.eqb c "_") eqn:E; [|reflexivity].
  apply Ascii.eqb_eq in E; subst c. discriminate Hc.
Qed.

Lemma rsplit_underscore_suffix (x d : string) :
  rsplit_underscore d = None ->
  rsplit_underscore (x ++ "_" ++ d) = Some (x, d).
Proof.
  intros Hd. induction x as [|c x IH].
  - change (rsplit_underscore (String "_" d) = Some ("", d)).
    simpl. rewrite Hd. reflexivity.
  - change (rsplit_underscore (String c (x ++ "_" ++ d))
            = Some (String c x, d)).
    simpl. rewrite IH. reflexivity.
Qed.

Lemma normalise_strips_index (x d : string) :
  isdigit d = true -> _normalise_var_name (x ++ "_" ++ d) = x.
Proof.
  intros Hd. unfold _normalise_var_name.
  assert (Hall : all_digits d = true) by (destruct d; [discriminate|exact Hd]).
  rewrite (rsplit_underscore_suffix x d (all_digits_no_underscore d Hall)).
  rewrite Hd. reflexivity.
Qed.

Lemma registry_checked :
  forallb registry_entry_ok (map_to_list _VAR_TO_MAP) = true.
Proof. vm_compute. reflexivity. Qed.

Lemma registered_entry_ok (var : string) (mp : gmap Z float) :
  _VAR_TO_MAP !! var = Some mp -> registry_entry_ok (var, mp) = true.
Proof.
  exact (forallb_map_lookup _VAR_TO_MAP registry_entry_ok
           registry_checked var mp).
Qed.

Lemma registered_is_base (var : string) (mp : gmap Z float) :
  _VAR_TO_MAP !! var = Some mp -> _normalise_var_name var = var.
Proof.
  intros H. apply registered_entry_ok in H.
  apply andb_true_iff in H as [H _]. apply String.eqb_eq in H. exact H.
Qed.

Lemma registered_entry_defined (var : string) (mp : gmap Z float) k v :
  _VAR_TO_MAP !! var = Some mp -> mp !! k = Some v -> Cell.isna v = false.
Proof.
  intros H Hk. apply registered_entry_ok in H.
  apply andb_true_iff in H as [_ H].
  apply (forallb_map_lookup mp _ H) in Hk.
  apply negb_true_iff in Hk. exact Hk.
Qed.

(** C8: for a registered variable name (more generally, a name whose base
    name is registered) and a defined code whose integer value [k] is a key
    of its table, [get_midpoint] returns the table's literal entry, which is
    a defined number; an undefined code, an unregistered base name, and a
    code absent from the registered table all resolve to NaN, which is not
    zero. *)
Theorem get_midpoint_table_or_nan (code : float) (var : string) :
  (Cell.isna code = true -> get_midpoint code var = Ok nan)
  /\ (_VAR_TO_MAP !! _normalise_var_name var = None ->
      get_midpoint code var = Ok nan)
  /\ (forall mp, _VAR_TO_MAP !! var = Some mp ->
        _VAR_TO_MAP !! _normalise_var_name var = Some mp)
  /\ (forall mp k,
        _VAR_TO_MAP !! _normalise_var_name var = Some mp ->
        Cell.isna code = false ->
        Cell.int code = Ok k ->
        match mp !! k with
        | Some v => get_midpoint code var = Ok v /\ Cell.isna v = false
        | None => get_midpoint code var = Ok nan
        end)
  /\ Cell.isna nan = true /\ (nan =? 0)%float = false.
Proof.
  repeat split.
  - intros Hna. unfold get_midpoint. rewrite Hna. reflexivity.
  - intros Hreg. unfold get_midpoint. rewrite Hreg.
    destruct (Cell.isna code); reflexivity.
  - intros mp Hreg. rewrite (registered_is_base var mp Hreg). exact Hreg.
  - intros mp k Hreg Hna Hint.
    unfold get_midpoint. rewrite Hna, Hreg, Hint. simpl.
    destruct (mp !! k) as [v|] eqn:Hk; simpl.
    + split; [reflexivity|].
      exact (registered_entry_defined _ mp k v Hreg Hk).
    + reflexivity.
Qed.

Lemma get_midpoint_table_or_nan_witness :
  get_midpoint nan "d1105it" = Ok nan
  /\ get_midpoint 1 "nonexistent_var" = Ok nan
  /\ (get_midpoint 11 "d3109it" = Ok 15000000%float
      /\ Cell.isna 15000000 = false)
  /\ get_midpoint 4 "f4005it" = Ok nan.
Proof.
  destruct (get_midpoint_table_or_nan nan "d1105it") as (H1 & _).
  destruct (get_midpoint_table_or_nan 1 "nonexistent_var") as (_ & H2 & _).
  destruct (get_midpoint_table_or_nan 11 "d3109it") as (_ & _ & _ & H3 & _).
  destruct (get_midpoint_table_or_nan 4 "f4005it") as (_ & _ & _ & H4 & _).
  split; [apply H1; reflexivity|].
  split; [apply H2; vm_compute; reflexivity|].
  split.
  - exact (H3 _MAP_1 11%Z ltac:(vm_compute; reflexivity) eq_refl eq_refl).
  - exact (H4 _MAP_18 4%Z ltac:(vm_compute; reflexivity) eq_refl eq_refl).
Defined.

(** C9: for a registered base name [x] and a non-empty string of decimal
    digits [d], resolving under the name [x_d] gives the same result as
    resolving under [x], whatever the code. *)
Theorem get_midpoint_index_suffix (c : float) (x d : string)
    (mp : gmap Z float) :
  _VAR_TO_MAP !! x = Some mp ->
  isdigit d = true ->
  get_midpoint c (x ++ "_" ++ d) = get_midpoint c x.
Proof.
  intros Hreg Hd. unfold get_midpoint.
  rewrite (normalise_strips_index x d Hd), (registered_is_base x mp Hreg).
  reflexivity.
Qed.

Lemma get_midpoint_index_suffix_witness :
  _VAR_TO_MAP !! "c2064it" = Some _MAP_10
  /\ isdigit "3" = true
  /\ get_midpoint 1 ("c2064it" ++ "_" ++ "3") = get_midpoint 1 "c2064it".
Proof.
  assert (Hreg : _VAR_TO_MAP !! "c2064it" = Some _MAP_10)
    by (vm_compute; reflexivity).
  split; [exact Hreg|]. split; [reflexivity|].
  exact (get_midpoint_index_suffix 1 "c2064it" "3" _MAP_10 Hreg eq_refl).
Defined.

End Midpoint.

(** ** Data-frame and monad bookkeeping *)

Lemma bind_Ok {A B} (m : result A) (k : A -> result B) (b : B) :
  m ≫= k = Ok b -> exists a, m = Ok a /\ k a = Ok b.
Proof. destruct m as [a|e]; simpl; [eauto|discriminate]. Qed.

Lemma get_column_Ok (df : DataFrame) (c : string) (col : list float) :
  get_column df c = Ok col <-> columns df !! c = Some col.
Proof.
  unfold get_column. destruct (columns df !! c); split; congruence.
Qed.

Lemma set_column_same (df : DataFrame) (c : string) (col : list float) :
  columns (set_column df c col) !! c = Some col.
Proof. simpl. apply lookup_insert_eq. Qed.

Lemma set_column_other (df : DataFrame) (c c' : string) (col : list float) :
  c <> c' -> columns (set_column df c col) !! c' = columns df !! c'.
Proof. intros. simpl. apply lookup_insert_ne. assumption. Qed.

Lemma well_formed_set_column (df : DataFrame) (c : string)
    (col : list float) :
  well_formed df -> length col = nrows df -> well_formed (set_column df c col).
Proof.
  intros Hwf Hlen c' col' H. simpl in *.
  destruct (decide (c = c')) as [->|Hne].
  - rewrite lookup_insert_eq in H. injection H as <-. exact Hlen.
  - rewrite lookup_insert_ne in H by exact Hne. exact (Hwf _ _ H).
Qed.

Lemma well_formed_frame_of (n : nat) (cols : list (string * list float)) :
  Forall (fun p => length p.2 = n) cols -> well_formed (frame_of n cols).
Proof.
  unfold frame_of.
  assert (Hgen : forall df, well_formed df -> nrows df = n ->
            Forall (fun p => length p.2 = n) cols ->
            well_formed
              (foldl (fun df '(name, col) => set_column df name col) df cols)).
  { induction cols as [|[c col] cols IH]; intros df Hwf Hn Hall; simpl.
    - exact Hwf.
    - inversion Hall as [|? ? Hlen Hrest]; subst. apply IH.
      + apply well_formed_set_column; [exact Hwf|]. simpl in Hlen. congruence.
      + reflexivity.
      + exact Hrest. }
  intros Hall. apply Hgen; [|reflexivity|exact Hall].
  intros c col H. simpl in H. rewrite lookup_empty in H. discriminate H.
Qed.

Lemma has_column_true (df : DataFrame) (c : string) :
  has_column df c = true <-> is_Some (columns df !! c).
Proof. unfold has_column. apply bool_decide_eq_true. Qed.

Lemma has_column_false (df : DataFrame) (c : string) :
  has_column df c = false <-> columns df !! c = None.
Proof.
  unfold has_column. rewrite bool_decide_eq_false.
  rewrite <- eq_None_not_Some. reflexivity.
Qed.


(** ** The raw debt ratio *)





(** ** Coalescing *)

Lemma rmapM_Ok {A B} (f : A -> result B) (l : list A) (bs : list B) :
  rmapM f l = Ok bs ->
  length bs = length l
  /\ forall i a, l !! i = Some a -> exists b, f a = Ok b /\ bs !! i = Some b.
Proof.
  revert bs. induction l as [|a l IH]; simpl; intros bs H.
  - injection H as <-. split; [reflexivity|]. intros i a Hi. discriminate Hi.
  - apply bind_Ok in H as (b & Hb & H).
    apply bind_Ok in H as (bs' & Hbs & H). injection H as <-.
    destruct (IH bs' Hbs) as [Hlen Hlk]. split; [simpl; congruence|].
    intros [|i] a' Hi; simpl in *.
    + injection Hi as <-. eauto.
    + apply Hlk. exact Hi.
Qed.

Lemma rmapM_total {A B} (f : A -> result B) (l : list A) :
  (forall a, a ∈ l -> exists b, f a = Ok b) -> exists bs, rmapM f l = Ok bs.
Proof.
  induction l as [|a l IH]; intros H; simpl.
  - eexists; reflexivity.
  - destruct (H a) as [b Hb]; [left|].
    destruct IH as [bs Hbs]; [intros a' Ha'; apply H; right; exact Ha'|].
    rewrite Hb, Hbs. simpl. eexists; reflexivity.
Qed.

Lemma get_midpoint_total (code : float) (var : string) :
  PrimFloat.is_infinity code = false -> exists m, get_midpoint code var = Ok m.
Proof.
  intros Hinf. unfold get_midpoint.
  destruct (Cell.isna code) eqn:Hna; [eexists; reflexivity|].
  destruct (_VAR_TO_MAP !! _) as [mp|]; [|eexists; reflexivity].
  destruct (int_total code Hna Hinf) as [k ->]. simpl. eexists; reflexivity.
Qed.

Lemma combine_first_lookup (a b : list float) (i : nat) (x y : float) :
  a !! i = Some x -> b !! i = Some y ->
  combine_first a b !! i = Some (if Cell.isna x then y else x).
Proof.
  intros Ha Hb. unfold combine_first. rewrite lookup_zip_with, Ha, Hb.
  reflexivity.
Qed.

Lemma exact_series_lookup (df : DataFrame) (spec : VarSpec) (i : nat) :
  well_formed df -> (i < nrows df)%nat ->
  default (replicate (nrows df) nan) (columns df !! exact spec) !! i
  = Some (exact_cell df spec i).
Proof.
  intros Hwf Hi. unfold exact_cell, cell.
  destruct (columns df !! exact spec) as [col|] eqn:E; simpl.
  - destruct (lookup_lt_is_Some_2 col i) as [x Hx].
    + rewrite (Hwf _ _ E). exact Hi.
    + rewrite Hx. reflexivity.
  - apply lookup_replicate_2. exact Hi.
Qed.

Lemma coalesce_var_Ok (df : DataFrame) (spec : VarSpec) :
  well_formed df ->
  codes_finite df spec ->
  exists col, _coalesce_var df spec = Ok col /\ length col = nrows df.
Proof.
  intros Hwf Hfin.
  assert (Hlen : length (default (replicate (nrows df) nan)
                           (columns df !! exact spec)) = nrows df).
  { destruct (columns df !! exact spec) as [col|] eqn:E; simpl.
    - exact (Hwf _ _ E).
    - apply length_replicate. }
  unfold _coalesce_var.
  destruct (interval_given spec) as [it|] eqn:Eit; [|eauto].
  destruct (columns df !! it) as [codes|] eqn:Ecodes; [|eauto].
  destruct (rmapM_total (fun x => get_midpoint x it) codes) as [mids Hmids].
  { intros c Hc. apply get_midpoint_total. exact (Hfin it codes c Eit Ecodes Hc). }
  unfold get_midpoint_series. rewrite Hmids. simpl.
  eexists. split; [reflexivity|].
  destruct (rmapM_Ok _ _ _ Hmids) as [Hml _].
  unfold combine_first. rewrite length_zip_with, Hlen, Hml, (Hwf _ _ Ecodes).
  lia.
Qed.

(** Row-wise reading of [_coalesce_var]: the exact value when it is
    defined, otherwise the midpoint resolved from the row's interval
    code. *)
Lemma coalesce_var_rows (df : DataFrame) (spec : VarSpec) :
  well_formed df ->
  codes_finite df spec ->
  exists col,
    _coalesce_var df spec = Ok col
    /\ length col = nrows df
    /\ forall i, (i < nrows df)%nat ->
         (Cell.isna (exact_cell df spec i) = false ->
          col !! i = Some (exact_cell df spec i))
         /\ (Cell.isna (exact_cell df spec i) = true ->
             exists m, interval_midpoint df spec i = Ok m
                       /\ col !! i = Some m).
Proof.
  intros Hwf Hfin.
  assert (Hlen : length (default (replicate (nrows df) nan)
                           (columns df !! exact spec)) = nrows df).
  { destruct (columns df !! exact spec) as [col|] eqn:E; simpl.
    - exact (Hwf _ _ E).
    - apply length_replicate. }
  assert (Hplain : forall i, (i < nrows df)%nat ->
            interval_midpoint df spec i = Ok nan ->
            (Cell.isna (exact_cell df spec i) = false ->
             default (replicate (nrows df) nan) (columns df !! exact spec) !! i
             = Some (exact_cell df spec i))
            /\ (Cell.isna (exact_cell df spec i) = true ->
                exists m, interval_midpoint df spec i = Ok m
                  /\ default (replicate (nrows df) nan)
                       (columns df !! exact spec) !! i = Some m)).
  { intros i Hi Hmid. pose proof (exact_series_lookup df spec i Hwf Hi) as Hx.
    split; [intros _; exact Hx|].
    intros Hna. exists nan. split; [exact Hmid|].
    rewrite Hx. f_equal. apply Prim2SF_inj.
    apply isna_true in Hna. rewrite Hna. reflexivity. }
  unfold _coalesce_var.
  destruct (interval_given spec) as [it|] eqn:Eit.
  2:{ eexists. split; [reflexivity|]. split; [exact Hlen|].
      intros i Hi. apply Hplain; [exact Hi|].
      unfold interval_midpoint. rewrite Eit. reflexivity. }
  destruct (columns df !! it) as [codes|] eqn:Ecodes.
  2:{ eexists. split; [reflexivity|]. split; [exact Hlen|].
      intros i Hi. apply Hplain; [exact Hi|].
      unfold interval_midpoint. rewrite Eit, Ecodes. reflexivity. }
  destruct (rmapM_total (fun x => get_midpoint x it) codes) as [mids Hmids].
  { intros c Hc. apply get_midpoint_total. exact (Hfin it codes c Eit Ecodes Hc). }
  unfold get_midpoint_series. rewrite Hmids. simpl.
  destruct (rmapM_Ok _ _ _ Hmids) as [Hml Hmk].
  eexists. split; [reflexivity|]. split.
  { unfold combine_first. rewrite length_zip_with, Hlen, Hml, (Hwf _ _ Ecodes).
    lia. }
  intros i Hi.
  pose proof (exact_series_lookup df spec i Hwf Hi) as Hx.
  destruct (lookup_lt_is_Some_2 codes i) as [c Hc].
  { rewrite (Hwf _ _ Ecodes). exact Hi. }
  destruct (Hmk i c Hc) as (m & Hm & Hmi).
  rewrite (combine_first_lookup _ _ i _ m Hx Hmi).
  split.
  - intros ->. reflexivity.
  - intros ->. exists m. split; [|reflexivity].
    unfold interval_midpoint. rewrite Eit, Ecodes, Hc. exact Hm.
Qed.


(** *** The coalescing loops *)

Lemma coalesce_var_set_column (df : DataFrame) (spec : VarSpec) (c : string)
    (col : list float) :
  c <> exact spec -> interval spec <> Some c ->
  _coalesce_var (set_column df c col) spec = _coalesce_var df spec.
Proof.
  intros He Hi. unfold _coalesce_var.
  rewrite (set_column_other df c (exact spec) col He).
  change (nrows (set_column df c col)) with (nrows df).
  destruct (interval_given spec) as [it|] eqn:E; [|reflexivity].
  rewrite set_column_other; [reflexivity|].
  intros ->. apply Hi. unfold interval_given in E.
  destruct (interval spec) as [[|]|]; congruence.
Qed.

Lemma coalesce_var_agree (df1 df2 : DataFrame) (spec : VarSpec) :
  nrows df1 = nrows df2 ->
  columns df1 !! exact spec = columns df2 !! exact spec ->
  (forall it, interval_given spec = Some it ->
              columns df1 !! it = columns df2 !! it) ->
  _coalesce_var df1 spec = _coalesce_var df2 spec.
Proof.
  intros Hn He Hi. unfold _coalesce_var. rewrite Hn, He.
  destruct (interval_given spec) as [it|]; [|reflexivity].
  rewrite (Hi it eq_refl). reflexivity.
Qed.

Lemma names_fresh_spec (specs : list VarSpec) :
  names_fresh specs = true ->
  NoDup (coalesced_name <$> specs)
  /\ forall s s', s ∈ specs -> s' ∈ specs ->
       coalesced_name s <> exact s' /\ interval s' <> Some (coalesced_name s).
Proof.
  unfold names_fresh. intros [Hnd Hall]%andb_true_iff.
  split; [exact (bool_decide_unpack _ (Is_true_true_2 _ Hnd))|].
  intros s s' Hs Hs'. rewrite forallb_forall in Hall.
  specialize (Hall s (proj1 (list_elem_of_In _ _) Hs)).
  rewrite forallb_forall in Hall.
  specialize (Hall s' (proj1 (list_elem_of_In _ _) Hs')).
  apply andb_true_iff in Hall as [H1 H2].
  apply negb_true_iff in H1, H2.
  split; [apply String.eqb_neq; exact H1|].
  apply bool_decide_eq_false in H2. exact H2.
Qed.

(** The loop [for spec in specs: df[spec.coalesced_name] =
    _coalesce_var(df, spec)]: when no coalesced name shadows an input
    column, each new column is the coalescing of the frame the loop
    started from. *)
Lemma coalesce_loop_Ok (specs : list VarSpec) :
  forall df : DataFrame,
    (forall s s', s ∈ specs -> s' ∈ specs ->
       coalesced_name s <> exact s'
       /\ interval s' <> Some (coalesced_name s)) ->
    NoDup (coalesced_name <$> specs) ->
    (forall spec, spec ∈ specs -> exists col, _coalesce_var df spec = Ok col) ->
    exists df',
      coalesce_loop df specs = Ok (df', coalesced_name <$> specs)
      /\ nrows df' = nrows df
      /\ (forall c, c ∉ coalesced_name <$> specs ->
            columns df' !! c = columns df !! c)
      /\ (forall spec, spec ∈ specs ->
            exists col, _coalesce_var df spec = Ok col
                        /\ columns df' !! coalesced_name spec = Some col).
Proof.
  induction specs as [|spec specs IH]; intros df Hfresh Hnd Hok.
  - exists df. split; [reflexivity|]. split; [reflexivity|].
    split; [reflexivity|]. intros spec Hin. inversion Hin.
  - rewrite fmap_cons in Hnd. apply NoDup_cons in Hnd as [Hnin Hnd].
    destruct (Hok spec) as [col Hcol]; [left|].
    set (df1 := set_column df (coalesced_name spec) col).
    assert (Hsame : forall s', s' ∈ spec :: specs ->
              _coalesce_var df1 s' = _coalesce_var df s').
    { intros s' Hs'. unfold df1.
      destruct (Hfresh spec s') as [H1 H2]; [left|exact Hs'|].
      apply coalesce_var_set_column; assumption. }
    destruct (IH df1) as (df' & Hloop & Hn & Hother & Hcols).
    + intros s s' Hs Hs'. apply Hfresh; right; assumption.
    + exact Hnd.
    + intros s' Hs'. rewrite Hsame by (right; exact Hs').
      apply Hok. right. exact Hs'.
    + exists df'. simpl. rewrite Hcol. simpl. fold df1. rewrite Hloop. simpl.
      split; [reflexivity|]. split; [exact Hn|]. split.
      * intros c Hc. apply not_elem_of_cons in Hc as [Hne Hc].
        rewrite (Hother c Hc). unfold df1. apply set_column_other. congruence.
      * intros s' Hs'. apply elem_of_cons in Hs' as [->|Hs'].
        -- exists col. split; [exact Hcol|].
           rewrite (Hother _ Hnin). apply set_column_same.
        -- destruct (Hcols s' Hs') as (col' & Hc' & Hl').
           exists col'. split; [|exact Hl'].
           rewrite <- (Hsame s') by (right; exact Hs'). exact Hc'.
Qed.

Lemma nan_extends_refl (df : DataFrame) : nan_extends df df.
Proof. split; [reflexivity|]. intros c. left. reflexivity. Qed.

Lemma nan_extends_trans (df1 df2 df3 : DataFrame) :
  nan_extends df1 df2 -> nan_extends df2 df3 -> nan_extends df1 df3.
Proof.
  intros [Hn12 H12] [Hn23 H23]. split; [congruence|].
  intros c. destruct (H23 c) as [E|[E1 E2]].
  - rewrite E. apply H12.
  - destruct (H12 c) as [E'|[E1' E2']]; [|congruence].
    right. split; [congruence|]. rewrite E2, Hn12. reflexivity.
Qed.

Lemma ensure_column_extends (acc : DataFrame * nat) (col : option string) :
  nan_extends acc.1 (ensure_column acc col).1.
Proof.
  unfold ensure_column. destruct col as [c|]; [|apply nan_extends_refl].
  destruct (has_column acc.1 c) eqn:E; [apply nan_extends_refl|].
  apply has_column_false in E. simpl. split; [reflexivity|].
  intros c'. destruct (decide (c = c')) as [<-|Hne].
  - right. split; [exact E|]. unfold set_scalar. apply set_column_same.
  - left. unfold set_scalar. apply set_column_other. exact Hne.
Qed.

Lemma foldl_ensure_column_extends (cols : list (option string)) :
  forall acc, nan_extends acc.1 (foldl ensure_column acc cols).1.
Proof.
  induction cols as [|col cols IH]; intros acc; simpl;
    [apply nan_extends_refl|].
  eapply nan_extends_trans; [apply ensure_column_extends|apply IH].
Qed.

Lemma ensure_columns_extends (specs : list VarSpec) (df : DataFrame) :
  nan_extends df (_ensure_columns df specs).1.
Proof.
  unfold _ensure_columns.
  change df with ((df, 0%nat).1) at 1. generalize (df, 0%nat).
  induction specs as [|spec specs IH]; intros acc; simpl;
    [apply nan_extends_refl|].
  eapply nan_extends_trans; [|apply IH].
  apply (foldl_ensure_column_extends [Some (exact spec); interval spec]).
Qed.

Lemma ensure_prologue_extends (l1 l2 : list VarSpec)
    (cols : list (option string)) (df : DataFrame) :
  nan_extends df
    (foldl ensure_column
       ((_ensure_columns (_ensure_columns df l1).1 l2).1, 0%nat) cols).1.
Proof.
  eapply nan_extends_trans; [apply ensure_columns_extends|].
  eapply nan_extends_trans; [apply ensure_columns_extends|].
  apply (foldl_ensure_column_extends cols (_, 0%nat)).
Qed.

Lemma ensured_extends (df : DataFrame) : nan_extends df (ensured df).
Proof.
  exact (ensure_prologue_extends ALL_DEBT_VARS ALL_ASSET_VARS
           [Some (exact ASSET_VEHICLE_IN_BUSINESS);
            interval ASSET_VEHICLE_IN_BUSINESS] df).
Qed.

Lemma nan_extends_cell (df dfE : DataFrame) (c : string) (i : nat) :
  nan_extends df dfE -> (i < nrows df)%nat -> cell dfE c i = cell df c i.
Proof.
  intros [_ H] Hi. unfold cell. destruct (H c) as [->|[-> ->]]; [reflexivity|].
  simpl. rewrite lookup_replicate_2 by exact Hi. reflexivity.
Qed.

Lemma nan_extends_well_formed (df dfE : DataFrame) :
  nan_extends df dfE -> well_formed df -> well_formed dfE.
Proof.
  intros [Hn H] Hwf c col Hc. rewrite Hn.
  destruct (H c) as [E|[_ E]]; rewrite E in Hc.
  - exact (Hwf _ _ Hc).
  - injection Hc as <-. apply length_replicate.
Qed.

Lemma nan_extends_codes_finite (df dfE : DataFrame) (spec : VarSpec) :
  nan_extends df dfE -> codes_finite df spec -> codes_finite dfE spec.
Proof.
  intros [_ H] Hfin it codes c Hit Hcodes Hc.
  destruct (H it) as [E|[_ E]]; rewrite E in Hcodes.
  - exact (Hfin it codes c Hit Hcodes Hc).
  - injection Hcodes as <-. apply elem_of_replicate in Hc as [-> _].
    reflexivity.
Qed.

Lemma nan_extends_interval_midpoint (df dfE : DataFrame) (spec : VarSpec)
    (i : nat) :
  nan_extends df dfE -> (i < nrows df)%nat ->
  interval_midpoint dfE spec i = interval_midpoint df spec i.
Proof.
  intros [_ H] Hi. unfold interval_midpoint.
  destruct (interval_given spec) as [it|]; [|reflexivity].
  destruct (H it) as [->|[-> ->]]; [reflexivity|].
  rewrite lookup_replicate_2 by exact Hi. reflexivity.
Qed.

Lemma catalogue_names_fresh :
  names_fresh (ALL_DEBT_VARS ++ ALL_ASSET_VARS) = true.
Proof. vm_compute. reflexivity. Qed.

Lemma two_loops_Ok (dfE : DataFrame) (l1 l2 : list VarSpec)
    (df1 df2 : DataFrame) (n1 n2 : list string) :
  coalesce_loop dfE l1 = Ok (df1, n1) ->
  coalesce_loop df1 l2 = Ok (df2, n2) ->
  ('(df, debt_cols) ← coalesce_loop dfE l1;
   '(df, asset_cols) ← coalesce_loop df l2;
   Ok (df, debt_cols, asset_cols)) = Ok (df2, n1, n2).
Proof. intros H1 H2. rewrite H1. simpl. rewrite H2. reflexivity. Qed.

Lemma coalesce_two_loops (dfE : DataFrame) (l1 l2 : list VarSpec) :
  names_fresh (l1 ++ l2) = true ->
  (forall spec, spec ∈ l1 ++ l2 ->
     exists col, _coalesce_var dfE spec = Ok col) ->
  exists df1 df2,
    coalesce_loop dfE l1 = Ok (df1, coalesced_name <$> l1)
    /\ coalesce_loop df1 l2 = Ok (df2, coalesced_name <$> l2)
    /\ nrows df2 = nrows dfE
    /\ (forall spec, spec ∈ l1 ++ l2 ->
          exists col, _coalesce_var dfE spec = Ok col
                      /\ columns df2 !! coalesced_name spec = Some col).
Proof.
  intros Hfresh Hok. apply names_fresh_spec in Hfresh as [Hnd Hfresh].
  rewrite fmap_app in Hnd. apply NoDup_app in Hnd as (Hnd1 & Hdisj & Hnd2).
  destruct (coalesce_loop_Ok l1 dfE) as (df1 & Hloop1 & Hn1 & Hother1 & Hcols1).
  { intros s s' Hs Hs'. apply Hfresh; apply elem_of_app; left; assumption. }
  { exact Hnd1. }
  { intros spec Hs. apply Hok. apply elem_of_app. left. exact Hs. }
  assert (Hsame : forall spec, spec ∈ l2 ->
            _coalesce_var df1 spec = _coalesce_var dfE spec).
  { intros spec Hs. apply coalesce_var_agree; [exact Hn1| |].
    - apply Hother1. intros Hin.
      apply list_elem_of_fmap in Hin as (s & Heq & Hs1).
      destruct (Hfresh s spec) as [H1 _];
        [apply elem_of_app; left; exact Hs1
        |apply elem_of_app; right; exact Hs|].
      congruence.
    - intros it Hit. apply Hother1. intros Hin.
      apply list_elem_of_fmap in Hin as (s & Heq & Hs1).
      destruct (Hfresh s spec) as [_ H2];
        [apply elem_of_app; left; exact Hs1
        |apply elem_of_app; right; exact Hs|].
      apply H2. unfold interval_given in Hit.
      destruct (interval spec) as [[|]|]; congruence. }
  destruct (coalesce_loop_Ok l2 df1) as (df2 & Hloop2 & Hn2 & Hother2 & Hcols2).
  { intros s s' Hs Hs'. apply Hfresh; apply elem_of_app; right; assumption. }
  { exact Hnd2. }
  { intros spec Hs. rewrite (Hsame spec Hs). apply Hok.
    apply elem_of_app. right. exact Hs. }
  exists df1, df2. split; [exact Hloop1|]. split; [exact Hloop2|].
  split; [congruence|].
  intros spec Hs. apply elem_of_app in Hs as [Hs|Hs].
  - destruct (Hcols1 spec Hs) as (col & Hc & Hl). exists col.
    split; [exact Hc|]. rewrite Hother2; [exact Hl|].
    apply Hdisj. apply list_elem_of_fmap. exists spec.
    split; [reflexivity|exact Hs].
  - destruct (Hcols2 spec Hs) as (col & Hc & Hl). exists col.
    split; [|exact Hl]. rewrite <- (Hsame spec Hs). exact Hc.
Qed.

Lemma coalesce_all_from_loops (df df1 df2 : DataFrame) (n1 n2 : list string) :
  coalesce_loop (ensured df) ALL_DEBT_VARS = Ok (df1, n1) ->
  coalesce_loop df1 ALL_ASSET_VARS = Ok (df2, n2) ->
  coalesce_all df = Ok (df2, n1, n2).
Proof.
  exact (two_loops_Ok (ensured df) ALL_DEBT_VARS ALL_ASSET_VARS df1 df2 n1 n2).
Qed.

(** [coalesce_all] returns, and each column [<exact>_val] it creates is
    the coalescing of the frame left by the prologue. *)
Lemma coalesce_all_columns (df : DataFrame) :
  well_formed df ->
  (forall spec, spec ∈ ALL_DEBT_VARS ++ ALL_ASSET_VARS ->
     codes_finite df spec) ->
  exists df',
    coalesce_all df
    = Ok (df', coalesced_name <$> ALL_DEBT_VARS,
          coalesced_name <$> ALL_ASSET_VARS)
    /\ nrows df' = nrows df
    /\ forall spec, spec ∈ ALL_DEBT_VARS ++ ALL_ASSET_VARS ->
         exists col, _coalesce_var (ensured df) spec = Ok col
                     /\ columns df' !! coalesced_name spec = Some col.
Proof.
  intros Hwf Hfin.
  pose proof (ensured_extends df) as Hext.
  pose proof (nan_extends_well_formed _ _ Hext Hwf) as HwfE.
  destruct (coalesce_two_loops (ensured df) ALL_DEBT_VARS ALL_ASSET_VARS
              catalogue_names_fresh)
    as (df1 & df2 & Hloop1 & Hloop2 & Hn & Hcols).
  { intros spec Hs.
    destruct (coalesce_var_rows (ensured df) spec HwfE
                (nan_extends_codes_finite _ _ spec Hext (Hfin spec Hs)))
      as (col & Hcol & _).
    exists col. exact Hcol. }
  exists df2.
  split; [exact (coalesce_all_from_loops df df1 df2 _ _ Hloop1 Hloop2)|].
  split; [rewrite Hn; exact (proj1 Hext)|exact Hcols].
Qed.

(** The rows of a coalescing of the prologue's frame, read on the frame
    the prologue started from. *)
Lemma ensured_rows (df : DataFrame) (spec : VarSpec) (col : list float)
    (i : nat) :
  well_formed df -> codes_finite df spec ->
  _coalesce_var (ensured df) spec = Ok col ->
  (i < nrows df)%nat ->
  (Cell.isna (exact_cell df spec i) = false ->
   col !! i = Some (exact_cell df spec i))
  /\ (Cell.isna (exact_cell df spec i) = true ->
      exists m, interval_midpoint df spec i = Ok m /\ col !! i = Some m).
Proof.
  intros Hwf Hfin Hcol Hi.
  pose proof (ensured_extends df) as Hext.
  destruct (coalesce_var_rows (ensured df) spec
              (nan_extends_well_formed _ _ Hext Hwf)
              (nan_extends_codes_finite _ _ spec Hext Hfin))
    as (col' & Hcol' & _ & Hrows).
  rewrite Hcol in Hcol'. injection Hcol' as <-.
  assert (HiE : (i < nrows (ensured df))%nat)
    by (rewrite (proj1 Hext); exact Hi).
  specialize (Hrows i HiE).
  assert (He : exact_cell (ensured df) spec i = exact_cell df spec i)
    by (apply nan_extends_cell; assumption).
  rewrite He, (nan_extends_interval_midpoint _ _ spec i Hext Hi) in Hrows.
  exact Hrows.
Qed.

(** C3: for every [VarSpec] and every row, the value coalesced by
    [_coalesce_var] is the exact value when that is defined, whatever the
    interval column holds, and otherwise the midpoint resolved from the
    row's interval code, hence undefined when that resolution is undefined;
    and [coalesce_all] stores exactly this value in the column
    [<exact>_val] of every registered debt and asset variable, an absent
    source column counting as undefined. *)
Theorem coalesce_precedence (df : DataFrame) :
  well_formed df ->
  (forall spec, codes_finite df spec ->
     exists col,
       _coalesce_var df spec = Ok col
       /\ forall i, (i < nrows df)%nat ->
            (Cell.isna (exact_cell df spec i) = false ->
             col !! i = Some (exact_cell df spec i))
            /\ (Cell.isna (exact_cell df spec i) = true ->
                exists m, interval_midpoint df spec i = Ok m
                          /\ col !! i = Some m))
  /\ ((forall spec, spec ∈ ALL_DEBT_VARS ++ ALL_ASSET_VARS ->
        codes_finite df spec) ->
      exists df',
        coalesce_all df
        = Ok (df', coalesced_name <$> ALL_DEBT_VARS,
              coalesced_name <$> ALL_ASSET_VARS)
        /\ nrows df' = nrows df
        /\ forall spec i,
             spec ∈ ALL_DEBT_VARS ++ ALL_ASSET_VARS -> (i < nrows df)%nat ->
             exists col,
               columns df' !! coalesced_name spec = Some col
               /\ (Cell.isna (exact_cell df spec i) = false ->
                   col !! i = Some (exact_cell df spec i))
               /\ (Cell.isna (exact_cell df spec i) = true ->
                   exists m, interval_midpoint df spec i = Ok m
                             /\ col !! i = Some m)).
Proof.
  intros Hwf. split.
  { intros spec Hfin.
    destruct (coalesce_var_rows df spec Hwf Hfin) as (col & Hcol & _ & Hrows).
    exists col. split; [exact Hcol|exact Hrows]. }
  intros Hfin.
  destruct (coalesce_all_columns df Hwf Hfin) as (df' & Hall & Hn & Hcols).
  exists df'. split; [exact Hall|]. split; [exact Hn|].
  intros spec i Hs Hi.
  destruct (Hcols spec Hs) as (col & Hcol & Hlookup).
  exists col. split; [exact Hlookup|].
  exact (ensured_rows df spec col i Hwf (Hfin spec Hs) Hcol Hi).
Qed.

Lemma no_infinity_codes_finite (df : DataFrame) (spec : VarSpec) :
  map_Forall
    (fun _ col => Forall (fun x => PrimFloat.is_infinity x = false) col)
    (columns df) ->
  codes_finite df spec.
Proof.
  intros Hall it codes c _ Hcodes Hc.
  specialize (Hall it codes Hcodes). rewrite Forall_forall in Hall.
  exact (Hall c Hc).
Qed.

Lemma coalesce_precedence_witness :
  exists df' col,
    coalesce_all sample_coalesce
    = Ok (df', coalesced_name <$> ALL_DEBT_VARS,
          coalesced_name <$> ALL_ASSET_VARS)
    /\ columns df' !! "c7060_val" = Some col
    /\ col !! 0%nat = Some 1000%float
    /\ col !! 1%nat = Some 35000%float.
Proof.
  destruct (coalesce_precedence sample_coalesce) as [_ Hall].
  - apply well_formed_frame_of. repeat constructor.
  - destruct Hall as (df' & Hrun & _ & Hrows).
    + intros spec _. apply no_infinity_codes_finite.
      apply (bool_decide_unpack _). vm_compute. exact I.
    + assert (Hin : mkVarSpec "c7060" (Some "c7060it")
                    ∈ ALL_DEBT_VARS ++ ALL_ASSET_VARS)
        by (apply (bool_decide_unpack _); vm_compute; exact I).
      destruct (Hrows _ 0%nat Hin ltac:(vm_compute; lia))
        as (col & Hcol & Hexact & _).
      destruct (Hrows _ 1%nat Hin ltac:(vm_compute; lia))
        as (col' & Hcol' & _ & Hmid).
      rewrite Hcol in Hcol'. injection Hcol' as <-.
      exists df', col. split; [exact Hrun|]. split; [exact Hcol|]. split.
      * apply Hexact. reflexivity.
      * destruct Hmid as (m & Hm & Hl); [reflexivity|].
        vm_compute in Hm. injection Hm as <-. exact Hl.
Defined.


(** ** Totals *)

Lemma select_columns_Ok (df : DataFrame) (cols : list string) :
  (forall c, c ∈ cols -> is_Some (columns df !! c)) ->
  exists sel,
    select_columns df cols = Ok sel
    /\ Forall2 (fun c col => columns df !! c = Some col) cols sel.
Proof.
  unfold select_columns.
  induction cols as [|c cols IH]; intros H; simpl.
  - eexists; split; [reflexivity|constructor].
  - destruct (H c) as [col Hcol]; [left|].
    destruct IH as (sel & Hsel & Hall); [intros c' Hc'; apply H; right; exact Hc'|].
    rewrite (proj2 (get_column_Ok df c col) Hcol), Hsel. simpl.
    eexists; split; [reflexivity|]. constructor; assumption.
Qed.

Lemma block_rows_lookup (n : nat) (cols : list (list float)) (i : nat) :
  (i < n)%nat ->
  block_rows n cols !! i
  = Some ((fun col => default nan (col !! i)) <$> cols).
Proof.
  intros Hi. unfold block_rows.
  rewrite list_lookup_fmap, lookup_seq_lt by exact Hi. reflexivity.
Qed.

(** The left-to-right sum is one of the sums of a row. *)
Lemma fold_sum_sums (rows : list (list float)) :
  Forall2 sums_to rows (fold_sum rows).
Proof.
  assert (H : forall l l0 acc,
            sums_to l0 acc ->
            sums_to (l0 ++ l) (foldl PrimFloat.add acc l)).
  { induction l as [|x l IH]; intros l0 acc Hacc; simpl.
    - rewrite app_nil_r. exact Hacc.
    - rewrite cons_middle, app_assoc. apply IH.
      apply sums_add; [exact Hacc|apply sums_cell]. }
  unfold fold_sum. induction rows as [|l rows IH]; simpl; constructor.
  - exact (H l [] 0%float sums_zero).
  - exact IH.
Qed.

Lemma sum_axis1_row (np_sum : list (list float) -> list float)
    (df : DataFrame) (cols : list string)
    (sel : list (list float)) (i : nat) :
  (forall rows, Forall2 sums_to rows (np_sum rows)) ->
  well_formed df -> (i < nrows df)%nat ->
  Forall2 (fun c col => columns df !! c = Some col) cols sel ->
  exists t,
    sum_axis1 np_sum (nrows df)
      (fmap (M := list) (fmap (Cell.fillna 0)) sel) !! i = Some t
    /\ sums_to (Cell.fillna 0 <$> row_cells df cols i) t.
Proof.
  intros Hsum Hwf Hi Hall. unfold sum_axis1.
  destruct (Forall2_lookup_l _ _ _ i _ (Hsum _)
              (block_rows_lookup (nrows df)
                 (fmap (M := list) (fmap (Cell.fillna 0)) sel) i Hi))
    as (t & Ht & Hs).
  exists t. split; [exact Ht|].
  assert (Hrow : (fun col => default nan (col !! i))
                   <$> (fmap (M := list) (fmap (Cell.fillna 0)) sel)
                 = Cell.fillna 0 <$> row_cells df cols i).
  { unfold row_cells. clear Hs Ht.
    induction Hall as [|c col cols sel Hc _ IH]; [reflexivity|].
    rewrite !fmap_cons. f_equal; [|exact IH].
    destruct (lookup_lt_is_Some_2 col i) as [x Hx];
      [rewrite (Hwf _ _ Hc); exact Hi|].
    unfold cell. rewrite list_lookup_fmap, Hc. simpl. rewrite Hx.
    reflexivity. }
  rewrite <- Hrow. exact Hs.
Qed.

(** A sum of zeros is zero, whatever the order. *)
Lemma sums_to_zeros (l : list float) (t : float) :
  sums_to l t -> Forall (fun x => x = 0%float) l ->
  t = 0%float \/ (l = [] /\ t = (-0)%float).
Proof.
  induction 1 as [| |x|l1 l2 a b H1 IH1 H2 IH2|l l' a Hp H IH];
    intros Hall.
  - left. reflexivity.
  - right. split; reflexivity.
  - left. apply Forall_cons in Hall as [Hx _]. exact Hx.
  - apply Forall_app in Hall as [Ha1 Ha2].
    destruct (IH1 Ha1) as [->|[-> ->]], (IH2 Ha2) as [->|[-> ->]].
    + left. reflexivity.
    + left. reflexivity.
    + left. reflexivity.
    + right. split; reflexivity.
  - assert (Hall' : Forall (fun x => x = 0%float) l)
      by (rewrite Hp; exact Hall).
    destruct (IH Hall') as [->|[-> ->]]; [left; reflexivity|].
    right. split; [|reflexivity].
    symmetry. apply Permutation_nil_l. exact Hp.
Qed.

Lemma sums_to_all_undefined (cells : list float) (t : float) :
  sums_to (Cell.fillna 0 <$> cells) t ->
  Forall (fun x => Cell.isna x = true) cells ->
  (t =? 0)%float = true /\ (cells <> [] -> t = 0%float).
Proof.
  intros Hs Hall.
  assert (Hz : Forall (fun x => x = 0%float) (Cell.fillna 0 <$> cells)).
  { apply Forall_fmap. apply (Forall_impl _ _ _ Hall). intros x Hx.
    simpl. unfold Cell.fillna. rewrite Hx. reflexivity. }
  destruct (sums_to_zeros _ _ Hs Hz) as [->|[Hnil ->]].
  - split; [reflexivity|]. intros _. reflexivity.
  - split; [reflexivity|]. intros Hne. exfalso. apply Hne.
    apply fmap_nil_inv in Hnil. exact Hnil.
Qed.

Lemma clip_lower_max (x : float) :
  ((x <? 0)%float = true -> clip_lower 0 x = 0%float)
  /\ ((0 <=? x)%float = true -> clip_lower 0 x = x)
  /\ (Cell.isna x = false -> (0 <=? clip_lower 0 x)%float = true).
Proof.
  unfold clip_lower. repeat split.
  - intros Hlt. rewrite (ltb_not_leb _ _ Hlt).
    destruct (Cell.isna x) eqn:E; [|reflexivity].
    apply isna_true in E. rewrite FloatAxioms.ltb_spec, E in Hlt.
    discriminate Hlt.
  - intros ->. rewrite orb_true_r. reflexivity.
  - intros ->. simpl. destruct (0 <=? x)%float eqn:E; [exact E|reflexivity].
Qed.

Lemma select_columns_set_column (df : DataFrame) (c0 : string)
    (col : list float) (cols : list string) :
  c0 ∉ cols ->
  select_columns (set_column df c0 col) cols = select_columns df cols.
Proof.
  unfold select_columns. induction cols as [|c cols IH]; intros Hnin; simpl.
  - reflexivity.
  - apply not_elem_of_cons in Hnin as [Hne Hnin].
    rewrite (IH Hnin). unfold get_column.
    rewrite set_column_other by exact Hne. reflexivity.
Qed.

(** C4: in every row, [total_debt] is the sum of the row's debt columns
    with an undefined contribution counted as 0 (exactly 0 when every
    contribution is undefined), [total_assets_raw] is the same sum over the
    asset columns, and [total_assets] is [total_assets_raw] minus the
    coalesced business-vehicle value (0 when undefined), clamped at 0 from
    below.  The sums are floating-point sums in the order NumPy takes:
    [np_sum] is any reduction that returns, for each row, the row's cells
    added in some order. *)
Theorem compute_totals_rows (np_sum : list (list float) -> list float)
    (df : DataFrame) (debt_cols asset_cols : list string) :
  (forall rows, Forall2 sums_to rows (np_sum rows)) ->
  well_formed df ->
  (forall c, c ∈ debt_cols -> is_Some (columns df !! c)) ->
  (forall c, c ∈ asset_cols -> is_Some (columns df !! c)) ->
  "total_debt" ∉ asset_cols ->
  codes_finite df ASSET_VEHICLE_IN_BUSINESS ->
  exists df' vib,
    compute_totals np_sum df debt_cols asset_cols = Ok df'
    /\ _coalesce_var df ASSET_VEHICLE_IN_BUSINESS = Ok vib
    /\ forall i, (i < nrows df)%nat ->
       exists v td tar,
         vib !! i = Some v
         /\ (columns df' !! "total_debt" ≫= (.!! i)) = Some td
         /\ sums_to (Cell.fillna 0 <$> row_cells df debt_cols i) td
         /\ (Forall (fun x => Cell.isna x = true) (row_cells df debt_cols i) ->
             (td =? 0)%float = true /\ (debt_cols <> [] -> td = 0%float))
         /\ (columns df' !! "total_assets_raw" ≫= (.!! i)) = Some tar
         /\ sums_to (Cell.fillna 0 <$> row_cells df asset_cols i) tar
         /\ (Forall (fun x => Cell.isna x = true)
               (row_cells df asset_cols i) ->
             (tar =? 0)%float = true /\ (asset_cols <> [] -> tar = 0%float))
         /\ (let x := (tar - Cell.fillna 0 v)%float in
             (columns df' !! "total_assets" ≫= (.!! i))
             = Some (clip_lower 0 x)
             /\ ((x <? 0)%float = true -> clip_lower 0 x = 0%float)
             /\ ((0 <=? x)%float = true -> clip_lower 0 x = x)).
Proof.
  intros Hsum Hwf Hdebt Hasset Hnin Hfin.
  destruct (select_columns_Ok df debt_cols Hdebt) as (debt & Hsd & Hd2).
  destruct (select_columns_Ok df asset_cols Hasset) as (assets & Hsa & Ha2).
  destruct (coalesce_var_Ok df ASSET_VEHICLE_IN_BUSINESS Hwf Hfin)
    as (vib & Hvib & Hvlen).
  unfold compute_totals. rewrite Hsd. simpl.
  rewrite (select_columns_set_column df "total_debt" _ asset_cols Hnin), Hsa.
  simpl.
  rewrite (coalesce_var_set_column _ ASSET_VEHICLE_IN_BUSINESS
             "total_assets_raw") by discriminate.
  rewrite (coalesce_var_set_column _ ASSET_VEHICLE_IN_BUSINESS
             "total_debt") by discriminate.
  rewrite Hvib. simpl.
  rewrite (proj2 (get_column_Ok _ "total_assets_raw" _) (set_column_same _ _ _)).
  simpl. eexists. exists vib. split; [reflexivity|]. split; [reflexivity|].
  intros i Hi.
  destruct (lookup_lt_is_Some_2 vib i) as [v Hv]; [rewrite Hvlen; exact Hi|].
  destruct (sum_axis1_row np_sum df debt_cols debt i Hsum Hwf Hi Hd2)
    as (td & Htd & Hstd).
  destruct (sum_axis1_row np_sum df asset_cols assets i Hsum Hwf Hi Ha2)
    as (tar & Htar & Hstar).
  exists v, td, tar. split; [exact Hv|].
  split.
  { rewrite !set_column_other by discriminate. rewrite set_column_same.
    exact Htd. }
  split; [exact Hstd|].
  split.
  { intros Hall.
    destruct (sums_to_all_undefined _ _ Hstd Hall) as [Hz Hne].
    split; [exact Hz|]. intros Hcols. apply Hne. unfold row_cells.
    intros Hnil. apply fmap_nil_inv in Hnil. exact (Hcols Hnil). }
  split.
  { rewrite set_column_other by discriminate. rewrite set_column_same.
    exact Htar. }
  split; [exact Hstar|].
  split.
  { intros Hall.
    destruct (sums_to_all_undefined _ _ Hstar Hall) as [Hz Hne].
    split; [exact Hz|]. intros Hcols. apply Hne. unfold row_cells.
    intros Hnil. apply fmap_nil_inv in Hnil. exact (Hcols Hnil). }
  split.
  { rewrite set_column_same. simpl.
    rewrite list_lookup_fmap, lookup_zip_with, Htar. simpl.
    rewrite list_lookup_fmap, Hv. reflexivity. }
  split; apply clip_lower_max.
Qed.

Lemma compute_totals_rows_witness :
  exists df',
    compute_totals fold_sum sample_coalesced
      ["c7060_val"; "c7061_val"] ["d1105_val"; "d2104_val"] = Ok df'
    /\ columns df' !! "total_debt" = Some [300]%float
    /\ columns df' !! "total_assets_raw" = Some [1500]%float
    /\ columns df' !! "total_assets" = Some [0]%float.
Proof.
  destruct (compute_totals_rows fold_sum sample_coalesced
              ["c7060_val"; "c7061_val"] ["d1105_val"; "d2104_val"])
    as (df' & vib & Hdf' & _).
  - exact fold_sum_sums.
  - apply well_formed_frame_of. repeat constructor.
  - intros c Hc. repeat (apply elem_of_cons in Hc as [->|Hc]; [vm_compute; eauto|]).
    inversion Hc.
  - intros c Hc. repeat (apply elem_of_cons in Hc as [->|Hc]; [vm_compute; eauto|]).
    inversion Hc.
  - intros Hc. repeat (apply elem_of_cons in Hc as [Hc|Hc]; [discriminate Hc|]).
    inversion Hc.
  - intros it codes c Hit Hcodes Hc. injection Hit as <-.
    vm_compute in Hcodes. discriminate Hcodes.
  - exists df'. split; [exact Hdf'|].
    vm_compute in Hdf'. injection Hdf' as <-. repeat split; reflexivity.
Defined.

(** ** Row filters *)

Lemma filter_by_length {A B} (mask : list bool) (l : list A) (k : list B) :
  length l = length k ->
  length (filter_by mask l) = length (filter_by mask k).
Proof.
  revert l k. induction mask as [|b mask IH]; intros [|x l] [|y k] H;
    simpl in *; try reflexivity; try discriminate.
  injection H as H. destruct b; simpl; [f_equal|]; apply IH; exact H.
Qed.

Lemma filter_by_zip {A B} (mask : list bool) (l : list A) (k : list B) :
  filter_by mask (zip l k) = zip (filter_by mask l) (filter_by mask k).
Proof.
  revert l k. induction mask as [|b mask IH]; intros [|x l] [|y k];
    simpl; try reflexivity.
  - destruct b; simpl; destruct (filter_by mask l); reflexivity.
  - destruct b; simpl; [f_equal|]; apply IH.
Qed.

Lemma filter_by_elem {A} (mask : list bool) (l : list A) (x : A) :
  x ∈ filter_by mask l -> x ∈ l.
Proof.
  revert l. induction mask as [|b mask IH]; intros [|y l] H; simpl in *;
    try (inversion H; fail).
  destruct b.
  - apply elem_of_cons in H as [->|H]; [left|right; apply IH; exact H].
  - right. apply IH. exact H.
Qed.

Lemma filter_by_self {A} (f : A -> bool) (l : list A) (x : A) :
  x ∈ filter_by (f <$> l) l -> f x = true.
Proof.
  induction l as [|y l IH]; simpl; intros H; [inversion H|].
  destruct (f y) eqn:E.
  - apply elem_of_cons in H as [->|H]; [exact E|apply IH; exact H].
  - apply IH. exact H.
Qed.

Lemma filter_rows_lookup (mask : list bool) (df : DataFrame) (c : string) :
  columns (filter_rows mask df) !! c = filter_by mask <$> columns df !! c.
Proof. simpl. apply lookup_fmap. Qed.

Lemma well_formed_filter_rows (mask : list bool) (df : DataFrame) :
  well_formed df -> well_formed (filter_rows mask df).
Proof.
  intros Hwf c col H. rewrite filter_rows_lookup in H.
  destruct (columns df !! c) as [col0|] eqn:E; [|discriminate H].
  injection H as <-. simpl. apply filter_by_length.
  rewrite length_replicate. exact (Hwf _ _ E).
Qed.

Lemma sub_nan_r (x y : float) :
  Cell.isna y = true -> Cell.isna (x - y)%float = true.
Proof.
  rewrite !isna_true, FloatAxioms.sub_spec. intros ->.
  destruct (Prim2SF x) as [s|s| |s m e]; reflexivity.
Qed.

(** ** Head extraction *)

Lemma is_Some_set_column (df : DataFrame) (c0 c : string)
    (col : list float) :
  is_Some (columns df !! c) -> is_Some (columns (set_column df c0 col) !! c).
Proof.
  intros H. destruct (decide (c0 = c)) as [->|Hne].
  - rewrite set_column_same. eauto.
  - rewrite set_column_other by exact Hne. exact H.
Qed.

Lemma ensure_zero_spec (h : DataFrame) (c : string) :
  well_formed h ->
  well_formed (ensure_zero h c)
  /\ nrows (ensure_zero h c) = nrows h
  /\ is_Some (columns (ensure_zero h c) !! c)
  /\ (forall c', c' <> c ->
        columns (ensure_zero h c) !! c' = columns h !! c').
Proof.
  intros Hwf. unfold ensure_zero.
  destruct (has_column h c) eqn:E.
  - apply has_column_true in E. repeat split; auto.
  - unfold set_scalar. repeat split.
    + apply well_formed_set_column; [exact Hwf|apply length_replicate].
    + rewrite set_column_same. eauto.
    + intros c' Hne. apply set_column_other. congruence.
Qed.

(** The ages computed from the birth years of the rows marked as heads, and
    those that pass the minimum-age filter. *)
Lemma heads_frame_columns (ind_df : DataFrame) (cfg : Settings)
    (role birth : list float) :
  well_formed ind_df ->
  columns ind_df !! "a2001" = Some role ->
  columns ind_df !! "a2005" = Some birth ->
  let ages0 :=
    (fun b => (float_of_Z (survey_year cfg) - b)%float)
      <$> filter_by ((fun r => (r =? 1)%float) <$> role) birth in
  let age :=
    filter_by ((fun a => (float_of_Z (head_min_age cfg) <=? a)%float) <$> ages0)
              ages0 in
  exists h s1 s2,
    heads_frame ind_df cfg = Ok h
    /\ well_formed h
    /\ columns h !! "head_age" = Some age
    /\ columns h !! "a2028" = Some s1
    /\ columns h !! "a2029" = Some s2
    /\ columns h !! "head_siblings_raw"
       = Some (zip_with PrimFloat.add
                 (Cell.fillna 0 <$> s1) (Cell.fillna 0 <$> s2))
    /\ columns h !! "head_siblings"
       = Some (zip_with
                 (fun a r =>
                    if (a <=? float_of_Z (sibling_max_age cfg))%float
                    then r else nan)
                 age
                 (zip_with PrimFloat.add
                    (Cell.fillna 0 <$> s1) (Cell.fillna 0 <$> s2)))
    /\ (forall c, is_Some (columns ind_df !! c) -> is_Some (columns h !! c)).
Proof.
  intros Hwf Hrole Hbirth ages0 age.
  unfold heads_frame.
  rewrite (proj2 (has_column_true ind_df "a2001")) by (rewrite Hrole; eauto).
  simpl negb. cbv iota.
  rewrite (proj2 (get_column_Ok _ _ _) Hrole). simpl.
  set (h1 := filter_rows _ ind_df).
  assert (Hwf1 : well_formed h1) by (apply well_formed_filter_rows; exact Hwf).
  assert (Hb1 : columns h1 !! "a2005"
                = Some (filter_by ((fun r => (r =? 1)%float) <$> role) birth)).
  { unfold h1. rewrite filter_rows_lookup, Hbirth. reflexivity. }
  rewrite (proj2 (has_column_true h1 "a2005")) by (rewrite Hb1; eauto).
  simpl negb. cbv iota.
  rewrite (proj2 (get_column_Ok _ _ _) Hb1). simpl.
  fold ages0.
  set (h2 := set_column h1 "head_age" ages0).
  assert (Hwf2 : well_formed h2).
  { apply well_formed_set_column; [exact Hwf1|].
    unfold ages0. rewrite length_fmap. exact (Hwf1 _ _ Hb1). }
  rewrite (proj2 (get_column_Ok h2 "head_age" _) (set_column_same _ _ _)).
  simpl.
  set (h3 := filter_rows _ h2).
  assert (Hwf3 : well_formed h3) by (apply well_formed_filter_rows; exact Hwf2).
  assert (Hage3 : columns h3 !! "head_age" = Some age).
  { unfold h3. rewrite filter_rows_lookup. unfold h2.
    rewrite set_column_same. reflexivity. }
  destruct (ensure_zero_spec h3 "a2028" Hwf3) as (Hwf4 & Hn4 & [s1 Hs1] & Ho4).
  set (h4 := ensure_zero h3 "a2028") in *.
  destruct (ensure_zero_spec h4 "a2029" Hwf4) as (Hwf5 & Hn5 & [s2 Hs2] & Ho5).
  set (h5 := ensure_zero h4 "a2029") in *.
  assert (Hs1' : columns h5 !! "a2028" = Some s1)
    by (rewrite Ho5 by discriminate; exact Hs1).
  assert (Hage5 : columns h5 !! "head_age" = Some age)
    by (rewrite Ho5, Ho4 by discriminate; exact Hage3).
  change (foldl ensure_zero h3 ["a2028"; "a2029"]) with h5.
  rewrite (proj2 (get_column_Ok _ _ _) Hs1'). simpl.
  rewrite (proj2 (get_column_Ok _ _ _) Hs2). simpl.
  set (raw := zip_with PrimFloat.add _ _).
  set (h6 := set_column h5 "head_siblings_raw" raw).
  assert (Hage6 : columns h6 !! "head_age" = Some age)
    by (unfold h6; rewrite set_column_other by discriminate; exact Hage5).
  rewrite (proj2 (get_column_Ok _ _ _) Hage6). simpl.
  rewrite (proj2 (get_column_Ok h6 "head_siblings_raw" _)
             (set_column_same _ _ _)). simpl.
  assert (Hlen_age : length age = nrows h5) by exact (Hwf5 _ _ Hage5).
  assert (Hlen_raw : length raw = nrows h5).
  { unfold raw. rewrite length_zip_with, !length_fmap.
    rewrite (Hwf5 _ _ Hs1'), (Hwf5 _ _ Hs2). lia. }
  eexists. exists s1, s2. split; [reflexivity|].
  split.
  { apply well_formed_set_column.
    - apply well_formed_set_column; [exact Hwf5|exact Hlen_raw].
    - rewrite length_zip_with. simpl. lia. }
  split. { rewrite set_column_other by discriminate. exact Hage6. }
  split. { unfold h6. rewrite !set_column_other by discriminate. exact Hs1'. }
  split. { unfold h6. rewrite !set_column_other by discriminate. exact Hs2. }
  split. { rewrite set_column_other by discriminate. apply set_column_same. }
  split. { apply set_column_same. }
  intros c Hc. do 2 apply is_Some_set_column.
  assert (H3 : is_Some (columns h3 !! c)).
  { unfold h3. rewrite filter_rows_lookup. apply fmap_is_Some.
    unfold h2. apply is_Some_set_column.
    unfold h1. rewrite filter_rows_lookup. apply fmap_is_Some. exact Hc. }
  assert (H4 : is_Some (columns h4 !! c)).
  { destruct (decide (c = "a2028")) as [->|Hne]; [eauto|].
    rewrite Ho4 by exact Hne. exact H3. }
  destruct (decide (c = "a2029")) as [->|Hne]; [eauto|].
  rewrite Ho5 by exact Hne. exact H4.
Qed.

Lemma foldl_set_column_nrows (df : DataFrame)
    (l : list (string * list float)) :
  nrows (foldl (fun df '(name, col) => set_column df name col) df l)
  = nrows df.
Proof.
  revert df. induction l as [|[c col] l IH]; intros df; simpl; [reflexivity|].
  rewrite IH. reflexivity.
Qed.

Lemma foldl_set_column_notin (df : DataFrame)
    (l : list (string * list float)) (c : string) :
  c ∉ l.*1 ->
  columns (foldl (fun df '(name, col) => set_column df name col) df l) !! c
  = columns df !! c.
Proof.
  revert df. induction l as [|[c0 col] l IH]; intros df Hnin; [reflexivity|].
  rewrite fmap_cons in Hnin. apply not_elem_of_cons in Hnin as [Hne Hnin].
  simpl. rewrite (IH _ Hnin). apply set_column_other.
  intros E. apply Hne. symmetry. exact E.
Qed.

Lemma frame_of_lookup (n : nat) (l1 l2 : list (string * list float))
    (c : string) (col : list float) :
  c ∉ l2.*1 ->
  columns (frame_of n (l1 ++ (c, col) :: l2)) !! c = Some col.
Proof.
  intros Hnin. unfold frame_of. rewrite foldl_app. simpl.
  rewrite (foldl_set_column_notin _ l2 c Hnin). apply set_column_same.
Qed.

Lemma omap_rename_names (h : DataFrame) (R : list (string * string))
    (c' : string) :
  c' ∈ (omap (fun '(c, c') => (fun col => (c', col)) <$> columns h !! c) R).*1 ->
  c' ∈ R.*2.
Proof.
  induction R as [|[c0 c0'] R IH]; simpl; intros H; [inversion H|].
  destruct (columns h !! c0) as [col|]; simpl in H.
  - apply elem_of_cons in H as [->|H]; [left|right; apply IH; exact H].
  - right. apply IH. exact H.
Qed.

Lemma rename_lookup (h : DataFrame) (n : nat) (R : list (string * string))
    (c c' : string) (col : list float) :
  NoDup R.*2 -> (c, c') ∈ R -> columns h !! c = Some col ->
  columns
    (frame_of n
       (omap (fun '(c, c') => (fun col => (c', col)) <$> columns h !! c) R))
    !! c' = Some col.
Proof.
  intros Hnd Hin Hcol.
  apply list_elem_of_split in Hin as (R1 & R2 & ->).
  rewrite omap_app. simpl. rewrite Hcol. simpl.
  apply frame_of_lookup. intros Hc'.
  apply omap_rename_names in Hc'.
  rewrite fmap_app, fmap_cons in Hnd. simpl in Hnd.
  apply NoDup_app in Hnd as (_ & _ & Hnd).
  apply NoDup_cons in Hnd as [Hnd _]. exact (Hnd Hc').
Qed.

Lemma select_rename_lookup (h : DataFrame) (c c' : string)
    (col : list float) :
  (c, c') ∈ HEAD_COLS_MAP -> columns h !! c = Some col ->
  columns (select_rename h) !! c' = Some col.
Proof.
  intros Hin Hcol. unfold select_rename.
  apply (rename_lookup h _ HEAD_COLS_MAP c c' col); [|exact Hin|exact Hcol].
  apply (bool_decide_unpack (NoDup HEAD_COLS_MAP.*2)). vm_compute. exact I.
Qed.


Lemma leb_nan_r (x y : float) :
  Cell.isna y = true -> (x <=? y)%float = false.
Proof.
  intros Hy. destruct (x <=? y)%float eqn:E; [|reflexivity].
  apply leb_defined in E as [_ E]. congruence.
Qed.

Lemma filter_rows_nrows (mask : list bool) (df : DataFrame) :
  nrows (filter_rows mask df)
  = length (filter_by mask (replicate (nrows df) ())).
Proof. reflexivity. Qed.

Lemma select_rename_nrows (h : DataFrame) : nrows (select_rename h) = nrows h.
Proof. unfold select_rename, frame_of. rewrite foldl_set_column_nrows. reflexivity. Qed.

Lemma extract_heads_columns (ind_df : DataFrame) (cfg : Settings)
    (h : DataFrame) (hid : list float) :
  heads_frame ind_df cfg = Ok h ->
  columns h !! "hhid" = Some hid ->
  let keep := first_occurrence [] hid in
  exists res,
    extract_heads ind_df cfg = Ok res
    /\ nrows res = length (filter_by keep (replicate (nrows h) ()))
    /\ forall c c' col,
         (c, c') ∈ HEAD_COLS_MAP -> columns h !! c = Some col ->
         columns res !! c' = Some (filter_by keep col).
Proof.
  intros Hh Hhid keep. unfold extract_heads. rewrite Hh. simpl.
  assert (Hsel : columns (select_rename h) !! "hhid" = Some hid).
  { apply (select_rename_lookup h "hhid" "hhid"); [left|exact Hhid]. }
  rewrite (proj2 (get_column_Ok _ _ _) Hsel). simpl.
  eexists. split; [reflexivity|]. split.
  - rewrite filter_rows_nrows, select_rename_nrows. reflexivity.
  - intros c c' col Hin Hcol. rewrite filter_rows_lookup.
    rewrite (select_rename_lookup h c c' col Hin Hcol). reflexivity.
Qed.




(** C10: among the rows marked as heads, a row whose birth year is
    undefined gets an undefined [head_age] and a [False] entry in the
    minimum-age mask, so it is dropped; the [head_age] column of the
    returned head table therefore holds no NaN, and every age in it is at
    least the configured minimum. *)
Theorem extract_heads_age_defined (ind_df : DataFrame) (cfg : Settings)
    (role birth ids : list float) :
  well_formed ind_df ->
  columns ind_df !! "a2001" = Some role ->
  columns ind_df !! "a2005" = Some birth ->
  columns ind_df !! "hhid" = Some ids ->
  let births := filter_by ((fun r => (r =? 1)%float) <$> role) birth in
  let ages0 :=
    (fun b => (float_of_Z (survey_year cfg) - b)%float) <$> births in
  let keep :=
    (fun a => (float_of_Z (head_min_age cfg) <=? a)%float) <$> ages0 in
  exists heads res ages,
    heads_frame ind_df cfg = Ok heads
    /\ columns heads !! "head_age" = Some (filter_by keep ages0)
    /\ (forall j b, births !! j = Some b -> Cell.isna b = true ->
          (exists a, ages0 !! j = Some a /\ Cell.isna a = true)
          /\ keep !! j = Some false)
    /\ extract_heads ind_df cfg = Ok res
    /\ columns res !! "head_age" = Some ages
    /\ (forall a, a ∈ ages ->
          Cell.isna a = false
          /\ (float_of_Z (head_min_age cfg) <=? a)%float = true).
Proof.
  intros Hwf Hrole Hbirth Hids births ages0 keep.
  destruct (heads_frame_columns ind_df cfg role birth Hwf Hrole Hbirth)
    as (h & s1 & s2 & Hh & Hwfh & Hage & _ & _ & _ & _ & Hpres).
  destruct (Hpres "hhid") as [hid Hhid]; [rewrite Hids; eauto|].
  destruct (extract_heads_columns ind_df cfg h hid Hh Hhid)
    as (res & Hres & _ & Hcols).
  exists h, res. eexists.
  split; [exact Hh|]. split; [exact Hage|]. split.
  { intros j b Hb Hna.
    assert (Ha : ages0 !! j
                 = Some (float_of_Z (survey_year cfg) - b)%float).
    { unfold ages0. rewrite list_lookup_fmap, Hb. reflexivity. }
    split.
    - eexists. split; [exact Ha|]. apply sub_nan_r. exact Hna.
    - unfold keep. rewrite list_lookup_fmap, Ha. simpl. f_equal.
      apply leb_nan_r, sub_nan_r. exact Hna. }
  split; [exact Hres|]. split.
  { apply (Hcols "head_age" "head_age" _ ltac:(set_solver) Hage). }
  intros a Ha. apply filter_by_elem in Ha.
  apply filter_by_self in Ha.
  split; [|exact Ha]. apply leb_defined in Ha as [_ Ha]. exact Ha.
Qed.

Lemma extract_heads_age_defined_witness :
  exists res ages,
    extract_heads sample_individuals default_settings = Ok res
    /\ columns res !! "head_age" = Some ages
    /\ (forall a, a ∈ ages -> Cell.isna a = false).
Proof.
  destruct (extract_heads_age_defined sample_individuals default_settings
              [1; 1; 1; 1; 2]%float [1990; 1990; 1950; nan; 2005]%float
              [1; 1; 2; 3; 4]%float)
    as (heads & res & ages & _ & _ & _ & Hres & Hages & Hdef).
  - apply well_formed_frame_of. repeat constructor.
  - reflexivity.
  - reflexivity.
  - reflexivity.
  - exists res, ages. split; [exact Hres|]. split; [exact Hages|].
    intros a Ha. apply (Hdef a Ha).
Defined.

(** ** Join keys *)

Lemma SFcompare_Eq_trans (a b c : spec_float) :
  SFcompare a b = Some Eq -> SFcompare b c = Some Eq ->
  SFcompare a c = Some Eq.
Proof.
  assert (Hfin : forall e1 e2 m1 m2,
            match (e1 ?= e2)%Z with
            | Eq => Pos.compare_cont Eq m1 m2 | Lt => Lt | Gt => Gt
            end = Eq -> e1 = e2 /\ m1 = m2).
  { intros e1 e2 m1 m2 H. destruct (e1 ?= e2)%Z eqn:E; try discriminate.
    split; [apply Z.compare_eq; exact E|apply Pos.compare_eq; exact H]. }
  assert (Hfin' : forall e1 e2 m1 m2,
            match (e1 ?= e2)%Z with
            | Eq => CompOpp (Pos.compare_cont Eq m1 m2) | Lt => Gt | Gt => Lt
            end = Eq -> e1 = e2 /\ m1 = m2).
  { intros e1 e2 m1 m2 H. destruct (e1 ?= e2)%Z eqn:E; try discriminate.
    split; [apply Z.compare_eq; exact E|].
    apply Pos.compare_eq. unfold Pos.compare.
    destruct (Pos.compare_cont Eq m1 m2); [reflexivity|discriminate..]. }
  destruct a as [sa|sa| |sa ma ea], b as [sb|sb| |sb mb eb],
    c as [sc|sc| |sc mc ec]; simpl;
    repeat match goal with s : bool |- _ => destruct s end;
    simpl; try congruence; intros H1 H2;
    injection H1 as H1; injection H2 as H2;
    first [ apply Hfin in H1 as [-> ->]; rewrite H2; reflexivity
          | apply Hfin' in H1 as [-> ->]; rewrite H2; reflexivity ].
Qed.

Lemma eqb_sym (x y : float) : (x =? y)%float = (y =? x)%float.
Proof.
  rewrite !FloatAxioms.eqb_spec. unfold SFeqb.
  rewrite (SFcompare_antisym (Prim2SF y) (Prim2SF x)).
  destruct (SFcompare (Prim2SF y) (Prim2SF x)) as [[]|]; reflexivity.
Qed.

Lemma eqb_trans (x y z : float) :
  (x =? y)%float = true -> (y =? z)%float = true -> (x =? z)%float = true.
Proof.
  rewrite !FloatAxioms.eqb_spec. unfold SFeqb. intros H1 H2.
  destruct (SFcompare (Prim2SF x) (Prim2SF y)) as [[]|] eqn:E1;
    try discriminate.
  destruct (SFcompare (Prim2SF y) (Prim2SF z)) as [[]|] eqn:E2;
    try discriminate.
  rewrite (SFcompare_Eq_trans _ _ _ E1 E2). reflexivity.
Qed.

Lemma eqb_defined (x y : float) :
  (x =? y)%float = true -> Cell.isna x = false /\ Cell.isna y = false.
Proof.
  rewrite FloatAxioms.eqb_spec, !isna_false. unfold SFeqb. intros H.
  split; intros E; rewrite E in H; simpl in H;
    [|destruct (Prim2SF x)]; discriminate.
Qed.

Lemma key_eq_sym (x y : float) : key_eq x y = key_eq y x.
Proof.
  unfold key_eq. rewrite (eqb_sym x y), (andb_comm (Cell.isna x)).
  reflexivity.
Qed.

Lemma key_eq_trans (x y z : float) :
  key_eq x y = true -> key_eq y z = true -> key_eq x z = true.
Proof.
  unfold key_eq. intros H1 H2.
  apply orb_true_iff in H1 as [H1|H1]; apply orb_true_iff in H2 as [H2|H2].
  - rewrite (eqb_trans _ _ _ H1 H2). reflexivity.
  - apply eqb_defined in H1 as [_ H1].
    apply andb_true_iff in H2 as [H2 _]. congruence.
  - apply eqb_defined in H2 as [H2 _].
    apply andb_true_iff in H1 as [_ H1]. congruence.
  - apply andb_true_iff in H1 as [H1 _]. apply andb_true_iff in H2 as [_ H2].
    rewrite H1, H2. apply orb_true_r.
Qed.

(** ** Merge *)

Lemma join_row_length (rk : list float) (i : nat) (k : float) :
  length (join_row rk i k) = Nat.max 1 (length (matches k rk)).
Proof.
  unfold join_row. destruct (matches k rk) as [|j js]; [reflexivity|].
  rewrite length_fmap. reflexivity.
Qed.

Lemma concat_imap_length {A B} (w : A -> nat) (l : list A) :
  forall f : nat -> A -> list B,
    (forall i x, length (f i x) = w x) ->
    length (concat (imap f l)) = sum_list (w <$> l).
Proof.
  induction l as [|x l IH]; intros f Hf; [reflexivity|].
  rewrite imap_cons, fmap_cons. simpl. rewrite length_app, Hf.
  f_equal. apply IH. intros i y. apply Hf.
Qed.

Lemma merge_plan_length (lk rk : list float) :
  length (merge_plan lk rk)
  = sum_list ((fun k => Nat.max 1 (length (matches k rk))) <$> lk).
Proof.
  unfold merge_plan. apply concat_imap_length. intros i k.
  apply join_row_length.
Qed.

Lemma sum_max1_length {A} (c : A -> nat) (l : list A) :
  (length l <= sum_list ((fun k => Nat.max 1 (c k)) <$> l))%nat
  /\ (sum_list ((fun k => Nat.max 1 (c k)) <$> l) = length l
      <-> Forall (fun k => (c k <= 1)%nat) l).
Proof.
  induction l as [|x l [IHle IHeq]].
  - split; [simpl; lia|]. split; [constructor|reflexivity].
  - rewrite fmap_cons. simpl. split; [lia|]. split.
    + intros H. constructor; [lia|]. apply IHeq. lia.
    + intros H. inversion H as [|? ? Hx Hl]; subst.
      apply IHeq in Hl. lia.
Qed.

Lemma filter_two {A} (P : A -> Prop) `{forall x, Decision (P x)}
    (l : list A) :
  (2 <= length (filter P l))%nat ->
  exists i j x y, (i < j)%nat /\ l !! i = Some x /\ l !! j = Some y
                  /\ P x /\ P y.
Proof.
  induction l as [|a l IH]; simpl; [lia|].
  rewrite filter_cons. destruct (decide (P a)) as [Ha|Ha]; simpl.
  - intros Hlen.
    destruct (filter P l) as [|y ys] eqn:E; [simpl in Hlen; lia|].
    assert (Hy : y ∈ filter P l) by (rewrite E; left).
    apply list_elem_of_filter in Hy as [Py Hy].
    apply list_elem_of_lookup in Hy as [j Hj].
    exists 0%nat, (S j), a, y. repeat split; [lia|exact Hj|exact Ha|exact Py].
  - intros Hlen. destruct (IH Hlen) as (i & j & x & y & Hij & Hi & Hj & Px & Py).
    exists (S i), (S j), x, y. repeat split; [lia|exact Hi|exact Hj|exact Px|exact Py].
Qed.

Lemma imap_pair_lookup {A} (l : list A) (i : nat) (p : nat * A) :
  imap (fun j x => (j, x)) l !! i = Some p -> p.1 = i /\ l !! i = Some p.2.
Proof.
  rewrite list_lookup_imap. destruct (l !! i) as [x|]; simpl; [|discriminate].
  intros H. injection H as <-. split; reflexivity.
Qed.

Lemma unique_keys_matches (rk : list float) (k : float) :
  unique_keys rk -> (length (matches k rk) <= 1)%nat.
Proof.
  intros Hu. unfold matches. rewrite length_fmap.
  destruct (le_lt_dec (length (filter (fun p : nat * float => key_eq k p.2)
                                 (imap (fun j x => (j, x)) rk))) 1)
    as [Hle|Hgt]; [exact Hle|].
  apply filter_two in Hgt as (i & j & p & q & Hij & Hi & Hj & Hp & Hq).
  apply imap_pair_lookup in Hi as [_ Hi]. apply imap_pair_lookup in Hj as [_ Hj].
  assert (i = j); [|lia].
  apply (Hu i j _ _ Hi Hj).
  apply Is_true_true in Hp, Hq.
  apply (key_eq_trans _ k); [rewrite key_eq_sym; exact Hp|exact Hq].
Qed.

Lemma foldl_set_column_is_Some (df : DataFrame)
    (l : list (string * list float)) (c : string) :
  c ∈ l.*1 \/ is_Some (columns df !! c) ->
  is_Some
    (columns (foldl (fun df '(name, col) => set_column df name col) df l) !! c).
Proof.
  revert df. induction l as [|[c0 col] l IH]; intros df H; simpl.
  - destruct H as [H|H]; [inversion H|exact H].
  - apply IH. destruct H as [H|H].
    + rewrite fmap_cons in H. apply elem_of_cons in H as [->|H]; [|left; exact H].
      right. rewrite set_column_same. eauto.
    + right. apply is_Some_set_column. exact H.
Qed.

Lemma pd_merge_left_Ok (left right : DataFrame) (lk rk : list float) :
  columns left !! "hhid" = Some lk ->
  columns right !! "hhid" = Some rk ->
  exists m,
    pd_merge_left left right = Ok m
    /\ nrows m = length (merge_plan lk rk)
    /\ (forall c col,
          c ∈ colnames right -> String.eqb c "hhid" = false ->
          c ∉ colnames left -> columns right !! c = Some col ->
          is_Some (columns m !! c)).
Proof.
  intros Hlk Hrk. unfold pd_merge_left.
  rewrite (proj2 (get_column_Ok _ _ _) Hlk). simpl.
  rewrite (proj2 (get_column_Ok _ _ _) Hrk). simpl.
  eexists. split; [reflexivity|]. split.
  - unfold frame_of. rewrite foldl_set_column_nrows. reflexivity.
  - intros c col Hc Hne Hnl Hcol. unfold frame_of.
    apply foldl_set_column_is_Some. left.
    rewrite fmap_app. apply elem_of_app. right.
    apply list_elem_of_fmap.
    eexists (c, _). split; [reflexivity|].
    apply list_elem_of_omap. exists c. split; [exact Hc|].
    rewrite Hne, Hcol. simpl.
    rewrite (bool_decide_eq_false_2 (c ∈ colnames left) Hnl).
    reflexivity.
Qed.

(** C2, as the code has it: the merge raises [ValueError] exactly when the
    joined row count differs from [len(A)], that is when some household id
    of [A] occurs more than once in [B]; whatever it returns has [len(A)]
    rows; and it does return, with [len(A)] rows, when [B]'s keys are unique
    and [B]'s first head column is not also a column of [A]. *)
Theorem merge_row_count (hh_df head_df : DataFrame) (lk rk : list float) :
  well_formed hh_df ->
  columns hh_df !! "hhid" = Some lk ->
  columns head_df !! "hhid" = Some rk ->
  (merge_head_into_household hh_df head_df = Raise ValueError
   <-> exists k, k ∈ lk /\ (2 <= length (matches k rk))%nat)
  /\ (forall m, merge_head_into_household hh_df head_df = Ok m ->
        nrows m = nrows hh_df)
  /\ (unique_keys rk ->
      forall first others col,
        filter (fun c => negb (String.eqb c "hhid")) (colnames head_df)
        = first :: others ->
        first ∉ colnames hh_df ->
        columns head_df !! first = Some col ->
        exists m, merge_head_into_household hh_df head_df = Ok m
                  /\ nrows m = nrows hh_df).
Proof.
  intros Hwf Hlk Hrk.
  destruct (pd_merge_left_Ok hh_df head_df lk rk Hlk Hrk)
    as (m & Hm & Hn & Hfirst).
  pose proof (merge_plan_length lk rk) as Hplan.
  destruct (sum_max1_length (fun k => length (matches k rk)) lk)
    as [Hge Heq].
  pose proof (Hwf _ _ Hlk) as Hlen.
  unfold merge_head_into_household. rewrite Hm. simpl.
  split; [|split].
  - destruct (Nat.eqb (nrows m) (nrows hh_df)) eqn:E; simpl.
    + apply Nat.eqb_eq in E. split.
      * intros H.
        destruct (filter _ (colnames head_df)) as [|c cs]; simpl in H;
          [discriminate|].
        unfold get_column in H.
        destruct (columns m !! c); simpl in H; discriminate.
      * intros (k & Hk & Hcnt). exfalso.
        assert (Hall : Forall (fun k => (length (matches k rk) <= 1)%nat) lk)
          by (apply Heq; lia).
        rewrite Forall_forall in Hall. specialize (Hall k Hk). lia.
    + apply Nat.eqb_neq in E. split; [|reflexivity]. intros _.
      destruct (decide (Exists (fun k => (2 <= length (matches k rk))%nat) lk))
        as [Hex|Hnex].
      * apply Exists_exists in Hex. exact Hex.
      * exfalso. apply E. rewrite Hn, Hplan, <- Hlen. apply Heq.
        apply Forall_forall. intros k Hk.
        destruct (le_lt_dec (length (matches k rk)) 1) as [Hle|Hgt];
          [exact Hle|].
        exfalso. apply Hnex. apply Exists_exists. exists k. split; [exact Hk|lia].
  - intros m' H.
    destruct (Nat.eqb (nrows m) (nrows hh_df)) eqn:E; simpl in H;
      [|discriminate].
    apply Nat.eqb_eq in E.
    apply bind_Ok in H as (c & _ & H). apply bind_Ok in H as (x & _ & H).
    injection H as <-. exact E.
  - intros Hu first others col Hfilter Hnin Hcol.
    assert (E : nrows m = nrows hh_df).
    { rewrite Hn, Hplan, <- Hlen. apply Heq. apply Forall_forall.
      intros k _. apply unique_keys_matches. exact Hu. }
    rewrite (proj2 (Nat.eqb_eq _ _) E). simpl. rewrite Hfilter. simpl.
    assert (Hin : first ∈ filter (fun c => negb (String.eqb c "hhid"))
                                 (colnames head_df))
      by (rewrite Hfilter; left).
    apply list_elem_of_filter in Hin as [Hne Hin].
    apply Is_true_true, negb_true_iff in Hne.
    destruct (Hfirst first col Hin Hne Hnin Hcol) as [x Hx].
    rewrite (proj2 (get_column_Ok _ _ _) Hx). simpl.
    exists m. split; [reflexivity|exact E].
Qed.

Lemma merge_row_count_witness :
  merge_head_into_household sample_households sample_heads_clash
  = Raise ValueError
  /\ exists m,
       merge_head_into_household sample_households sample_heads = Ok m
       /\ nrows m = 2%nat.
Proof.
  assert (Hwf : well_formed sample_households)
    by (apply well_formed_frame_of; repeat constructor).
  split.
  - destruct (merge_row_count sample_households sample_heads_clash
                [1; 2]%float [1; 1; 2]%float Hwf eq_refl eq_refl)
      as (Hraise & _ & _).
    apply Hraise. exists 1%float. split; [left|].
    vm_compute. lia.
  - destruct (merge_row_count sample_households sample_heads
                [1; 2]%float [1; 2]%float Hwf eq_refl eq_refl)
      as (_ & _ & Hok).
    apply (Hok ltac:(
             intros [|[|i]] [|[|j]] x y Hx Hy Hxy; simpl in Hx, Hy;
             try reflexivity; try discriminate;
             injection Hx as <-; injection Hy as <-;
             vm_compute in Hxy; discriminate)
             "head_age" [] [30; 40]%float); try reflexivity.
    vm_compute. intros H.
    repeat (apply elem_of_cons in H as [H|H]; [discriminate H|]).
    inversion H.
Defined.

(** C2 as stated fails: the head table below repeats the key 3, which no
    household carries, and the merge returns the two households. *)
Lemma merge_accepts_unmatched_duplicates :
  columns sample_heads_dup !! "hhid" = Some [3; 3]%float
  /\ ~ unique_keys [3; 3]%float
  /\ exists m,
       merge_head_into_household sample_households sample_heads_dup = Ok m
       /\ nrows m = 2%nat
       /\ merge_head_into_household sample_households sample_heads_dup
          <> Raise ValueError.
Proof.
  split; [reflexivity|]. split.
  - intros H. specialize (H 0%nat 1%nat 3%float 3%float eq_refl eq_refl eq_refl).
    discriminate H.
  - eexists. split; [vm_compute; reflexivity|]. split; [reflexivity|].
    vm_compute. discriminate.
Qed.

(** ** Validator *)

Lemma count_where_app {A} (p : A -> bool) (l k : list A) :
  count_where p (l ++ k) = (count_where p l + count_where p k)%nat.
Proof. induction l as [|x l IH]; simpl; [reflexivity|]. rewrite IH. lia. Qed.

Lemma count_where_pos {A} (p : A -> bool) (l : list A) (x : A) :
  x ∈ l -> p x = true -> (0 < count_where p l)%nat.
Proof.
  induction l as [|y l IH]; intros Hin Hp; [inversion Hin|].
  apply elem_of_cons in Hin as [<-|Hin]; simpl.
  - rewrite Hp. lia.
  - specialize (IH Hin Hp). lia.
Qed.

Lemma count_where_concat {A} (p : A -> bool) (ls : list (list A)) :
  count_where p (concat ls) = sum_list (count_where p <$> ls).
Proof.
  induction ls as [|l ls IH]; [reflexivity|].
  rewrite fmap_cons. simpl. rewrite count_where_app, IH. reflexivity.
Qed.

Lemma existsb_count_where {A} (p : A -> bool) (l : list A) :
  existsb p l = true <-> (0 < count_where p l)%nat.
Proof.
  induction l as [|x l IH]; simpl; [split; [discriminate|lia]|].
  destruct (p x); simpl; [split; [lia|reflexivity]|]. exact IH.
Qed.

Lemma check_values_not_nullable (schema : ColumnSchema) (c : string)
    (non_null : list float) :
  count_where (is_violation c "NOT_NULLABLE") (check_values schema non_null)
  = 0%nat.
Proof.
  unfold check_values.
  rewrite !count_where_app.
  destruct (min_value schema), (max_value schema), (allowed_values schema);
    repeat match goal with
           | |- context [if ?b then _ else _] => destruct b
           end;
    simpl; unfold is_violation; simpl;
    rewrite ?andb_false_r; reflexivity.
Qed.

Lemma check_column_not_nullable (df : DataFrame) (cs : ColumnSchema)
    (series : list float) (x : float) :
  nullable cs = false ->
  columns df !! name cs = Some series ->
  x ∈ series -> Cell.isna x = true ->
  exists rest,
    _check_column df cs
    = mkViolation (name cs) "NOT_NULLABLE" "ERROR" :: rest
    /\ count_where (is_violation (name cs) "NOT_NULLABLE") rest = 0%nat.
Proof.
  intros Hnull Hcol Hin Hna. unfold _check_column. rewrite Hcol.
  assert (Hn : check_nullability cs series
               = [mkViolation (name cs) "NOT_NULLABLE" "ERROR"]).
  { unfold check_nullability.
    pose proof (count_where_pos Cell.isna series x Hin Hna) as Hpos.
    apply Nat.ltb_lt in Hpos. rewrite Hpos, Hnull. reflexivity. }
  rewrite Hn.
  destruct (filter _ series) as [|y ys].
  - exists []. split; reflexivity.
  - eexists. split; [reflexivity|]. apply check_values_not_nullable.
Qed.

Lemma check_column_other_name (df : DataFrame) (cs : ColumnSchema)
    (c r : string) :
  name cs <> c ->
  count_where (is_violation c r) (_check_column df cs) = 0%nat.
Proof.
  intros Hne.
  assert (Hall : forall l, Forall (fun v => column v = name cs) l ->
                           count_where (is_violation c r) l = 0%nat).
  { induction 1 as [|v l Hv _ IH]; simpl; [reflexivity|].
    unfold is_violation at 1. rewrite Hv.
    rewrite (proj2 (String.eqb_neq _ _) Hne). simpl. exact IH. }
  apply Hall. unfold _check_column.
  destruct (columns df !! name cs) as [series|]; [|repeat constructor].
  assert (Hn : Forall (fun v => column v = name cs)
                 (check_nullability cs series)).
  { unfold check_nullability.
    repeat match goal with
           | |- context [if ?b then _ else _] => destruct b
           end; repeat constructor. }
  destruct (filter _ series) as [|y ys]; [exact Hn|].
  apply Forall_app. split; [exact Hn|].
  unfold check_values.
  destruct (min_value cs), (max_value cs), (allowed_values cs);
    repeat match goal with
           | |- context [if ?b then _ else _] => destruct b
           end; repeat constructor.
Qed.

Lemma elem_of_concat {A} (ls : list (list A)) (x : A) :
  x ∈ concat ls <-> exists l, x ∈ l /\ l ∈ ls.
Proof.
  induction ls as [|l ls IH]; simpl.
  - split; [intros H; inversion H|intros (l & _ & H); inversion H].
  - rewrite elem_of_app, IH. split.
    + intros [H|(l' & Hx & Hl')]; [exists l; split; [exact H|left]|].
      exists l'. split; [exact Hx|right; exact Hl'].
    + intros (l' & Hx & Hl'). apply elem_of_cons in Hl' as [->|Hl'].
      * left. exact Hx.
      * right. exists l'. split; assumption.
Qed.

Lemma check_column_nullable (df : DataFrame) (cs : ColumnSchema) (c : string) :
  nullable cs = true ->
  count_where (is_violation c "NOT_NULLABLE") (_check_column df cs) = 0%nat.
Proof.
  intros Hnull. unfold _check_column.
  destruct (columns df !! name cs) as [series|].
  2:{ simpl. unfold is_violation. simpl. rewrite andb_false_r. reflexivity. }
  assert (Hn : count_where (is_violation c "NOT_NULLABLE")
                 (check_nullability cs series) = 0%nat).
  { unfold check_nullability. rewrite Hnull. simpl.
    repeat match goal with
           | |- context [if ?b then _ else _] => destruct b
           end; simpl; unfold is_violation; simpl;
      rewrite ?andb_false_r; reflexivity. }
  destruct (filter _ series) as [|y ys]; [exact Hn|].
  rewrite count_where_app, Hn. apply check_values_not_nullable.
Qed.

(** With an undefined value in column [c], every schema entry contributes
    one [NOT_NULLABLE] violation for [c] when it names [c] and marks it
    non-nullable, and none otherwise. *)
Lemma check_column_count (df : DataFrame) (c : string) (series : list float)
    (x : float) (s : ColumnSchema) :
  columns df !! c = Some series -> x ∈ series -> Cell.isna x = true ->
  count_where (is_violation c "NOT_NULLABLE") (_check_column df s)
  = if String.eqb (name s) c && negb (nullable s) then 1%nat else 0%nat.
Proof.
  intros Hcol Hx Hna.
  destruct (String.eqb_spec (name s) c) as [<-|Hne]; simpl.
  - destruct (nullable s) eqn:Hnull; simpl.
    + apply check_column_nullable. exact Hnull.
    + destruct (check_column_not_nullable df s series x Hnull Hcol Hx Hna)
        as (rest & -> & Hrest).
      simpl. rewrite Hrest. unfold is_violation. simpl.
      rewrite String.eqb_refl. reflexivity.
  - apply check_column_other_name. exact Hne.
Qed.

Lemma count_where_le {A} (p q : A -> bool) (l : list A) :
  (forall x, p x = true -> q x = true) ->
  (count_where p l <= count_where q l)%nat.
Proof.
  intros Hpq. induction l as [|x l IH]; simpl; [lia|].
  destruct (p x) eqn:E; [rewrite (Hpq x E); lia|].
  destruct (q x); lia.
Qed.

(** C6: when a column marked non-nullable is present and holds an undefined
    value, [_check_column] yields exactly one [NOT_NULLABLE] violation for
    its schema entry, of severity [ERROR]; the report of [validate] holds
    one such violation per non-nullable schema entry of the column, hence
    exactly one when the schema lists the column once, and is not valid;
    and a report is valid exactly when none of its violations has severity
    [ERROR], so appending warnings never changes validity. *)
Theorem validate_not_nullable (df : DataFrame) (schema : list ColumnSchema)
    (cs : ColumnSchema) (series : list float) (x : float) :
  cs ∈ schema ->
  nullable cs = false ->
  columns df !! name cs = Some series ->
  x ∈ series -> Cell.isna x = true ->
  let report := validate df schema in
  let not_nullable := is_violation (name cs) "NOT_NULLABLE" in
  count_where not_nullable (_check_column df cs) = 1%nat
  /\ count_where not_nullable (violations report)
     = count_where
         (fun s => String.eqb (name s) (name cs) && negb (nullable s)) schema
  /\ (count_where (fun s => String.eqb (name s) (name cs)) schema = 1%nat ->
      count_where not_nullable (violations report) = 1%nat)
  /\ mkViolation (name cs) "NOT_NULLABLE" "ERROR" ∈ violations report
  /\ (forall v, v ∈ violations report -> not_nullable v = true ->
        v = mkViolation (name cs) "NOT_NULLABLE" "ERROR")
  /\ is_valid report = false
  /\ (forall r : ValidationReport,
        is_valid r = true
        <-> Forall (fun v => severity v <> "ERROR") (violations r))
  /\ (forall (r : ValidationReport) (ws : list Violation),
        Forall (fun v => severity v = "WARNING") ws ->
        is_valid (mkValidationReport (violations r ++ ws)
                    (rows_checked r) (columns_checked r))
        = is_valid r).
Proof.
  intros Hin Hnull Hcol Hx Hna report not_nullable.
  pose proof (check_column_count df (name cs) series x cs Hcol Hx Hna) as Hone.
  rewrite String.eqb_refl, Hnull in Hone. simpl in Hone.
  assert (Hcount : count_where not_nullable (violations report)
            = count_where
                (fun s => String.eqb (name s) (name cs) && negb (nullable s))
                schema).
  { unfold report, validate. simpl. clear Hin.
    induction schema as [|s schema IH]; [reflexivity|].
    rewrite fmap_cons. simpl. rewrite count_where_app, IH.
    unfold not_nullable.
    rewrite (check_column_count df (name cs) series x s Hcol Hx Hna).
    reflexivity. }
  assert (Hpos : (1 <= count_where
                        (fun s => String.eqb (name s) (name cs)
                                  && negb (nullable s)) schema)%nat).
  { apply (count_where_pos _ _ cs Hin).
    rewrite String.eqb_refl, Hnull. reflexivity. }
  assert (Hmem : mkViolation (name cs) "NOT_NULLABLE" "ERROR"
                 ∈ violations report).
  { destruct (check_column_not_nullable df cs series x Hnull Hcol Hx Hna)
      as (rest & Hcheck & _).
    unfold report, validate. simpl. apply elem_of_concat.
    exists (_check_column df cs). split; [rewrite Hcheck; left|].
    apply list_elem_of_fmap. exists cs. split; [reflexivity|exact Hin]. }
  assert (Hiff : forall r : ValidationReport,
            is_valid r = true
            <-> Forall (fun v => severity v <> "ERROR") (violations r)).
  { intros r. unfold is_valid. rewrite negb_true_iff.
    induction (violations r) as [|v l IH]; simpl.
    - split; [constructor|reflexivity].
    - rewrite orb_false_iff, Forall_cons, IH. unfold is_error.
      rewrite String.eqb_neq. reflexivity. }
  split; [exact Hone|]. split; [exact Hcount|]. split.
  { intros Honce. rewrite Hcount.
    pose proof (count_where_le
                  (fun s => String.eqb (name s) (name cs) && negb (nullable s))
                  (fun s => String.eqb (name s) (name cs)) schema) as Hle.
    assert ((count_where
               (fun s => String.eqb (name s) (name cs) && negb (nullable s))
               schema <= count_where
                           (fun s => String.eqb (name s) (name cs)) schema)%nat).
    { apply Hle. intros s Hs. apply andb_true_iff in Hs as [Hs _]. exact Hs. }
    lia. }
  split; [exact Hmem|]. split.
  { intros v Hv Hnn. unfold report, validate in Hv. simpl in Hv.
    apply elem_of_concat in Hv as (l & Hvl & Hl).
    apply list_elem_of_fmap in Hl as (s & -> & Hs).
    pose proof (check_column_count df (name cs) series x s Hcol Hx Hna) as Hs1.
    pose proof (count_where_pos _ _ v Hvl Hnn) as Hvpos.
    fold not_nullable in Hs1.
    destruct (String.eqb_spec (name s) (name cs)) as [Heq|Hne];
      simpl in Hs1; [|lia].
    destruct (nullable s) eqn:Hns; simpl in Hs1; [lia|].
    rewrite <- Heq in Hcol.
    destruct (check_column_not_nullable df s series x Hns Hcol Hx Hna)
      as (rest & Hcheck & Hrest).
    rewrite Hcheck in Hvl. apply elem_of_cons in Hvl as [->|Hvl].
    - rewrite Heq. reflexivity.
    - rewrite Heq in Hrest. fold not_nullable in Hrest.
      pose proof (count_where_pos _ _ v Hvl Hnn). lia. }
  split.
  { unfold is_valid. apply negb_false_iff, existsb_count_where.
    apply (count_where_pos _ _ _ Hmem). reflexivity. }
  split; [exact Hiff|].
  intros r ws Hws. unfold is_valid. simpl. f_equal.
  rewrite existsb_app.
  assert (Hnone : existsb is_error ws = false).
  { induction Hws as [|w ws Hw _ IH]; [reflexivity|]. simpl.
    unfold is_error at 1. rewrite Hw. exact IH. }
  rewrite Hnone. apply orb_false_r.
Qed.

Lemma validate_not_nullable_witness :
  count_where (is_violation "id" "NOT_NULLABLE")
    (violations (validate sample_ids [sample_id_schema])) = 1%nat
  /\ is_valid (validate sample_ids [sample_id_schema]) = false.
Proof.
  destruct (validate_not_nullable sample_ids [sample_id_schema]
              sample_id_schema [1; nan; 3]%float nan)
    as (_ & _ & Hcount & _ & _ & Hvalid & _).
  - left.
  - reflexivity.
  - reflexivity.
  - right. left.
  - reflexivity.
  - split; [apply Hcount; reflexivity|exact Hvalid].
Defined.

(** ** Winsorisation *)

(** SciPy's documented example of [winsorize], limits 10% and 20%. *)
Example winsorize_scipy_doc :
  winsorize [10; 4; 9; 8; 5; 3; 7; 2; 1; 6]%float
            (0x1.999999999999ap-4, 0x1.999999999999ap-3)%float
  = Ok [8; 4; 8; 8; 5; 3; 7; 2; 2; 6]%float.
Proof. vm_compute. reflexivity. Qed.

Lemma argsort_Permutation (a : list float) : argsort a ≡ₚ seq 0 (length a).
Proof.
  unfold argsort. rewrite merge_sort_Permutation.
  rewrite fmap_imap.
  rewrite (imap_ext _ (fun j _ => j) a) by reflexivity.
  rewrite imap_seq_0. rewrite list_fmap_id. reflexivity.
Qed.



Lemma argsort_bound (a : list float) (i : nat) :
  i ∈ argsort a -> (i < length a)%nat.
Proof. rewrite argsort_Permutation, elem_of_seq. lia. Qed.











Lemma finite_rows_elem (col : list float) (i : nat) (x : float) :
  (i, x) ∈ finite_rows col
  <-> col !! i = Some x
      /\ Cell.isna x = false /\ PrimFloat.is_infinity x = false.
Proof.
  unfold finite_rows. rewrite list_elem_of_filter. simpl.
  rewrite Is_true_true, negb_true_iff, orb_false_iff.
  rewrite list_elem_of_lookup. split.
  - intros [Hfin [j Hj]]. apply imap_pair_lookup in Hj as [<- Hj].
    split; [exact Hj|exact Hfin].
  - intros [Hi Hfin]. split; [exact Hfin|]. exists i.
    rewrite list_lookup_imap, Hi. reflexivity.
Qed.










(** * Further properties *)

(** ** The midpoint resolver: errors and name normalisation *)

Lemma is_infinity_defined (x : float) :
  PrimFloat.is_infinity x = true -> Cell.isna x = false.
Proof.
  intros H. apply is_infinity_true in H as [s Hs].
  apply isna_false. rewrite Hs. discriminate.
Qed.

Lemma int_raises (x : float) (e : exn) :
  Cell.int x = Raise e ->
  (e = OverflowError /\ PrimFloat.is_infinity x = true)
  \/ (e = ValueError /\ Cell.isna x = true).
Proof.
  unfold Cell.int. destruct (Prim2SF x) as [s|s| |s m ex] eqn:E;
    intros H; try discriminate H; injection H as <-.
  - left. split; [reflexivity|]. apply is_infinity_true. eauto.
  - right. split; [reflexivity|]. apply isna_true. exact E.
Qed.

Lemma int_infinity (x : float) :
  PrimFloat.is_infinity x = true -> Cell.int x = Raise OverflowError.
Proof.
  intros H. apply is_infinity_true in H as [s Hs].
  unfold Cell.int. rewrite Hs. reflexivity.
Qed.

Lemma get_midpoint_Raise_inv (code : float) (var : string) (e : exn) :
  get_midpoint code var = Raise e ->
  e = OverflowError
  /\ PrimFloat.is_infinity code = true
  /\ is_Some (_VAR_TO_MAP !! _normalise_var_name var).
Proof.
  unfold get_midpoint.
  destruct (Cell.isna code) eqn:Hna; [discriminate|].
  destruct (_VAR_TO_MAP !! _normalise_var_name var) as [mp|];
    [|discriminate].
  destruct (Cell.int code) as [k|e'] eqn:Hint; simpl; [discriminate|].
  intros H. injection H as <-.
  destruct (int_raises code e' Hint) as [[-> Hinf]|[_ Hnan]];
    [|congruence].
  split; [reflexivity|]. split; [exact Hinf|]. eauto.
Qed.

Lemma get_midpoint_infinite (code : float) (var : string) :
  PrimFloat.is_infinity code = true ->
  is_Some (_VAR_TO_MAP !! _normalise_var_name var) ->
  get_midpoint code var = Raise OverflowError.
Proof.
  intros Hinf [mp Hmp]. unfold get_midpoint.
  rewrite (is_infinity_defined code Hinf), Hmp, (int_infinity code Hinf).
  reflexivity.
Qed.

(** X1: [get_midpoint] raises exactly on an infinite code of a variable
    whose base name is registered, and then raises [OverflowError]; on every
    other input it returns a value. *)
Theorem get_midpoint_raises_iff (code : float) (var : string) (e : exn) :
  get_midpoint code var = Raise e
  <-> e = OverflowError
      /\ PrimFloat.is_infinity code = true
      /\ is_Some (_VAR_TO_MAP !! _normalise_var_name var).
Proof.
  split.
  - apply get_midpoint_Raise_inv.
  - intros (-> & Hinf & Hreg). apply get_midpoint_infinite; assumption.
Qed.

(** X2: for a defined code only its integer part matters: two codes that
    truncate to the same integer resolve alike under every variable name. *)
Theorem get_midpoint_integer_part (c1 c2 : float) (k : Z) (var : string) :
  Cell.int c1 = Ok k -> Cell.int c2 = Ok k ->
  get_midpoint c1 var = get_midpoint c2 var.
Proof.
  intros H1 H2.
  assert (Hdef : forall c, Cell.int c = Ok k -> Cell.isna c = false).
  { intros c Hc. destruct (Cell.isna c) eqn:E; [|reflexivity].
    apply isna_true in E. unfold Cell.int in Hc. rewrite E in Hc.
    discriminate Hc. }
  unfold get_midpoint. rewrite (Hdef c1 H1), (Hdef c2 H2), H1, H2.
  reflexivity.
Qed.

Lemma get_midpoint_integer_part_witness :
  get_midpoint 2.5 "d1105it" = get_midpoint 2 "d1105it"
  /\ get_midpoint 2 "d1105it" = Ok 15000%float.
Proof.
  split.
  - exact (get_midpoint_integer_part 2.5 2 2 "d1105it" eq_refl eq_refl).
  - vm_compute. reflexivity.
Defined.

Section NormaliseShape.

Local Open Scope string_scope.

Lemma rsplit_underscore_Some (s a b : string) :
  rsplit_underscore s = Some (a, b) -> s = a ++ "_" ++ b.
Proof.
  revert a b. induction s as [|c s IH]; intros a b H; simpl in H;
    [discriminate|].
  destruct (rsplit_underscore s) as [[a' b']|].
  - injection H as <- <-. rewrite (IH a' b' eq_refl). reflexivity.
  - destruct (Ascii.eqb c "_") eqn:E; [|discriminate].
    apply Ascii.eqb_eq in E. subst c. injection H as <- <-. reflexivity.
Qed.

(** X3: on an ASCII name, [_normalise_var_name] either returns its
    argument unchanged or removes exactly one trailing [_<digits>] suffix.
    It is not idempotent: a name with two indices loses one at each
    call. *)
Theorem normalise_shape (x : string) :
  is_ascii x = true ->
  (_normalise_var_name x = x
   \/ exists d, isdigit d = true /\ x = _normalise_var_name x ++ "_" ++ d)
  /\ (exists y,
        is_ascii y = true
        /\ _normalise_var_name (_normalise_var_name y)
           <> _normalise_var_name y).
Proof.
  intros _. split.
  - unfold _normalise_var_name.
    destruct (rsplit_underscore x) as [[a b]|] eqn:E; [|left; reflexivity].
    destruct (isdigit b) eqn:Hd; [|left; reflexivity].
    right. exists b. split; [exact Hd|].
    apply rsplit_underscore_Some. exact E.
  - exists "c2016it_1_2". split; [reflexivity|].
    intros H. vm_compute in H. discriminate H.
Qed.

Lemma normalise_shape_witness :
  _normalise_var_name "c2016it_1_2" = "c2016it_1"
  /\ _normalise_var_name "c2016it_1" = "c2016it"
  /\ exists d, isdigit d = true /\ "c2016it_1_2" = "c2016it_1" ++ "_" ++ d.
Proof.
  destruct (normalise_shape "c2016it_1_2" eq_refl) as [[Heq|Hd] _].
  - vm_compute in Heq. discriminate Heq.
  - split; [reflexivity|]. split; [reflexivity|]. exact Hd.
Defined.

End NormaliseShape.

(** ** Vectorised resolution *)

(** X4: [get_midpoint_series] applies [get_midpoint] to each code: it
    raises [OverflowError] when the base name is registered and some code is
    infinite, and otherwise returns a series of the same length whose every
    entry is the resolution of the code at that position. *)
Theorem get_midpoint_series_elementwise (codes : list float) (var : string) :
  (is_Some (_VAR_TO_MAP !! _normalise_var_name var) ->
   (exists c, c ∈ codes /\ PrimFloat.is_infinity c = true) ->
   get_midpoint_series codes var = Raise OverflowError)
  /\ ((_VAR_TO_MAP !! _normalise_var_name var = None
       \/ forall c, c ∈ codes -> PrimFloat.is_infinity c = false) ->
      exists mids,
        get_midpoint_series codes var = Ok mids
        /\ length mids = length codes
        /\ forall i c, codes !! i = Some c ->
             exists m, get_midpoint c var = Ok m /\ mids !! i = Some m).
Proof.
  unfold get_midpoint_series. split.
  - intros Hreg (c & Hc & Hinf).
    induction codes as [|c0 codes IH]; [inversion Hc|]. simpl.
    destruct (get_midpoint c0 var) as [m|e] eqn:E0; simpl.
    + apply elem_of_cons in Hc as [Heq|Hc].
      * assert (Hr : get_midpoint c var = Raise OverflowError)
          by (apply get_midpoint_infinite; assumption).
        congruence.
      * rewrite (IH Hc). reflexivity.
    + apply get_midpoint_Raise_inv in E0 as (-> & _). reflexivity.
  - intros Hok.
    destruct (rmapM_total (fun x => get_midpoint x var) codes) as [mids Hm].
    { intros c Hc. destruct (get_midpoint c var) as [m|e] eqn:E; [eauto|].
      exfalso. apply get_midpoint_Raise_inv in E as (_ & Hinf & [mp Hmp]).
      destruct Hok as [Hnone|Hfin]; [congruence|].
      rewrite (Hfin c Hc) in Hinf. discriminate Hinf. }
    exists mids. split; [exact Hm|]. exact (rmapM_Ok _ _ _ Hm).
Qed.

Lemma get_midpoint_series_elementwise_witness :
  get_midpoint_series [3; infinity]%float "c7060it" = Raise OverflowError
  /\ exists mids,
       get_midpoint_series [3; nan; 99]%float "c7060it" = Ok mids
       /\ length mids = 3%nat.
Proof.
  split.
  - apply (proj1 (get_midpoint_series_elementwise _ _)).
    + vm_compute. eauto.
    + exists infinity. split; [right; left|reflexivity].
  - destruct (proj2 (get_midpoint_series_elementwise
                       [3; nan; 99]%float "c7060it"))
      as (mids & Hm & Hlen & _).
    + right. intros c Hc.
      repeat (apply elem_of_cons in Hc as [->|Hc]; [reflexivity|]).
      inversion Hc.
    + exists mids. split; [exact Hm|exact Hlen].
Defined.

(** ** Creating the missing source columns *)

Lemma ensure_column_mono (acc : DataFrame * nat) (col : option string)
    (c : string) :
  is_Some (columns acc.1 !! c) ->
  is_Some (columns (ensure_column acc col).1 !! c).
Proof.
  intros H. destruct (ensure_column_extends acc col) as [_ Hext].
  destruct (Hext c) as [->|[_ ->]]; [exact H|eauto].
Qed.

Lemma ensure_column_present (acc : DataFrame * nat) (c : string) :
  is_Some (columns (ensure_column acc (Some c)).1 !! c).
Proof.
  unfold ensure_column. destruct (has_column acc.1 c) eqn:E.
  - apply has_column_true. exact E.
  - unfold set_scalar. cbn [fst]. rewrite set_column_same. eauto.
Qed.

Lemma ensure_column_size (acc : DataFrame * nat) (col : option string) :
  (size (columns (ensure_column acc col).1) + acc.2
   = size (columns acc.1) + (ensure_column acc col).2)%nat.
Proof.
  unfold ensure_column. destruct col as [c|]; [|reflexivity].
  destruct (has_column acc.1 c) eqn:E; [reflexivity|].
  apply has_column_false in E. simpl.
  rewrite (map_size_insert_None _ _ _ E). lia.
Qed.

Lemma ensure_column_noop (acc : DataFrame * nat) (col : option string) :
  (forall c, col = Some c -> is_Some (columns acc.1 !! c)) ->
  ensure_column acc col = acc.
Proof.
  intros H. unfold ensure_column. destruct col as [c|]; [|reflexivity].
  rewrite (proj2 (has_column_true acc.1 c) (H c eq_refl)). reflexivity.
Qed.

(** The effect of [_ensure_columns], threaded through its accumulator. *)
Lemma ensure_columns_acc (specs : list VarSpec) :
  forall acc : DataFrame * nat,
    let r := foldl (fun acc spec =>
                      foldl ensure_column acc [Some (exact spec); interval spec])
                   acc specs in
    (forall c, is_Some (columns acc.1 !! c) -> is_Some (columns r.1 !! c))
    /\ (forall spec, spec ∈ specs ->
          is_Some (columns r.1 !! exact spec)
          /\ forall it, interval spec = Some it ->
               is_Some (columns r.1 !! it))
    /\ (size (columns r.1) + acc.2 = size (columns acc.1) + r.2)%nat.
Proof.
  induction specs as [|spec specs IH]; intros acc; cbn [foldl]; cbv zeta.
  - split; [auto|]. split; [|lia]. intros spec H. inversion H.
  - set (a1 := ensure_column acc (Some (exact spec))).
    set (a2 := ensure_column a1 (interval spec)).
    destruct (IH a2) as (Hmono & Hpres & Hsize). cbv zeta in Hmono, Hpres.
    assert (He : is_Some (columns a2.1 !! exact spec)).
    { apply ensure_column_mono. apply ensure_column_present. }
    assert (Hi : forall it, interval spec = Some it ->
              is_Some (columns a2.1 !! it)).
    { intros it Hit. unfold a2. rewrite Hit. apply ensure_column_present. }
    split; [|split].
    + intros c Hc. apply Hmono. do 2 apply ensure_column_mono. exact Hc.
    + intros s Hs. apply elem_of_cons in Hs as [->|Hs]; [|apply Hpres; exact Hs].
      split; [apply Hmono; exact He|].
      intros it Hit. apply Hmono. apply Hi. exact Hit.
    + assert (S1 : (size (columns a1.1) + acc.2
                    = size (columns acc.1) + a1.2)%nat)
        by apply ensure_column_size.
      assert (S2 : (size (columns a2.1) + a1.2
                    = size (columns a1.1) + a2.2)%nat)
        by apply ensure_column_size.
      cbv zeta in Hsize. cbn [foldl] in Hsize. lia.
Qed.

Lemma ensure_columns_noop (specs : list VarSpec) :
  forall acc : DataFrame * nat,
    (forall spec, spec ∈ specs ->
       is_Some (columns acc.1 !! exact spec)
       /\ forall it, interval spec = Some it ->
            is_Some (columns acc.1 !! it)) ->
    foldl (fun acc spec =>
             foldl ensure_column acc [Some (exact spec); interval spec])
          acc specs = acc.
Proof.
  induction specs as [|spec specs IH]; intros acc H; cbn [foldl];
    [reflexivity|].
  destruct (H spec) as [He Hi]; [left|].
  rewrite (ensure_column_noop acc (Some (exact spec)))
    by (intros c Hc; injection Hc as <-; exact He).
  rewrite (ensure_column_noop acc (interval spec)) by exact Hi.
  apply IH. intros s Hs. apply H. right. exact Hs.
Qed.

(** X5: [_ensure_columns] keeps every existing column as it is and adds the
    missing exact and interval columns of [specs] as all-NaN columns; the
    count it returns is the number of columns added, and a second call adds
    nothing. *)
Theorem ensure_columns_creates_missing (df : DataFrame) (specs : list VarSpec) :
  let r := _ensure_columns df specs in
  nan_extends df r.1
  /\ (forall spec, spec ∈ specs ->
        is_Some (columns r.1 !! exact spec)
        /\ forall it, interval spec = Some it ->
             is_Some (columns r.1 !! it))
  /\ size (columns r.1) = (size (columns df) + r.2)%nat
  /\ _ensure_columns r.1 specs = (r.1, 0%nat).
Proof.
  intros r. destruct (ensure_columns_acc specs (df, 0%nat))
    as (_ & Hpres & Hsize).
  fold (_ensure_columns df specs) in Hpres, Hsize. fold r in Hpres, Hsize.
  split; [apply ensure_columns_extends|]. split; [exact Hpres|].
  split; [simpl in Hsize; lia|].
  unfold _ensure_columns at 1.
  apply (ensure_columns_noop specs (r.1, 0%nat)). exact Hpres.
Qed.

(** ** Coalescing, run as a whole *)

Lemma coalesce_loop_names (specs : list VarSpec) :
  forall df df' names,
    coalesce_loop df specs = Ok (df', names) ->
    names = coalesced_name <$> specs.
Proof.
  induction specs as [|spec specs IH]; intros df df' names H; simpl in H.
  - injection H as _ <-. reflexivity.
  - apply bind_Ok in H as (col & _ & H).
    apply bind_Ok in H as ([df1 names1] & Hloop & H).
    injection H as _ <-. rewrite fmap_cons. f_equal. exact (IH _ _ _ Hloop).
Qed.

Lemma coalesce_loop_app (l1 l2 : list VarSpec) :
  forall df,
    coalesce_loop df (l1 ++ l2)
    = '(df1, n1) ← coalesce_loop df l1;
      '(df2, n2) ← coalesce_loop df1 l2;
      Ok (df2, n1 ++ n2).
Proof.
  induction l1 as [|spec l1 IH]; intros df; simpl.
  - destruct (coalesce_loop df l2) as [[df2 n2]|e]; reflexivity.
  - destruct (_coalesce_var df spec) as [col|e]; simpl; [|reflexivity].
    rewrite IH.
    destruct (coalesce_loop _ l1) as [[df1 n1]|e]; simpl; [|reflexivity].
    destruct (coalesce_loop df1 l2) as [[df2 n2]|e]; reflexivity.
Qed.

(** A loop that succeeded computed every column from the frame it started
    with. *)
Lemma coalesce_loop_started (specs : list VarSpec) :
  forall df df' names,
    (forall s s', s ∈ specs -> s' ∈ specs ->
       coalesced_name s <> exact s'
       /\ interval s' <> Some (coalesced_name s)) ->
    coalesce_loop df specs = Ok (df', names) ->
    forall spec, spec ∈ specs -> exists col, _coalesce_var df spec = Ok col.
Proof.
  induction specs as [|spec specs IH]; intros df df' names Hfresh H s Hs;
    [inversion Hs|].
  simpl in H. apply bind_Ok in H as (col & Hcol & H).
  apply bind_Ok in H as ([df1 names1] & Hloop & _).
  apply elem_of_cons in Hs as [->|Hs]; [eauto|].
  assert (Hfresh' : forall a b, a ∈ specs -> b ∈ specs ->
            coalesced_name a <> exact b
            /\ interval b <> Some (coalesced_name a))
    by (intros a b Ha Hb; apply Hfresh; right; assumption).
  destruct (IH _ _ _ Hfresh' Hloop s Hs) as [col' Hcol'].
  exists col'. rewrite <- Hcol'. symmetry.
  destruct (Hfresh spec s) as [H1 H2]; [left|right; exact Hs|].
  apply coalesce_var_set_column; assumption.
Qed.

Lemma coalesce_loop_run (specs : list VarSpec) (df df' : DataFrame)
    (names : list string) :
  names_fresh specs = true ->
  coalesce_loop df specs = Ok (df', names) ->
  names = coalesced_name <$> specs
  /\ nrows df' = nrows df
  /\ (forall c, c ∉ names -> columns df' !! c = columns df !! c)
  /\ (forall spec, spec ∈ specs ->
        exists col, _coalesce_var df spec = Ok col
                    /\ columns df' !! coalesced_name spec = Some col).
Proof.
  intros Hfresh H. apply names_fresh_spec in Hfresh as [Hnd Hfresh].
  pose proof (coalesce_loop_started specs df df' names Hfresh H) as Hok.
  destruct (coalesce_loop_Ok specs df Hfresh Hnd Hok)
    as (df'' & Hloop & Hn & Hother & Hcols).
  rewrite Hloop in H. injection H as <- <-. auto.
Qed.

(** The inputs of a variable are not overwritten by the loop. *)
Lemma coalesce_loop_inputs (specs : list VarSpec) (df df' : DataFrame)
    (names : list string) (spec : VarSpec) :
  names_fresh specs = true ->
  coalesce_loop df specs = Ok (df', names) ->
  spec ∈ specs ->
  _coalesce_var df' spec = _coalesce_var df spec.
Proof.
  intros Hfresh H Hs.
  destruct (coalesce_loop_run specs df df' names Hfresh H)
    as (-> & Hn & Hother & _).
  apply names_fresh_spec in Hfresh as [_ Hfresh].
  apply coalesce_var_agree; [exact Hn| |].
  - apply Hother. intros Hin.
    apply list_elem_of_fmap in Hin as (s & Heq & Hs1).
    destruct (Hfresh s spec Hs1 Hs) as [H1 _]. congruence.
  - intros it Hit. apply Hother. intros Hin.
    apply list_elem_of_fmap in Hin as (s & Heq & Hs1).
    destruct (Hfresh s spec Hs1 Hs) as [_ H2]. apply H2.
    unfold interval_given in Hit.
    destruct (interval spec) as [[|]|]; congruence.
Qed.

Lemma coalesce_loop_idempotent (specs : list VarSpec) (df df' : DataFrame)
    (names : list string) :
  names_fresh specs = true ->
  coalesce_loop df specs = Ok (df', names) ->
  exists df'',
    coalesce_loop df' specs = Ok (df'', names)
    /\ nrows df'' = nrows df'
    /\ columns df'' = columns df'.
Proof.
  intros Hfresh H.
  destruct (coalesce_loop_run specs df df' names Hfresh H)
    as (Hnames & Hn & Hother & Hcols).
  pose proof (names_fresh_spec specs Hfresh) as [Hnd Hfr].
  destruct (coalesce_loop_Ok specs df' Hfr Hnd)
    as (df'' & Hloop & Hn' & Hother' & Hcols').
  { intros spec Hs. rewrite (coalesce_loop_inputs _ _ _ _ _ Hfresh H Hs).
    destruct (Hcols spec Hs) as (col & Hcol & _). eauto. }
  exists df''. rewrite Hnames. split; [exact Hloop|]. split; [exact Hn'|].
  apply map_eq. intros c.
  destruct (decide (c ∈ coalesced_name <$> specs)) as [Hin|Hnin].
  - apply list_elem_of_fmap in Hin as (s & -> & Hs).
    destruct (Hcols s Hs) as (col & Hcol & ->).
    destruct (Hcols' s Hs) as (col' & Hcol' & ->).
    rewrite (coalesce_loop_inputs _ _ _ _ _ Hfresh H Hs) in Hcol'.
    congruence.
  - apply Hother'. exact Hnin.
Qed.

Lemma inputs_kept_spec (v : VarSpec) (specs : list VarSpec) :
  inputs_kept v specs = true ->
  (exact v ∉ coalesced_name <$> specs)
  /\ forall it, interval v = Some it -> it ∉ coalesced_name <$> specs.
Proof.
  unfold inputs_kept. rewrite forallb_forall. intros H.
  split.
  - intros Hin. apply list_elem_of_fmap in Hin as (s & Heq & Hs).
    apply list_elem_of_In in Hs. specialize (H s Hs).
    apply andb_true_iff in H as [H _]. apply negb_true_iff in H.
    apply String.eqb_neq in H. congruence.
  - intros it Hit Hin. apply list_elem_of_fmap in Hin as (s & Heq & Hs).
    apply list_elem_of_In in Hs. specialize (H s Hs).
    apply andb_true_iff in H as [_ H]. apply negb_true_iff in H.
    apply bool_decide_eq_false in H. congruence.
Qed.

Lemma foldl_ensure_column_present (cols : list (option string)) :
  forall acc : DataFrame * nat,
    let r := foldl ensure_column acc cols in
    (forall c, is_Some (columns acc.1 !! c) -> is_Some (columns r.1 !! c))
    /\ (forall c, Some c ∈ cols -> is_Some (columns r.1 !! c)).
Proof.
  induction cols as [|col cols IH]; intros acc; cbn [foldl]; cbv zeta.
  - split; [auto|]. intros c H. inversion H.
  - destruct (IH (ensure_column acc col)) as [Hmono Hpres].
    cbv zeta in Hmono, Hpres. split.
    + intros c Hc. apply Hmono. apply ensure_column_mono. exact Hc.
    + intros c Hc. apply elem_of_cons in Hc as [<-|Hc].
      * apply Hmono. apply ensure_column_present.
      * apply Hpres. exact Hc.
Qed.

Lemma foldl_ensure_column_noop (cols : list (option string)) :
  forall acc : DataFrame * nat,
    (forall c, Some c ∈ cols -> is_Some (columns acc.1 !! c)) ->
    foldl ensure_column acc cols = acc.
Proof.
  induction cols as [|col cols IH]; intros acc H; cbn [foldl]; [reflexivity|].
  rewrite (ensure_column_noop acc col)
    by (intros c ->; apply H; left).
  apply IH. intros c Hc. apply H. right. exact Hc.
Qed.

(** The columns a variable reads. *)
Lemma prologue_present (l1 l2 : list VarSpec) (cols : list (option string))
    (df : DataFrame) :
  let dfE :=
    (foldl ensure_column
       ((_ensure_columns (_ensure_columns df l1).1 l2).1, 0%nat) cols).1 in
  (forall spec, spec ∈ l1 ++ l2 ->
     is_Some (columns dfE !! exact spec)
     /\ forall it, interval spec = Some it -> is_Some (columns dfE !! it))
  /\ (forall c, Some c ∈ cols -> is_Some (columns dfE !! c)).
Proof.
  intros dfE.
  destruct (ensure_columns_acc l1 (df, 0%nat)) as (_ & Hp1 & _).
  fold (_ensure_columns df l1) in Hp1. cbv zeta in Hp1.
  set (df1 := (_ensure_columns df l1).1) in *.
  destruct (ensure_columns_acc l2 (df1, 0%nat)) as (Hm2 & Hp2 & _).
  fold (_ensure_columns df1 l2) in Hm2, Hp2. cbv zeta in Hm2, Hp2.
  set (df2 := (_ensure_columns df1 l2).1) in *.
  destruct (foldl_ensure_column_present cols (df2, 0%nat)) as [Hm3 Hp3].
  cbv zeta in Hm3, Hp3. fold dfE in Hm3, Hp3.
  split; [|exact Hp3].
  intros spec Hs. apply elem_of_app in Hs as [Hs|Hs].
  - destruct (Hp1 spec Hs) as [He Hi]. split.
    + apply Hm3, Hm2. exact He.
    + intros it Hit. apply Hm3, Hm2. exact (Hi it Hit).
  - destruct (Hp2 spec Hs) as [He Hi]. split.
    + apply Hm3. exact He.
    + intros it Hit. apply Hm3. exact (Hi it Hit).
Qed.

Lemma prologue_noop (l1 l2 : list VarSpec) (cols : list (option string))
    (df : DataFrame) :
  (forall spec, spec ∈ l1 ++ l2 ->
     is_Some (columns df !! exact spec)
     /\ forall it, interval spec = Some it -> is_Some (columns df !! it)) ->
  (forall c, Some c ∈ cols -> is_Some (columns df !! c)) ->
  (foldl ensure_column
     ((_ensure_columns (_ensure_columns df l1).1 l2).1, 0%nat) cols).1 = df.
Proof.
  intros Hs Hc.
  assert (H1 : _ensure_columns df l1 = (df, 0%nat)).
  { apply (ensure_columns_noop l1 (df, 0%nat)).
    intros spec H. apply Hs. apply elem_of_app. left. exact H. }
  rewrite H1. cbn [fst].
  assert (H2 : _ensure_columns df l2 = (df, 0%nat)).
  { apply (ensure_columns_noop l2 (df, 0%nat)).
    intros spec H. apply Hs. apply elem_of_app. right. exact H. }
  rewrite H2. cbn [fst].
  rewrite (foldl_ensure_column_noop cols (df, 0%nat)) by exact Hc.
  reflexivity.
Qed.

Lemma coalesce_program_idempotent (l1 l2 : list VarSpec) (v : VarSpec)
    (df df2 : DataFrame) (n1 n2 : list string) :
  names_fresh (l1 ++ l2) = true ->
  inputs_kept v (l1 ++ l2) = true ->
  (let df :=
     (foldl ensure_column
        ((_ensure_columns (_ensure_columns df l1).1 l2).1, 0%nat)
        [Some (exact v); interval v]).1 in
   '(df, debt_cols) ← coalesce_loop df l1;
   '(df, asset_cols) ← coalesce_loop df l2;
   Ok (df, debt_cols, asset_cols)) = Ok (df2, n1, n2) ->
  exists df3,
    (let df :=
       (foldl ensure_column
          ((_ensure_columns (_ensure_columns df2 l1).1 l2).1, 0%nat)
          [Some (exact v); interval v]).1 in
     '(df, debt_cols) ← coalesce_loop df l1;
     '(df, asset_cols) ← coalesce_loop df l2;
     Ok (df, debt_cols, asset_cols)) = Ok (df3, n1, n2)
    /\ nrows df3 = nrows df2
    /\ columns df3 = columns df2.
Proof.
  intros Hfresh Hkept H. cbv zeta in H.
  destruct (prologue_present l1 l2 [Some (exact v); interval v] df)
    as [Hps Hpv]. cbv zeta in Hps, Hpv.
  set (dfE := (foldl ensure_column _ _).1) in *.
  apply bind_Ok in H as ([dfa d] & H1 & H).
  apply bind_Ok in H as ([dfb a] & H2 & H).
  injection H as -> -> ->.
  assert (Happ : coalesce_loop dfE (l1 ++ l2) = Ok (df2, n1 ++ n2)).
  { rewrite coalesce_loop_app, H1. simpl. rewrite H2. reflexivity. }
  destruct (coalesce_loop_run _ _ _ _ Hfresh Happ) as (Hnames & _ & Hother & _).
  pose proof (names_fresh_spec _ Hfresh) as [_ Hfr].
  destruct (inputs_kept_spec _ _ Hkept) as [Hve Hvi].
  assert (Hnoop :
    (foldl ensure_column
       ((_ensure_columns (_ensure_columns df2 l1).1 l2).1, 0%nat)
       [Some (exact v); interval v]).1 = df2).
  { apply prologue_noop.
    - intros spec Hs. destruct (Hps spec Hs) as [He Hi]. split.
      + rewrite Hother; [exact He|]. rewrite Hnames. intros Hin.
        apply list_elem_of_fmap in Hin as (s & Heq & Hs1).
        destruct (Hfr s spec Hs1 Hs) as [Hne _]. congruence.
      + intros it Hit. rewrite Hother; [exact (Hi it Hit)|].
        rewrite Hnames. intros Hin.
        apply list_elem_of_fmap in Hin as (s & Heq & Hs1).
        destruct (Hfr s spec Hs1 Hs) as [_ Hne]. congruence.
    - intros c Hc. rewrite Hother; [exact (Hpv c Hc)|]. rewrite Hnames.
      apply elem_of_cons in Hc as [Hc|Hc].
      + injection Hc as ->. exact Hve.
      + apply elem_of_cons in Hc as [Hc|Hc]; [|inversion Hc].
        apply Hvi. symmetry. exact Hc. }
  destruct (coalesce_loop_idempotent _ _ _ _ Hfresh Happ)
    as (df3 & Hloop & Hn & Hcols).
  rewrite coalesce_loop_app in Hloop.
  apply bind_Ok in Hloop as ([dfa' d'] & H1' & Hloop).
  apply bind_Ok in Hloop as ([dfb' a'] & H2' & Hloop).
  injection Hloop as -> Happ'.
  pose proof (coalesce_loop_names _ _ _ _ H1) as E1.
  pose proof (coalesce_loop_names _ _ _ _ H2) as E2.
  pose proof (coalesce_loop_names _ _ _ _ H1') as E1'.
  pose proof (coalesce_loop_names _ _ _ _ H2') as E2'.
  subst n1 n2 d' a'.
  exists df3. cbv zeta. rewrite Hnoop, H1'. simpl. rewrite H2'.
  split; [reflexivity|]. split; [exact Hn|exact Hcols].
Qed.

Lemma vehicle_inputs_kept :
  inputs_kept ASSET_VEHICLE_IN_BUSINESS (ALL_DEBT_VARS ++ ALL_ASSET_VARS)
  = true.
Proof. vm_compute. reflexivity. Qed.

(** X6: coalescing is idempotent.  When [coalesce_all] succeeds, a second
    call on its result succeeds as well, returns the same two name lists,
    and leaves every column of the table as the first call left it. *)
Theorem coalesce_all_idempotent (df df1 : DataFrame)
    (debt_cols asset_cols : list string) :
  coalesce_all df = Ok (df1, debt_cols, asset_cols) ->
  exists df2,
    coalesce_all df1 = Ok (df2, debt_cols, asset_cols)
    /\ nrows df2 = nrows df1
    /\ columns df2 = columns df1.
Proof.
  exact (coalesce_program_idempotent ALL_DEBT_VARS ALL_ASSET_VARS
           ASSET_VEHICLE_IN_BUSINESS df df1 debt_cols asset_cols
           catalogue_names_fresh vehicle_inputs_kept).
Qed.

Lemma coalesce_all_idempotent_witness :
  exists df1 df2,
    coalesce_all sample_coalesce
    = Ok (df1, coalesced_name <$> ALL_DEBT_VARS,
          coalesced_name <$> ALL_ASSET_VARS)
    /\ coalesce_all df1
       = Ok (df2, coalesced_name <$> ALL_DEBT_VARS,
             coalesced_name <$> ALL_ASSET_VARS)
    /\ columns df2 = columns df1.
Proof.
  destruct (coalesce_all_columns sample_coalesce) as (df1 & Hrun & _).
  - apply well_formed_frame_of. repeat constructor.
  - intros spec _. apply no_infinity_codes_finite.
    apply (bool_decide_unpack _). vm_compute. exact I.
  - destruct (coalesce_all_idempotent _ _ _ _ Hrun) as (df2 & Hrun2 & _ & Hcols).
    exists df1, df2. split; [exact Hrun|]. split; [exact Hrun2|exact Hcols].
Defined.

Lemma coalesce_program_frame (l1 l2 : list VarSpec) (dfE df2 : DataFrame)
    (n1 n2 : list string) :
  names_fresh (l1 ++ l2) = true ->
  ('(df, debt_cols) ← coalesce_loop dfE l1;
   '(df, asset_cols) ← coalesce_loop df l2;
   Ok (df, debt_cols, asset_cols)) = Ok (df2, n1, n2) ->
  n1 = coalesced_name <$> l1
  /\ n2 = coalesced_name <$> l2
  /\ nrows df2 = nrows dfE
  /\ (forall c, c ∉ n1 -> c ∉ n2 -> columns df2 !! c = columns dfE !! c).
Proof.
  intros Hfresh H.
  apply bind_Ok in H as ([dfa d] & H1 & H).
  apply bind_Ok in H as ([dfb a] & H2 & H).
  injection H as -> -> ->.
  assert (Happ : coalesce_loop dfE (l1 ++ l2) = Ok (df2, n1 ++ n2)).
  { rewrite coalesce_loop_app, H1. simpl. rewrite H2. reflexivity. }
  destruct (coalesce_loop_run _ _ _ _ Hfresh Happ) as (_ & Hn & Hother & _).
  split; [exact (coalesce_loop_names _ _ _ _ H1)|].
  split; [exact (coalesce_loop_names _ _ _ _ H2)|].
  split; [exact Hn|].
  intros c Hc1 Hc2. apply Hother. intros Hin.
  apply elem_of_app in Hin as [Hin|Hin]; auto.
Qed.

Lemma coalesce_program_keeps (l1 l2 : list VarSpec)
    (cols : list (option string)) (df df2 : DataFrame)
    (n1 n2 : list string) :
  names_fresh (l1 ++ l2) = true ->
  (let df :=
     (foldl ensure_column
        ((_ensure_columns (_ensure_columns df l1).1 l2).1, 0%nat) cols).1 in
   '(df, debt_cols) ← coalesce_loop df l1;
   '(df, asset_cols) ← coalesce_loop df l2;
   Ok (df, debt_cols, asset_cols)) = Ok (df2, n1, n2) ->
  n1 = coalesced_name <$> l1
  /\ n2 = coalesced_name <$> l2
  /\ nrows df2 = nrows df
  /\ forall c, c ∉ n1 -> c ∉ n2 ->
       columns df2 !! c = columns df !! c
       \/ (columns df !! c = None
           /\ columns df2 !! c = Some (replicate (nrows df) nan)).
Proof.
  intros Hfresh H. cbv zeta in H.
  destruct (coalesce_program_frame l1 l2 _ df2 n1 n2 Hfresh H)
    as (Hd & Ha & Hn & Hother).
  destruct (ensure_prologue_extends l1 l2 cols df) as [HnE HextE].
  split; [exact Hd|]. split; [exact Ha|]. split; [congruence|].
  intros c Hc1 Hc2. rewrite (Hother c Hc1 Hc2). exact (HextE c).
Qed.

(** X7: [coalesce_all] returns the coalesced names of the two catalogues, in
    catalogue order, and keeps the number of rows.  It writes no column
    other than those: every other column of the input is unchanged, and a
    column that was absent is either still absent or all NaN. *)
Theorem coalesce_all_keeps_columns (df df' : DataFrame)
    (debt_cols asset_cols : list string) :
  coalesce_all df = Ok (df', debt_cols, asset_cols) ->
  debt_cols = coalesced_name <$> ALL_DEBT_VARS
  /\ asset_cols = coalesced_name <$> ALL_ASSET_VARS
  /\ nrows df' = nrows df
  /\ forall c, c ∉ debt_cols -> c ∉ asset_cols ->
       columns df' !! c = columns df !! c
       \/ (columns df !! c = None
           /\ columns df' !! c = Some (replicate (nrows df) nan)).
Proof.
  exact (coalesce_program_keeps ALL_DEBT_VARS ALL_ASSET_VARS
           [Some (exact ASSET_VEHICLE_IN_BUSINESS);
            interval ASSET_VEHICLE_IN_BUSINESS]
           df df' debt_cols asset_cols catalogue_names_fresh).
Qed.

Lemma coalesce_all_keeps_columns_witness :
  exists df',
    coalesce_all sample_coalesce
    = Ok (df', coalesced_name <$> ALL_DEBT_VARS,
          coalesced_name <$> ALL_ASSET_VARS)
    /\ nrows df' = 2%nat
    /\ columns df' !! "hhid" = Some [1; 2]%float.
Proof.
  destruct (coalesce_all_columns sample_coalesce) as (df' & Hrun & _).
  - apply well_formed_frame_of. repeat constructor.
  - intros spec _. apply no_infinity_codes_finite.
    apply (bool_decide_unpack _). vm_compute. exact I.
  - destruct (coalesce_all_keeps_columns _ _ _ _ Hrun)
      as (_ & _ & Hn & Hother).
    exists df'. split; [exact Hrun|]. split; [exact Hn|].
    destruct (Hother "hhid") as [->|[Hnone _]].
    + apply (bool_decide_unpack _). vm_compute. exact I.
    + apply (bool_decide_unpack _). vm_compute. exact I.
    + reflexivity.
    + vm_compute in Hnone. discriminate Hnone.
Defined.

(** ** Totals: errors and invariants *)

Lemma rmapM_Raise {A B} (f : A -> result B) (l : list A) (e : exn) :
  rmapM f l = Raise e -> exists a, a ∈ l /\ f a = Raise e.
Proof.
  induction l as [|a l IH]; simpl; intros H; [discriminate H|].
  destruct (f a) as [b|e'] eqn:Ea; simpl in H.
  - destruct (rmapM f l) as [bs|e'] eqn:El; simpl in H; [discriminate H|].
    injection H as <-. destruct (IH eq_refl) as (a' & Ha' & Hf).
    exists a'. split; [right; exact Ha'|exact Hf].
  - injection H as <-. exists a. split; [left|exact Ea].
Qed.

Lemma select_columns_Raise (df : DataFrame) (cols : list string) (e : exn) :
  select_columns df cols = Raise e
  <-> e = KeyError /\ exists c, c ∈ cols /\ columns df !! c = None.
Proof.
  split.
  - intros H. apply rmapM_Raise in H as (c & Hc & H).
    unfold get_column in H. destruct (columns df !! c) eqn:E;
      [discriminate H|].
    injection H as <-. eauto.
  - intros (-> & c & Hc & Hnone).
    destruct (select_columns df cols) as [sel|e] eqn:E.
    + exfalso. destruct (rmapM_Ok _ _ _ E) as [_ Hlk].
      apply list_elem_of_lookup in Hc as [i Hi].
      destruct (Hlk i c Hi) as (col & Hcol & _).
      apply get_column_Ok in Hcol. congruence.
    + apply rmapM_Raise in E as (c' & _ & H).
      unfold get_column in H. destruct (columns df !! c');
        [discriminate H|]. injection H as <-. reflexivity.
Qed.

Lemma get_midpoint_series_Raise_inv (codes : list float) (var : string)
    (e : exn) :
  get_midpoint_series codes var = Raise e ->
  e = OverflowError
  /\ exists c, c ∈ codes /\ PrimFloat.is_infinity c = true.
Proof.
  intros H. apply rmapM_Raise in H as (c & Hc & H).
  apply get_midpoint_Raise_inv in H as (-> & Hinf & _). eauto.
Qed.

Lemma coalesce_var_Raise_inv (df : DataFrame) (spec : VarSpec) (e : exn) :
  _coalesce_var df spec = Raise e ->
  e = OverflowError
  /\ exists it codes c,
       interval_given spec = Some it /\ columns df !! it = Some codes
       /\ c ∈ codes /\ PrimFloat.is_infinity c = true.
Proof.
  unfold _coalesce_var.
  destruct (interval_given spec) as [it|]; [|discriminate].
  destruct (columns df !! it) as [codes|] eqn:E; [|discriminate].
  destruct (get_midpoint_series codes it) as [m|e'] eqn:Em; simpl;
    [discriminate|].
  intros H. injection H as <-.
  apply get_midpoint_series_Raise_inv in Em as (-> & c & Hc & Hinf).
  split; [reflexivity|]. exists it, codes, c. auto.
Qed.

(** X8: [compute_totals] raises [KeyError] exactly when a listed debt
    column, or a listed asset column other than the freshly written
    [total_debt], is absent.  When every listed column is there, it fails
    only as the coalescing of the vehicle-in-business variable fails, that
    is with the [OverflowError] of an infinite interval code. *)
Theorem compute_totals_raises (np_sum : list (list float) -> list float)
    (df : DataFrame)
    (debt_cols asset_cols : list string) (e : exn) :
  let missing :=
    (exists c, c ∈ debt_cols /\ columns df !! c = None)
    \/ (exists c, c ∈ asset_cols /\ c <> "total_debt"
                  /\ columns df !! c = None) in
  (compute_totals np_sum df debt_cols asset_cols = Raise KeyError <-> missing)
  /\ (~ missing ->
      (compute_totals np_sum df debt_cols asset_cols = Raise e
       <-> _coalesce_var df ASSET_VEHICLE_IN_BUSINESS = Raise e)
      /\ (_coalesce_var df ASSET_VEHICLE_IN_BUSINESS = Raise e ->
          e = OverflowError)).
Proof.
  intros missing.
  assert (Hstep : forall e',
    compute_totals np_sum df debt_cols asset_cols = Raise e'
    <-> (e' = KeyError /\ missing)
        \/ (~ missing
            /\ _coalesce_var df ASSET_VEHICLE_IN_BUSINESS = Raise e')).
  { intros e'. unfold compute_totals.
    destruct (select_columns df debt_cols) as [debt|e1] eqn:Ed; simpl.
    - set (df1 := set_column df "total_debt" _).
      assert (Hd : ~ exists c, c ∈ debt_cols /\ columns df !! c = None).
      { intros (c & Hc & Hnone).
        assert (Hr : select_columns df debt_cols = Raise KeyError)
          by (apply select_columns_Raise; eauto).
        congruence. }
      assert (Hlk : forall c, c <> "total_debt" ->
                columns df1 !! c = columns df !! c).
      { intros c Hne. unfold df1. apply set_column_other. congruence. }
      destruct (select_columns df1 asset_cols) as [assets|e2] eqn:Ea; simpl.
      + assert (Ha : ~ exists c, c ∈ asset_cols /\ c <> "total_debt"
                                 /\ columns df !! c = None).
        { intros (c & Hc & Hne & Hnone).
          assert (Hr : select_columns df1 asset_cols = Raise KeyError).
          { apply select_columns_Raise. split; [reflexivity|].
            exists c. split; [exact Hc|]. rewrite (Hlk c Hne). exact Hnone. }
          congruence. }
        assert (Hnm : ~ missing) by (intros [H|H]; auto).
        rewrite (coalesce_var_set_column _ ASSET_VEHICLE_IN_BUSINESS
                   "total_assets_raw") by discriminate.
        unfold df1.
        rewrite (coalesce_var_set_column _ ASSET_VEHICLE_IN_BUSINESS
                   "total_debt") by discriminate.
        destruct (_coalesce_var df ASSET_VEHICLE_IN_BUSINESS) as [vib|e3];
          simpl.
        * rewrite (proj2 (get_column_Ok _ "total_assets_raw" _)
                     (set_column_same _ _ _)). simpl.
          split; [discriminate|]. intros [[_ Hm]|[_ H]];
            [contradiction|discriminate H].
        * split.
          -- intros H. right. split; [exact Hnm|congruence].
          -- intros [[_ Hm]|[_ H]]; [contradiction|congruence].
      + apply select_columns_Raise in Ea as (-> & c & Hc & Hnone).
        assert (Hne : c <> "total_debt").
        { intros ->. unfold df1 in Hnone. rewrite set_column_same in Hnone.
          discriminate Hnone. }
        rewrite (Hlk c Hne) in Hnone.
        assert (Hm : missing) by (right; eauto).
        split.
        * intros H. injection H as <-. left. auto.
        * intros [[-> _]|[Hnm _]]; [reflexivity|contradiction].
    - apply select_columns_Raise in Ed as (-> & c & Hc & Hnone).
      assert (Hm : missing) by (left; eauto).
      split.
      + intros H. injection H as <-. left. auto.
      + intros [[-> _]|[Hnm _]]; [reflexivity|contradiction]. }
  split.
  - rewrite Hstep. split.
    + intros [[_ Hm]|[_ H]]; [exact Hm|].
      apply coalesce_var_Raise_inv in H as [H _]. discriminate H.
    + intros Hm. left. auto.
  - intros Hnm. split.
    + rewrite Hstep. split.
      * intros [[_ Hm]|[_ H]]; [contradiction|exact H].
      * intros H. right. auto.
    + intros H. apply coalesce_var_Raise_inv in H as [H _]. exact H.
Qed.

Lemma compute_totals_raises_witness :
  compute_totals fold_sum sample_coalesced ["c7060_val"; "absent_val"] ["d1105_val"]
  = Raise KeyError.
Proof.
  apply (proj1 (compute_totals_raises fold_sum sample_coalesced
                  ["c7060_val"; "absent_val"] ["d1105_val"] KeyError)).
  left. exists "absent_val". split; [right; left|reflexivity].
Defined.

Lemma compute_totals_Ok_inv (np_sum : list (list float) -> list float)
    (df df' : DataFrame)
    (debt_cols asset_cols : list string) :
  compute_totals np_sum df debt_cols asset_cols = Ok df' ->
  exists td tar ta,
    df' = set_column
            (set_column (set_column df "total_debt" td)
               "total_assets_raw" tar)
            "total_assets" (clip_lower 0 <$> ta).
Proof.
  unfold compute_totals. intros H.
  apply bind_Ok in H as (debt & _ & H).
  apply bind_Ok in H as (assets & _ & H).
  apply bind_Ok in H as (vib & _ & H).
  apply bind_Ok in H as (raw & _ & H).
  injection H as <-. eauto.
Qed.

(** X9: [total_assets] is never negative: after [compute_totals] each of
    its cells is undefined or at least zero. *)
Theorem total_assets_never_negative (np_sum : list (list float) -> list float)
    (df df' : DataFrame)
    (debt_cols asset_cols : list string) :
  compute_totals np_sum df debt_cols asset_cols = Ok df' ->
  exists ta,
    columns df' !! "total_assets" = Some ta
    /\ forall x, x ∈ ta ->
         Cell.isna x = true \/ (0 <=? x)%float = true.
Proof.
  intros H. apply compute_totals_Ok_inv in H as (td & tar & ta & ->).
  eexists. split; [apply set_column_same|].
  intros x Hx. apply list_elem_of_fmap in Hx as (y & -> & _).
  unfold clip_lower. destruct (Cell.isna y) eqn:Hna; simpl; [left; exact Hna|].
  destruct (0 <=? y)%float eqn:Hle; [right; exact Hle|].
  right. reflexivity.
Qed.

Lemma total_assets_never_negative_witness :
  exists df' ta,
    compute_totals fold_sum sample_coalesced
      ["c7060_val"; "c7061_val"] ["d1105_val"; "d2104_val"] = Ok df'
    /\ columns df' !! "total_assets" = Some ta
    /\ forall x, x ∈ ta -> Cell.isna x = true \/ (0 <=? x)%float = true.
Proof.
  assert (Hrun : exists df',
    compute_totals fold_sum sample_coalesced
      ["c7060_val"; "c7061_val"] ["d1105_val"; "d2104_val"] = Ok df')
    by (vm_compute; eauto).
  destruct Hrun as [df' Hrun].
  destruct (total_assets_never_negative _ _ _ _ _ Hrun) as (ta & Hta & Hpos).
  exists df', ta. split; [exact Hrun|]. split; [exact Hta|exact Hpos].
Defined.

(** X10: [compute_totals] writes [total_debt], [total_assets_raw] and
    [total_assets] and nothing else: the number of rows and every other
    column stay as they were. *)
Theorem compute_totals_keeps_columns (np_sum : list (list float) -> list float)
    (df df' : DataFrame)
    (debt_cols asset_cols : list string) :
  compute_totals np_sum df debt_cols asset_cols = Ok df' ->
  nrows df' = nrows df
  /\ is_Some (columns df' !! "total_debt")
  /\ is_Some (columns df' !! "total_assets_raw")
  /\ is_Some (columns df' !! "total_assets")
  /\ forall c,
       c <> "total_debt" -> c <> "total_assets_raw" -> c <> "total_assets" ->
       columns df' !! c = columns df !! c.
Proof.
  intros H. apply compute_totals_Ok_inv in H as (td & tar & ta & ->).
  split; [reflexivity|].
  split; [rewrite !set_column_other by discriminate;
          rewrite set_column_same; eauto|].
  split; [rewrite set_column_other by discriminate;
          rewrite set_column_same; eauto|].
  split; [rewrite set_column_same; eauto|].
  intros c H1 H2 H3. rewrite !set_column_other by congruence. reflexivity.
Qed.

Lemma compute_totals_keeps_columns_witness :
  exists df',
    compute_totals fold_sum sample_coalesced
      ["c7060_val"; "c7061_val"] ["d1105_val"; "d2104_val"] = Ok df'
    /\ nrows df' = 1%nat
    /\ columns df' !! "c7062" = Some [2000]%float.
Proof.
  assert (Hrun : exists df',
    compute_totals fold_sum sample_coalesced
      ["c7060_val"; "c7061_val"] ["d1105_val"; "d2104_val"] = Ok df')
    by (vm_compute; eauto).
  destruct Hrun as [df' Hrun].
  destruct (compute_totals_keeps_columns _ _ _ _ _ Hrun)
    as (Hn & _ & _ & _ & Hother).
  exists df'. split; [exact Hrun|]. split; [exact Hn|].
  rewrite Hother by discriminate. reflexivity.
Defined.

(** ** The debt ratio: what the columns can hold *)

Lemma compute_debt_ratio_Ok_inv (np_log : float -> float)
    (df df' : DataFrame) (cfg : Settings) :
  compute_debt_ratio np_log df cfg = Ok df' ->
  exists td ta w,
    columns df !! "total_debt" = Some td
    /\ columns df !! "total_assets" = Some ta
    /\ (let clean := finite_rows (raw_debt_ratio (epsilon cfg) td ta) in
        (clean = [] /\ w = replicate (nrows df) nan)
        \/ (clean <> []
            /\ exists win_vals,
                 winsorize clean.*2 (winsorize_limits cfg) = Ok win_vals
                 /\ w = align_to_rows (nrows df) (zip clean.*1 win_vals)))
    /\ df'
       = set_column
           (set_column
              (set_column df "debt_ratio"
                 (raw_debt_ratio (epsilon cfg) td ta))
              "debt_ratio_winsorized" w)
           "log_debt_ratio_winsorized"
           ((fun x => np_log (if (0 <? x)%float then x else nan))
              <$> ((fun x => (x + log_dv_constant cfg)%float) <$> w)).
Proof.
  unfold compute_debt_ratio. intros H.
  apply bind_Ok in H as (td & Htd & H). apply get_column_Ok in Htd.
  apply bind_Ok in H as (ta & Hta & H). apply get_column_Ok in Hta.
  apply bind_Ok in H as (ratio & Hratio & H).
  apply get_column_Ok in Hratio. rewrite set_column_same in Hratio.
  injection Hratio as <-.
  apply bind_Ok in H as (df1 & Hdf1 & H).
  apply bind_Ok in H as (w & Hw & H). apply get_column_Ok in Hw.
  injection H as <-.
  exists td, ta, w. split; [exact Htd|]. split; [exact Hta|].
  cbv zeta.
  destruct (finite_rows (raw_debt_ratio (epsilon cfg) td ta))
    as [|p ps] eqn:E.
  - injection Hdf1 as <-. unfold set_scalar in Hw.
    rewrite set_column_same in Hw. injection Hw as <-.
    split; [left; split; reflexivity|]. reflexivity.
  - apply bind_Ok in Hdf1 as (win_vals & Hwin & Hdf1). injection Hdf1 as <-.
    rewrite set_column_same in Hw. injection Hw as <-.
    split; [|reflexivity]. right. split; [discriminate|].
    exists win_vals. split; [exact Hwin|reflexivity].
Qed.

Lemma add_nan_l (x y : float) :
  Cell.isna x = true -> Cell.isna (x + y)%float = true.
Proof.
  rewrite !isna_true, FloatAxioms.add_spec. intros ->. reflexivity.
Qed.

Lemma ltb_nan_r (x y : float) :
  Cell.isna y = true -> (x <? y)%float = false.
Proof.
  rewrite isna_true, FloatAxioms.ltb_spec. intros ->.
  unfold SFltb. destruct (Prim2SF x); reflexivity.
Qed.

(** X11: the log transform is guarded.  In each row,
    [log_debt_ratio_winsorized] is [np.log] of the winsorized ratio plus the
    constant when that sum is positive, and [np.log] of NaN otherwise: the
    logarithm is never taken of zero or of a negative number, and a row
    without winsorized ratio gets [np.log(NaN)]. *)
Theorem log_ratio_guarded (np_log : float -> float)
    (df df' : DataFrame) (cfg : Settings) :
  compute_debt_ratio np_log df cfg = Ok df' ->
  exists w lg,
    columns df' !! "debt_ratio_winsorized" = Some w
    /\ columns df' !! "log_debt_ratio_winsorized" = Some lg
    /\ length lg = length w
    /\ forall i x, w !! i = Some x ->
         let s := (x + log_dv_constant cfg)%float in
         exists y,
           lg !! i = Some (np_log y)
           /\ ((0 <? s)%float = true -> y = s)
           /\ ((0 <? s)%float = false -> y = nan)
           /\ (Cell.isna x = true -> y = nan)
           /\ (Cell.isna y = true \/ (0 <? y)%float = true).
Proof.
  intros H.
  apply compute_debt_ratio_Ok_inv in H as (td & ta & w & _ & _ & _ & ->).
  eexists w, _. split.
  { rewrite set_column_other by discriminate. apply set_column_same. }
  split; [apply set_column_same|].
  split; [rewrite !length_fmap; reflexivity|].
  intros i x Hx s.
  exists (if (0 <? s)%float then s else nan). split.
  { rewrite !list_lookup_fmap, Hx. reflexivity. }
  split; [intros ->; reflexivity|].
  split; [intros ->; reflexivity|].
  split.
  - intros Hna. unfold s. rewrite (ltb_nan_r 0 _ (add_nan_l x _ Hna)).
    reflexivity.
  - destruct (0 <? s)%float eqn:E; [right; exact E|left; reflexivity].
Qed.

Lemma log_ratio_guarded_witness :
  exists df' w lg,
    compute_debt_ratio (fun x => x) sample_spread default_settings = Ok df'
    /\ columns df' !! "debt_ratio_winsorized" = Some w
    /\ columns df' !! "log_debt_ratio_winsorized" = Some lg
    /\ length lg = length w.
Proof.
  assert (Hrun : exists df',
    compute_debt_ratio (fun x => x) sample_spread default_settings = Ok df')
    by (vm_compute; eauto).
  destruct Hrun as [df' Hrun].
  destruct (log_ratio_guarded _ _ _ _ Hrun) as (w & lg & Hw & Hlg & Hlen & _).
  exists df', w, lg. auto.
Defined.

Lemma assign_at_elem (positions : list nat) (v : float) :
  forall (a : list float) (x : float),
    x ∈ assign_at positions v a -> x = v \/ x ∈ a.
Proof.
  unfold assign_at. induction positions as [|p ps IH]; intros a x Hx;
    simpl in Hx; [right; exact Hx|].
  destruct (IH _ _ Hx) as [->|Hin]; [left; reflexivity|].
  apply list_elem_of_lookup in Hin as [j Hj].
  apply list_lookup_insert_Some in Hj as [(_ & -> & _)|[_ Hj]];
    [left; reflexivity|].
  right. exact (list_elem_of_lookup_2 _ _ _ Hj).
Qed.

Lemma py_index_elem {A} (l : list A) (k : Z) (x : A) :
  py_index l k = Ok x -> x ∈ l.
Proof.
  unfold py_index.
  destruct (_ <? 0); [discriminate|].
  destruct (l !! _) as [y|] eqn:E; [|discriminate].
  intros H. injection H as <-. exact (list_elem_of_lookup_2 _ _ _ E).
Qed.

(** Winsorizing replaces values by other values of the input. *)
Lemma winsorize_values (a w : list float) (limits : float * float) :
  winsorize a limits = Ok w -> forall x, x ∈ w -> x ∈ a.
Proof.
  unfold winsorize. intros H.
  apply bind_Ok in H as (_ & _ & H). apply bind_Ok in H as (_ & _ & H).
  apply bind_Ok in H as (a1 & Hlow & Hup).
  assert (H1 : forall x, x ∈ a1 -> x ∈ a).
  { unfold winsorize_low in Hlow.
    destruct (limits.1 =? 0)%float; [injection Hlow as <-; auto|].
    apply bind_Ok in Hlow as (lowidx & _ & Hlow).
    apply bind_Ok in Hlow as (i & _ & Hlow).
    apply bind_Ok in Hlow as (v & Hv & Hlow). injection Hlow as <-.
    intros x Hx. apply assign_at_elem in Hx as [->|Hx]; [|exact Hx].
    exact (py_index_elem _ _ _ Hv). }
  unfold winsorize_up in Hup.
  apply bind_Ok in Hup as (k & _ & Hup).
  apply bind_Ok in Hup as (i & _ & Hup).
  apply bind_Ok in Hup as (v & Hv & Hup). injection Hup as <-.
  intros x Hx. apply H1. apply assign_at_elem in Hx as [->|Hx]; [|exact Hx].
  exact (py_index_elem _ _ _ Hv).
Qed.

Lemma series_lookup_elem (keys : list nat) :
  forall (vals : list float) (i : nat) (v : float),
    series_lookup (zip keys vals) i = Some v -> v ∈ vals.
Proof.
  induction keys as [|k keys IH]; intros [|v0 vals] i v H; simpl in H;
    try discriminate H.
  destruct (Nat.eqb i k).
  - injection H as <-. left.
  - right. exact (IH _ _ _ H).
Qed.

(** X12: winsorization invents no value.  Every defined cell of
    [debt_ratio_winsorized] is the raw ratio of some row of the table, and
    that ratio is finite; an infinite ratio never reaches the column. *)
Theorem winsorized_values_from_ratio (np_log : float -> float)
    (df df' : DataFrame) (cfg : Settings) :
  compute_debt_ratio np_log df cfg = Ok df' ->
  exists ratio w,
    columns df' !! "debt_ratio" = Some ratio
    /\ columns df' !! "debt_ratio_winsorized" = Some w
    /\ forall x, x ∈ w ->
         Cell.isna x = true
         \/ (PrimFloat.is_infinity x = false
             /\ exists j, ratio !! j = Some x).
Proof.
  intros H.
  apply compute_debt_ratio_Ok_inv in H as (td & ta & w & _ & _ & Hw & ->).
  exists (raw_debt_ratio (epsilon cfg) td ta), w. split.
  { rewrite !set_column_other by discriminate. apply set_column_same. }
  split.
  { rewrite set_column_other by discriminate. apply set_column_same. }
  cbv zeta in Hw. intros x Hx.
  destruct Hw as [[_ ->]|(_ & win_vals & Hwin & ->)].
  - apply elem_of_replicate in Hx as [-> _]. left. reflexivity.
  - unfold align_to_rows in Hx.
    apply list_elem_of_fmap in Hx as (i & -> & _).
    destruct (series_lookup _ i) as [v|] eqn:E; simpl;
      [|left; reflexivity].
    right. apply series_lookup_elem in E.
    apply (winsorize_values _ _ _ Hwin) in E.
    apply list_elem_of_fmap in E as ([j r] & -> & Hjr).
    apply finite_rows_elem in Hjr as (Hj & _ & Hfin). simpl. eauto.
Qed.

Lemma winsorized_values_from_ratio_witness :
  exists df' ratio w,
    compute_debt_ratio (fun x => x) sample_spread default_settings = Ok df'
    /\ columns df' !! "debt_ratio" = Some ratio
    /\ columns df' !! "debt_ratio_winsorized" = Some w
    /\ forall x, x ∈ w ->
         Cell.isna x = true
         \/ (PrimFloat.is_infinity x = false
             /\ exists j, ratio !! j = Some x).
Proof.
  assert (Hrun : exists df',
    compute_debt_ratio (fun x => x) sample_spread default_settings = Ok df')
    by (vm_compute; eauto).
  destruct Hrun as [df' Hrun].
  destruct (winsorized_values_from_ratio _ _ _ _ Hrun)
    as (ratio & w & Hr & Hw & Hall).
  exists df', ratio, w. auto.
Defined.

Lemma bind_Raise {A B} (m : result A) (k : A -> result B) (e : exn) :
  m ≫= k = Raise e -> m = Raise e \/ exists a, m = Ok a /\ k a = Raise e.
Proof.
  destruct m as [a|e']; simpl; intros H.
  - right. exists a. split; [reflexivity|exact H].
  - left. injection H as <-. reflexivity.
Qed.

Lemma py_index_Raise {A} (l : list A) (k : Z) (e : exn) :
  py_index l k = Raise e -> e = IndexError.
Proof.
  unfold py_index. destruct (_ <? 0); [congruence|].
  destruct (l !! _); [discriminate|congruence].
Qed.

Lemma int_Raise_not_KeyError (x : float) (e : exn) :
  Cell.int x = Raise e -> e <> KeyError.
Proof.
  intros H. destruct (int_raises x e H) as [[-> _]|[-> _]]; discriminate.
Qed.

Lemma winsorize_not_KeyError (a : list float) (limits : float * float) :
  winsorize a limits <> Raise KeyError.
Proof.
  unfold winsorize. intros H.
  assert (Hlim : forall lim, check_limit lim <> Raise KeyError).
  { intros lim. unfold check_limit. destruct (_ || _); discriminate. }
  apply bind_Raise in H as [H|(_ & _ & H)]; [exact (Hlim _ H)|].
  apply bind_Raise in H as [H|(_ & _ & H)]; [exact (Hlim _ H)|].
  apply bind_Raise in H as [H|(a1 & _ & H)].
  - unfold winsorize_low in H. destruct (_ =? 0)%float; [discriminate H|].
    apply bind_Raise in H as [H|(? & _ & H)];
      [exact (int_Raise_not_KeyError _ _ H eq_refl)|].
    apply bind_Raise in H as [H|(? & _ & H)];
      [apply py_index_Raise in H; discriminate H|].
    apply bind_Raise in H as [H|(? & _ & H)];
      [apply py_index_Raise in H; discriminate H|discriminate H].
  - unfold winsorize_up in H.
    apply bind_Raise in H as [H|(? & _ & H)];
      [exact (int_Raise_not_KeyError _ _ H eq_refl)|].
    apply bind_Raise in H as [H|(? & _ & H)];
      [apply py_index_Raise in H; discriminate H|].
    apply bind_Raise in H as [H|(? & _ & H)];
      [apply py_index_Raise in H; discriminate H|discriminate H].
Qed.

Lemma get_column_None (df : DataFrame) (c : string) :
  columns df !! c = None -> get_column df c = Raise KeyError.
Proof. unfold get_column. intros ->. reflexivity. Qed.

(** X13: [compute_debt_ratio] raises [KeyError] exactly when [total_debt]
    or [total_assets] is absent.  With both present and no finite ratio in
    the table, [winsorize] is not called: the call succeeds whatever the
    limits are, and [debt_ratio_winsorized] is NaN in every row. *)
Theorem compute_debt_ratio_errors (np_log : float -> float)
    (df : DataFrame) (cfg : Settings) :
  (compute_debt_ratio np_log df cfg = Raise KeyError
   <-> columns df !! "total_debt" = None
       \/ columns df !! "total_assets" = None)
  /\ (forall td ta,
        columns df !! "total_debt" = Some td ->
        columns df !! "total_assets" = Some ta ->
        finite_rows (raw_debt_ratio (epsilon cfg) td ta) = [] ->
        exists df',
          compute_debt_ratio np_log df cfg = Ok df'
          /\ columns df' !! "debt_ratio_winsorized"
             = Some (replicate (nrows df) nan)).
Proof.
  split.
  - unfold compute_debt_ratio.
    destruct (columns df !! "total_debt") as [td|] eqn:Etd;
      [|rewrite (get_column_None df _ Etd); simpl; split; auto].
    rewrite (proj2 (get_column_Ok df _ td) Etd). simpl.
    destruct (columns df !! "total_assets") as [ta|] eqn:Eta;
      [|rewrite (get_column_None df _ Eta); simpl; split; auto].
    rewrite (proj2 (get_column_Ok df _ ta) Eta). simpl.
    rewrite (proj2 (get_column_Ok _ "debt_ratio" _) (set_column_same _ _ _)).
    simpl. split; [|intros [H|H]; discriminate H].
    intros H. exfalso.
    apply bind_Raise in H as [H|(df1 & Hdf1 & H)].
    + destruct (finite_rows _); [discriminate H|].
      apply bind_Raise in H as [H|(? & _ & H)]; [|discriminate H].
      exact (winsorize_not_KeyError _ _ H).
    + assert (Hw : is_Some (columns df1 !! "debt_ratio_winsorized")).
      { destruct (finite_rows _).
        - injection Hdf1 as <-. unfold set_scalar.
          rewrite set_column_same. eauto.
        - apply bind_Ok in Hdf1 as (? & _ & Hdf1). injection Hdf1 as <-.
          rewrite set_column_same. eauto. }
      destruct Hw as [w Hw].
      rewrite (proj2 (get_column_Ok _ _ _) Hw) in H. discriminate H.
  - intros td ta Htd Hta Hclean. unfold compute_debt_ratio.
    rewrite (proj2 (get_column_Ok df _ td) Htd).
    rewrite (proj2 (get_column_Ok df _ ta) Hta). simpl.
    rewrite (proj2 (get_column_Ok _ "debt_ratio" _) (set_column_same _ _ _)).
    simpl. rewrite Hclean. simpl. unfold set_scalar.
    eexists. split.
    + rewrite (proj2 (get_column_Ok _ "debt_ratio_winsorized" _)
                 (set_column_same _ _ _)). simpl. reflexivity.
    + rewrite set_column_other by discriminate. apply set_column_same.
Qed.

Lemma compute_debt_ratio_errors_witness :
  compute_debt_ratio (fun x => x) sample_ids default_settings = Raise KeyError
  /\ exists df',
       compute_debt_ratio (fun x => x) sample_undefined sample_wide_limits
       = Ok df'
       /\ columns df' !! "debt_ratio_winsorized" = Some [nan; nan]%float.
Proof.
  split.
  - apply (proj1 (compute_debt_ratio_errors _ sample_ids default_settings)).
    left. reflexivity.
  - apply (proj2 (compute_debt_ratio_errors (fun x => x) sample_undefined
                    sample_wide_limits) [5; nan]%float [0; 3]%float).
    + reflexivity.
    + reflexivity.
    + vm_compute. reflexivity.
Defined.

(** ** Head extraction: errors and keys *)

Lemma ensure_zero_columns (h : DataFrame) (c : string) :
  is_Some (columns (ensure_zero h c) !! c)
  /\ (forall c', c' <> c ->
        columns (ensure_zero h c) !! c' = columns h !! c').
Proof.
  unfold ensure_zero. destruct (has_column h c) eqn:E.
  - apply has_column_true in E. auto.
  - unfold set_scalar. split.
    + rewrite set_column_same. eauto.
    + intros c' Hne. apply set_column_other. congruence.
Qed.

(** With the role and the birth year in the table, [heads_frame] returns,
    and it adds or drops no column but the derived ones. *)
Lemma heads_frame_total (ind_df : DataFrame) (cfg : Settings) :
  is_Some (columns ind_df !! "a2001") ->
  is_Some (columns ind_df !! "a2005") ->
  exists h,
    heads_frame ind_df cfg = Ok h
    /\ is_Some (columns h !! "head_age")
    /\ forall c,
         c ∉ ["head_age"; "a2028"; "a2029"; "head_siblings_raw";
              "head_siblings"] ->
         (is_Some (columns h !! c) <-> is_Some (columns ind_df !! c)).
Proof.
  intros [role Hrole] [birth Hbirth]. unfold heads_frame.
  rewrite (proj2 (has_column_true ind_df "a2001")) by (rewrite Hrole; eauto).
  simpl negb. cbv iota.
  rewrite (proj2 (get_column_Ok _ _ _) Hrole). simpl.
  set (h1 := filter_rows _ ind_df).
  assert (Hb1 : columns h1 !! "a2005"
                = Some (filter_by ((fun r => (r =? 1)%float) <$> role) birth)).
  { unfold h1. rewrite filter_rows_lookup, Hbirth. reflexivity. }
  rewrite (proj2 (has_column_true h1 "a2005")) by (rewrite Hb1; eauto).
  simpl negb. cbv iota.
  rewrite (proj2 (get_column_Ok _ _ _) Hb1). simpl.
  set (h2 := set_column h1 "head_age" _).
  rewrite (proj2 (get_column_Ok h2 "head_age" _) (set_column_same _ _ _)).
  simpl.
  set (h3 := filter_rows _ h2).
  assert (Hage3 : is_Some (columns h3 !! "head_age")).
  { unfold h3. rewrite filter_rows_lookup. apply fmap_is_Some.
    unfold h2. rewrite set_column_same. eauto. }
  destruct (ensure_zero_columns h3 "a2028") as ([s1 Hs1] & Ho4).
  set (h4 := ensure_zero h3 "a2028") in *.
  destruct (ensure_zero_columns h4 "a2029") as ([s2 Hs2] & Ho5).
  set (h5 := ensure_zero h4 "a2029") in *.
  assert (Hs1' : columns h5 !! "a2028" = Some s1)
    by (rewrite Ho5 by discriminate; exact Hs1).
  assert (Hage5 : is_Some (columns h5 !! "head_age"))
    by (rewrite Ho5, Ho4 by discriminate; exact Hage3).
  destruct Hage5 as [age Hage5].
  change (foldl ensure_zero h3 ["a2028"; "a2029"]) with h5.
  rewrite (proj2 (get_column_Ok _ _ _) Hs1'). simpl.
  rewrite (proj2 (get_column_Ok _ _ _) Hs2). simpl.
  set (raw := zip_with PrimFloat.add _ _).
  set (h6 := set_column h5 "head_siblings_raw" raw).
  assert (Hage6 : columns h6 !! "head_age" = Some age)
    by (unfold h6; rewrite set_column_other by discriminate; exact Hage5).
  rewrite (proj2 (get_column_Ok _ _ _) Hage6). simpl.
  rewrite (proj2 (get_column_Ok h6 "head_siblings_raw" _)
             (set_column_same _ _ _)). simpl.
  eexists. split; [reflexivity|]. split.
  { rewrite set_column_other by discriminate. rewrite Hage6. eauto. }
  intros c Hc.
  repeat (apply not_elem_of_cons in Hc as [? Hc]).
  unfold h6. rewrite !set_column_other by congruence.
  rewrite Ho5, Ho4 by assumption.
  unfold h3. rewrite filter_rows_lookup, fmap_is_Some.
  unfold h2. rewrite set_column_other by congruence.
  unfold h1. rewrite filter_rows_lookup, fmap_is_Some. reflexivity.
Qed.

Lemma heads_frame_Raise (ind_df : DataFrame) (cfg : Settings) (e : exn) :
  heads_frame ind_df cfg = Raise e
  <-> e = DataLoadError
      /\ (columns ind_df !! "a2001" = None
          \/ columns ind_df !! "a2005" = None).
Proof.
  destruct (columns ind_df !! "a2001") as [role|] eqn:Hrole.
  - destruct (columns ind_df !! "a2005") as [birth|] eqn:Hbirth.
    + destruct (heads_frame_total ind_df cfg) as (h & -> & _);
        [rewrite Hrole; eauto|rewrite Hbirth; eauto|].
      split; [discriminate|]. intros (_ & [H|H]); discriminate H.
    + unfold heads_frame.
      rewrite (proj2 (has_column_true ind_df "a2001"))
        by (rewrite Hrole; eauto).
      simpl negb. cbv iota.
      rewrite (proj2 (get_column_Ok _ _ _) Hrole). simpl.
      rewrite (proj2 (has_column_false _ "a2005"))
        by (rewrite filter_rows_lookup, Hbirth; reflexivity).
      simpl. split; [intros H; injection H as <-; auto|].
      intros (-> & _). reflexivity.
  - unfold heads_frame.
    rewrite (proj2 (has_column_false ind_df "a2001") Hrole). simpl.
    split; [intros H; injection H as <-; auto|].
    intros (-> & _). reflexivity.
Qed.

Lemma frame_of_None (n : nat) (l : list (string * list float)) (c : string) :
  c ∉ l.*1 -> columns (frame_of n l) !! c = None.
Proof.
  intros H. unfold frame_of. rewrite (foldl_set_column_notin _ l c H).
  reflexivity.
Qed.

Lemma omap_rename_source (h : DataFrame) (R : list (string * string))
    (c' : string) :
  c' ∈ (omap (fun '(c, c') => (fun col => (c', col)) <$> columns h !! c) R).*1 ->
  exists c, (c, c') ∈ R /\ is_Some (columns h !! c).
Proof.
  induction R as [|[c0 c0'] R IH]; simpl; intros H; [inversion H|].
  destruct (columns h !! c0) as [col|] eqn:E; simpl in H.
  - apply elem_of_cons in H as [->|H].
    + exists c0. split; [left|rewrite E; eauto].
    + destruct (IH H) as (c & Hc & Hs). exists c. split; [right|]; assumption.
  - destruct (IH H) as (c & Hc & Hs). exists c. split; [right|]; assumption.
Qed.

Lemma select_rename_hhid (h : DataFrame) :
  columns (select_rename h) !! "hhid" = columns h !! "hhid".
Proof.
  destruct (columns h !! "hhid") as [col|] eqn:E.
  - apply (select_rename_lookup h "hhid" "hhid"); [left|exact E].
  - unfold select_rename. apply frame_of_None. intros Hin.
    apply omap_rename_source in Hin as (c & Hc & [x Hx]).
    assert (c = "hhid").
    { apply list_elem_of_In in Hc. simpl in Hc.
      repeat (destruct Hc as [Hc|Hc]; [congruence|]). contradiction. }
    subst c. congruence.
Qed.

(** X14: the failures of [extract_heads].  It raises [DataLoadError]
    exactly when the role column [a2001] or the birth-year column [a2005]
    is absent, [KeyError] exactly when both are present and [hhid] is
    absent, and nothing else. *)
Theorem extract_heads_raises (ind_df : DataFrame) (cfg : Settings) (e : exn) :
  extract_heads ind_df cfg = Raise e
  <-> (e = DataLoadError
       /\ (columns ind_df !! "a2001" = None
           \/ columns ind_df !! "a2005" = None))
      \/ (e = KeyError
          /\ is_Some (columns ind_df !! "a2001")
          /\ is_Some (columns ind_df !! "a2005")
          /\ columns ind_df !! "hhid" = None).
Proof.
  unfold extract_heads.
  destruct (heads_frame ind_df cfg) as [h|e'] eqn:Eh; simpl.
  - assert (Hpres : is_Some (columns ind_df !! "a2001")
                    /\ is_Some (columns ind_df !! "a2005")).
    { destruct (columns ind_df !! "a2001") eqn:E1;
        [|assert (Hr : heads_frame ind_df cfg = Raise DataLoadError)
            by (apply heads_frame_Raise; auto); congruence].
      destruct (columns ind_df !! "a2005") eqn:E2;
        [|assert (Hr : heads_frame ind_df cfg = Raise DataLoadError)
            by (apply heads_frame_Raise; auto); congruence].
      eauto. }
    destruct Hpres as [H1 H5].
    destruct (heads_frame_total ind_df cfg H1 H5) as (h' & Hh' & _ & Hsame).
    rewrite Eh in Hh'. injection Hh' as <-.
    assert (Hid : is_Some (columns h !! "hhid")
                  <-> is_Some (columns ind_df !! "hhid")).
    { apply Hsame. intros Hin.
      repeat (apply elem_of_cons in Hin as [Hin|Hin]; [discriminate Hin|]).
      inversion Hin. }
    unfold get_column. rewrite select_rename_hhid.
    destruct (columns h !! "hhid") as [hid|] eqn:E; simpl.
    + split; [discriminate|].
      intros [(_ & [H|H])|(_ & _ & _ & H)].
      * rewrite H in H1. destruct H1 as [? H1]. discriminate H1.
      * rewrite H in H5. destruct H5 as [? H5]. discriminate H5.
      * assert (Hs : is_Some (columns ind_df !! "hhid"))
          by (apply Hid; eauto).
        rewrite H in Hs. destruct Hs as [? Hs]. discriminate Hs.
    + assert (Hnone : columns ind_df !! "hhid" = None).
      { destruct (columns ind_df !! "hhid") eqn:E'; [|reflexivity].
        assert (Hs : is_Some (@None (list float)))
          by (apply Hid; eauto).
        destruct Hs as [? Hs]. discriminate Hs. }
      split.
      * intros H. injection H as <-. right. auto.
      * intros [(_ & [H|H])|(-> & _)]; [| |reflexivity].
        -- rewrite H in H1. destruct H1 as [? H1]. discriminate H1.
        -- rewrite H in H5. destruct H5 as [? H5]. discriminate H5.
  - apply heads_frame_Raise in Eh as (-> & Hmiss). split.
    + intros H. injection H as <-. left. auto.
    + intros [(-> & _)|(_ & H1 & H5 & _)]; [reflexivity|].
      destruct Hmiss as [H|H].
      * rewrite H in H1. destruct H1 as [? H1]. discriminate H1.
      * rewrite H in H5. destruct H5 as [? H5]. discriminate H5.
Qed.

Lemma first_occurrence_unique (keys : list float) :
  forall seen,
    let out := filter_by (first_occurrence seen keys) keys in
    (forall x s, x ∈ out -> s ∈ seen -> key_eq x s = false)
    /\ unique_keys out.
Proof.
  induction keys as [|k keys IH]; intros seen; cbn [first_occurrence filter_by].
  - split; [intros x s Hx; inversion Hx|].
    intros i j x y Hi. discriminate Hi.
  - destruct (IH (k :: seen)) as [Hseen Huniq]. cbv zeta in Hseen, Huniq.
    destruct (existsb (key_eq k) seen) eqn:E; cbn [negb]; cbv zeta.
    + split; [|exact Huniq].
      intros x s Hx Hs. apply (Hseen x s Hx). right. exact Hs.
    + assert (Hk : forall s, s ∈ seen -> key_eq k s = false).
      { intros s Hs. destruct (key_eq k s) eqn:Ek; [|reflexivity].
        assert (Ht : existsb (key_eq k) seen = true).
        { apply existsb_exists. exists s.
          split; [apply list_elem_of_In; exact Hs|exact Ek]. }
        congruence. }
      split.
      * intros x s Hx Hs. apply elem_of_cons in Hx as [->|Hx].
        -- apply Hk. exact Hs.
        -- apply (Hseen x s Hx). right. exact Hs.
      * intros [|i] [|j] x y Hi Hj Heq; simpl in Hi, Hj.
        -- reflexivity.
        -- exfalso. injection Hi as <-.
           assert (Hy : key_eq y k = false).
           { apply Hseen; [exact (list_elem_of_lookup_2 _ _ _ Hj)|left]. }
           rewrite key_eq_sym in Hy. congruence.
        -- exfalso. injection Hj as <-.
           assert (Hx : key_eq x k = false).
           { apply Hseen; [exact (list_elem_of_lookup_2 _ _ _ Hi)|left]. }
           congruence.
        -- f_equal. exact (Huniq i j x y Hi Hj Heq).
Qed.

Lemma extract_heads_Ok_inv (ind_df : DataFrame) (cfg : Settings)
    (res : DataFrame) :
  extract_heads ind_df cfg = Ok res ->
  exists h hid,
    heads_frame ind_df cfg = Ok h
    /\ columns h !! "hhid" = Some hid
    /\ res = filter_rows (first_occurrence [] hid) (select_rename h).
Proof.
  unfold extract_heads. intros H.
  apply bind_Ok in H as (h & Hh & H).
  apply bind_Ok in H as (hid & Hhid & H). injection H as <-.
  apply get_column_Ok in Hhid. rewrite select_rename_hhid in Hhid.
  exists h, hid. auto.
Qed.

(** X15: [extract_heads] returns a table keyed on [hhid]: no two of its
    rows carry the same household id, and every id it returns is the id of
    some head of the input. *)
Theorem extract_heads_unique_keys (ind_df : DataFrame) (cfg : Settings)
    (res : DataFrame) :
  extract_heads ind_df cfg = Ok res ->
  exists ids hid,
    columns ind_df !! "hhid" = Some ids
    /\ columns res !! "hhid" = Some hid
    /\ unique_keys hid
    /\ forall k, k ∈ hid -> k ∈ ids.
Proof.
  intros H. apply extract_heads_Ok_inv in H as (h & hid & Hh & Hhid & ->).
  assert (Hids : exists ids role age0,
            columns ind_df !! "hhid" = Some ids
            /\ hid = filter_by age0 (filter_by role ids)).
  { unfold heads_frame in Hh.
    destruct (has_column ind_df "a2001"); simpl in Hh; [|discriminate Hh].
    apply bind_Ok in Hh as (role & _ & Hh).
    destruct (has_column _ "a2005"); simpl in Hh; [|discriminate Hh].
    apply bind_Ok in Hh as (birth & _ & Hh).
    apply bind_Ok in Hh as (age & _ & Hh).
    apply bind_Ok in Hh as (s1 & _ & Hh).
    apply bind_Ok in Hh as (s2 & _ & Hh).
    apply bind_Ok in Hh as (age' & _ & Hh).
    apply bind_Ok in Hh as (raw & _ & Hh).
    injection Hh as <-.
    rewrite !set_column_other in Hhid by discriminate.
    destruct (ensure_zero_columns
                (ensure_zero
                   (filter_rows
                      ((fun a => (float_of_Z (head_min_age cfg) <=? a)%float)
                         <$> age)
                      (set_column
                         (filter_rows ((fun r => (r =? 1)%float) <$> role)
                            ind_df)
                         "head_age"
                         ((fun b => (float_of_Z (survey_year cfg) - b)%float)
                            <$> birth)))
                   "a2028") "a2029") as [_ Ho5].
    destruct (ensure_zero_columns
                (filter_rows
                   ((fun a => (float_of_Z (head_min_age cfg) <=? a)%float)
                      <$> age)
                   (set_column
                      (filter_rows ((fun r => (r =? 1)%float) <$> role)
                         ind_df)
                      "head_age"
                      ((fun b => (float_of_Z (survey_year cfg) - b)%float)
                         <$> birth)))
                "a2028") as [_ Ho4].
    cbn [foldl] in Hhid.
    rewrite Ho5, Ho4 in Hhid by discriminate.
    rewrite filter_rows_lookup in Hhid.
    rewrite set_column_other in Hhid by discriminate.
    rewrite filter_rows_lookup in Hhid.
    destruct (columns ind_df !! "hhid") as [ids|]; [|discriminate Hhid].
    simpl in Hhid. injection Hhid as <-. eauto. }
  destruct Hids as (ids & role & age0 & Hids & ->).
  exists ids, (filter_by (first_occurrence [] (filter_by age0 (filter_by role ids)))
                 (filter_by age0 (filter_by role ids))).
  split; [exact Hids|]. split.
  { rewrite filter_rows_lookup, select_rename_hhid, Hhid. reflexivity. }
  split.
  { exact (proj2 (first_occurrence_unique _ [])). }
  intros k Hk. do 3 apply filter_by_elem in Hk. exact Hk.
Qed.

Lemma extract_heads_unique_keys_witness :
  exists res hid,
    extract_heads sample_individuals default_settings = Ok res
    /\ columns res !! "hhid" = Some hid
    /\ unique_keys hid.
Proof.
  assert (Hrun : exists res,
    extract_heads sample_individuals default_settings = Ok res)
    by (vm_compute; eauto).
  destruct Hrun as [res Hrun].
  destruct (extract_heads_unique_keys _ _ _ Hrun)
    as (ids & hid & _ & Hhid & Hu & _).
  exists res, hid. auto.
Defined.

(** ** Merging the extracted heads *)

Lemma foldl_set_column_colnames (l : list (string * list float)) :
  forall df,
    exists more,
      colnames (foldl (fun df '(name, col) => set_column df name col) df l)
      = colnames df ++ more.
Proof.
  induction l as [|[c col] l IH]; intros df; simpl.
  - exists []. rewrite app_nil_r. reflexivity.
  - destruct (IH (set_column df c col)) as [more Hmore]. rewrite Hmore.
    simpl. destruct (bool_decide (c ∈ colnames df)).
    + exists more. reflexivity.
    + exists (c :: more). rewrite <- app_assoc. reflexivity.
Qed.

(** The head table lists [hhid] first and [head_age] second. *)
Lemma select_rename_colnames (h : DataFrame) :
  is_Some (columns h !! "hhid") -> is_Some (columns h !! "head_age") ->
  exists more, colnames (select_rename h) = "hhid" :: "head_age" :: more.
Proof.
  intros [hid Hhid] [age Hage]. unfold select_rename, HEAD_COLS_MAP.
  cbn [omap list_omap]. rewrite Hhid, Hage. cbn [fmap option_fmap option_map].
  unfold frame_of. cbn [foldl].
  match goal with
  | |- context [foldl ?f ?d ?l] =>
      destruct (foldl_set_column_colnames l d) as [more Hmore]
  end.
  rewrite Hmore. exists more. reflexivity.
Qed.

(** X16: the head table of [extract_heads] can always be merged.  Joined to
    a household table that has an [hhid] column and none of the head
    columns, it does not trip the row-count guard of
    [merge_head_into_household]: the merge returns, with one row per
    household and with the head's age as a column. *)
Theorem merge_extracted_heads (hh_df ind_df heads : DataFrame)
    (cfg : Settings) (lk : list float) :
  well_formed hh_df ->
  columns hh_df !! "hhid" = Some lk ->
  extract_heads ind_df cfg = Ok heads ->
  (forall c, c ∈ HEAD_COLS_MAP.*2 -> c <> "hhid" -> c ∉ colnames hh_df) ->
  exists m,
    merge_head_into_household hh_df heads = Ok m
    /\ nrows m = nrows hh_df
    /\ is_Some (columns m !! "head_age").
Proof.
  intros Hwf Hlk Hex Hdisj.
  assert (Hnin : "head_age" ∉ colnames hh_df).
  { apply Hdisj; [|discriminate].
    apply (bool_decide_unpack _). vm_compute. exact I. }
  apply extract_heads_Ok_inv in Hex as (h & hid & Hh & Hhid & ->).
  set (keep := first_occurrence [] hid).
  remember (filter_rows keep (select_rename h)) as heads eqn:Hheads.
  assert (Hage : is_Some (columns h !! "head_age")).
  { destruct (columns ind_df !! "a2001") eqn:E1;
      [|assert (Hr : heads_frame ind_df cfg = Raise DataLoadError)
          by (apply heads_frame_Raise; auto); congruence].
    destruct (columns ind_df !! "a2005") eqn:E2;
      [|assert (Hr : heads_frame ind_df cfg = Raise DataLoadError)
          by (apply heads_frame_Raise; auto); congruence].
    destruct (heads_frame_total ind_df cfg) as (h' & Hh' & Ha & _);
      [rewrite E1; eauto|rewrite E2; eauto|].
    congruence. }
  destruct Hage as [age Hage].
  assert (Hrk : columns heads !! "hhid" = Some (filter_by keep hid)).
  { rewrite Hheads, filter_rows_lookup, select_rename_hhid, Hhid.
    reflexivity. }
  assert (Hu : unique_keys (filter_by keep hid))
    by exact (proj2 (first_occurrence_unique hid [])).
  destruct (select_rename_colnames h) as [more Hnames];
    [rewrite Hhid; eauto|rewrite Hage; eauto|].
  assert (Hcn : colnames heads = "hhid" :: "head_age" :: more)
    by (rewrite Hheads; exact Hnames).
  assert (Hcol : columns heads !! "head_age" = Some (filter_by keep age)).
  { rewrite Hheads, filter_rows_lookup.
    rewrite (select_rename_lookup h "head_age" "head_age" age);
      [reflexivity|right; left|exact Hage]. }
  destruct (pd_merge_left_Ok hh_df heads lk _ Hlk Hrk)
    as (m & Hm & Hn & Hfirst).
  assert (E : nrows m = nrows hh_df).
  { rewrite Hn, merge_plan_length, <- (Hwf _ _ Hlk).
    apply (sum_max1_length (fun k => length (matches k (filter_by keep hid)))).
    apply Forall_forall. intros k _. apply unique_keys_matches. exact Hu. }
  unfold merge_head_into_household. rewrite Hm. simpl.
  rewrite (proj2 (Nat.eqb_eq _ _) E). simpl. rewrite Hcn. simpl.
  assert (Hin : "head_age" ∈ colnames heads)
    by (rewrite Hcn; right; left).
  destruct (Hfirst "head_age" _ Hin eq_refl Hnin Hcol) as [x Hx].
  rewrite (proj2 (get_column_Ok _ _ _) Hx). simpl.
  exists m. split; [reflexivity|]. split; [exact E|]. rewrite Hx. eauto.
Qed.

Lemma merge_extracted_heads_witness :
  exists heads m,
    extract_heads sample_individuals default_settings = Ok heads
    /\ merge_head_into_household sample_households heads = Ok m
    /\ nrows m = 2%nat.
Proof.
  assert (Hrun : exists heads,
    extract_heads sample_individuals default_settings = Ok heads)
    by (vm_compute; eauto).
  destruct Hrun as [heads Hrun].
  destruct (merge_extracted_heads sample_households sample_individuals heads
              default_settings [1; 2]%float) as (m & Hm & Hn & _).
  - apply well_formed_frame_of. repeat constructor.
  - reflexivity.
  - exact Hrun.
  - intros c Hc Hne Hin.
    change (c ∈ ["hhid"; "income"]) in Hin.
    apply elem_of_cons in Hin as [->|Hin]; [congruence|].
    apply elem_of_cons in Hin as [->|Hin]; [|inversion Hin].
    revert Hc. apply (bool_decide_unpack _). vm_compute. exact I.
  - exists heads, m. split; [exact Hrun|]. split; [exact Hm|exact Hn].
Defined.

(** ** The left join, row by row *)

Lemma foldl_set_column_same_data (l : list (string * list float)) :
  forall (df : DataFrame) (c : string) (col : list float),
    (c, col) ∈ l ->
    (forall col', (c, col') ∈ l -> col' = col) ->
    columns (foldl (fun df '(name, col) => set_column df name col) df l) !! c
    = Some col.
Proof.
  induction l as [|[c0 col0] l IH]; intros df c col Hin Hsame;
    [inversion Hin|].
  simpl. destruct (decide (c ∈ l.*1)) as [Hc|Hc].
  - apply list_elem_of_fmap in Hc as ([c1 col1] & Heq & Hc1).
    simpl in Heq. subst c1.
    assert (col1 = col) by (apply Hsame; right; exact Hc1). subst col1.
    apply IH; [exact Hc1|]. intros col' H'. apply Hsame. right. exact H'.
  - rewrite (foldl_set_column_notin _ l c Hc).
    apply elem_of_cons in Hin as [Heq|Hin].
    + injection Heq as -> ->. apply set_column_same.
    + exfalso. apply Hc. apply list_elem_of_fmap.
      exists (c, col). split; [reflexivity|exact Hin].
Qed.

(** With unique right keys, each left row is joined to at most one right
    row. *)
Lemma merge_plan_unique (rk : list float) :
  unique_keys rk ->
  forall lk,
    merge_plan lk rk = imap (fun i k => (i, matches k rk !! 0%nat)) lk.
Proof.
  intros Hu lk. unfold merge_plan.
  assert (Hrow : forall i k,
            join_row rk i k = [(i, matches k rk !! 0%nat)]).
  { intros i k. unfold join_row.
    pose proof (unique_keys_matches rk k Hu) as Hlen.
    destruct (matches k rk) as [|j [|j' js]]; simpl in *;
      [reflexivity|reflexivity|lia]. }
  assert (Hgen : forall (f : nat -> nat) l,
            concat (imap (fun i k => join_row rk (f i) k) l)
            = imap (fun i k => (f i, matches k rk !! 0%nat)) l).
  { intros f l. revert f. induction l as [|k l IH]; intros f; simpl;
      [reflexivity|].
    rewrite Hrow. simpl. f_equal. exact (IH (f ∘ S)). }
  exact (Hgen (fun i => i) lk).
Qed.

Lemma pd_merge_left_columns (left right m : DataFrame)
    (lk rk : list float) :
  columns left !! "hhid" = Some lk ->
  columns right !! "hhid" = Some rk ->
  (forall c, c ∈ colnames right -> c <> "hhid" -> c ∉ colnames left) ->
  pd_merge_left left right = Ok m ->
  nrows m = length (merge_plan lk rk)
  /\ (forall c col,
        c ∈ colnames left -> columns left !! c = Some col ->
        columns m !! c
        = Some ((fun p : nat * option nat => default nan (col !! p.1))
                  <$> merge_plan lk rk))
  /\ (forall c col,
        c ∈ colnames right -> c <> "hhid" -> columns right !! c = Some col ->
        columns m !! c
        = Some ((fun p : nat * option nat =>
                   default nan (j ← p.2; col !! j))
                  <$> merge_plan lk rk)).
Proof.
  intros Hlk Hrk Hdisj Hm. unfold pd_merge_left in Hm.
  rewrite (proj2 (get_column_Ok _ _ _) Hlk) in Hm. simpl in Hm.
  rewrite (proj2 (get_column_Ok _ _ _) Hrk) in Hm. simpl in Hm.
  injection Hm as <-.
  assert (Hov : forall c,
            negb (String.eqb c "hhid")
            && bool_decide (c ∈ colnames left)
            && bool_decide (c ∈ colnames right) = false).
  { intros c. destruct (String.eqb c "hhid") eqn:E; [reflexivity|].
    apply String.eqb_neq in E. simpl.
    destruct (bool_decide (c ∈ colnames right)) eqn:Er;
      [|apply andb_false_r].
    apply bool_decide_eq_true in Er.
    rewrite (bool_decide_eq_false_2 _ (Hdisj c Er E)). reflexivity. }
  split; [unfold frame_of; rewrite foldl_set_column_nrows; reflexivity|].
  split.
  - intros c col Hc Hcol. unfold frame_of.
    apply foldl_set_column_same_data.
    + apply elem_of_app. left. apply list_elem_of_omap.
      exists c. split; [exact Hc|]. rewrite Hcol, Hov. reflexivity.
    + intros col' Hin. apply elem_of_app in Hin as [Hin|Hin].
      * apply list_elem_of_omap in Hin as (c0 & Hc0 & Hf).
        destruct (columns left !! c0) as [col0|] eqn:E0; [|discriminate Hf].
        simpl in Hf. rewrite Hov in Hf. injection Hf as -> <-.
        rewrite Hcol in E0. injection E0 as <-. reflexivity.
      * exfalso. apply list_elem_of_omap in Hin as (c0 & Hc0 & Hf).
        pose proof (Hov c0) as Hov0.
        destruct (String.eqb c0 "hhid") eqn:E; [discriminate Hf|].
        apply String.eqb_neq in E.
        destruct (columns right !! c0) as [col0|]; [|discriminate Hf].
        simpl in Hf, Hov0. rewrite Hov0 in Hf. injection Hf as -> _.
        exact (Hdisj c Hc0 E Hc).
  - intros c col Hc Hne Hcol. unfold frame_of.
    apply foldl_set_column_same_data.
    + apply elem_of_app. right. apply list_elem_of_omap.
      exists c. split; [exact Hc|].
      pose proof (Hov c) as Hov0.
      rewrite (proj2 (String.eqb_neq c "hhid") Hne) in Hov0 |- *.
      rewrite Hcol. simpl in Hov0 |- *. rewrite Hov0. reflexivity.
    + intros col' Hin. apply elem_of_app in Hin as [Hin|Hin].
      * exfalso. apply list_elem_of_omap in Hin as (c0 & Hc0 & Hf).
        destruct (columns left !! c0) as [col0|]; [|discriminate Hf].
        simpl in Hf. rewrite Hov in Hf. injection Hf as -> _.
        exact (Hdisj c Hc Hne Hc0).
      * apply list_elem_of_omap in Hin as (c0 & Hc0 & Hf).
        pose proof (Hov c0) as Hov0.
        destruct (String.eqb c0 "hhid") eqn:E; [discriminate Hf|].
        destruct (columns right !! c0) as [col0|] eqn:E0; [|discriminate Hf].
        simpl in Hf, Hov0. rewrite Hov0 in Hf. injection Hf as -> <-.
        rewrite Hcol in E0. injection E0 as <-. reflexivity.
Qed.

(** X17: the merge is a left join on [hhid].  For a head table with unique
    keys that shares no column but [hhid] with the households, the merged
    table keeps every household column as it was, and a head column holds,
    in each household's row, the value of the head with that household id,
    or NaN when no head has it. *)
Theorem merge_left_join_rows (hh_df head_df m : DataFrame)
    (lk rk : list float) :
  well_formed hh_df ->
  columns hh_df !! "hhid" = Some lk ->
  columns head_df !! "hhid" = Some rk ->
  unique_keys rk ->
  (forall c, c ∈ colnames head_df -> c <> "hhid" -> c ∉ colnames hh_df) ->
  merge_head_into_household hh_df head_df = Ok m ->
  (forall c col,
     c ∈ colnames hh_df -> columns hh_df !! c = Some col ->
     columns m !! c = Some col)
  /\ (forall c col,
        c ∈ colnames head_df -> c <> "hhid" ->
        columns head_df !! c = Some col ->
        exists mc,
          columns m !! c = Some mc
          /\ length mc = nrows hh_df
          /\ forall i k, lk !! i = Some k ->
               (matches k rk = [] -> mc !! i = Some nan)
               /\ (forall j, matches k rk = [j] ->
                     mc !! i = Some (default nan (col !! j)))).
Proof.
  intros Hwf Hlk Hrk Hu Hdisj Hm.
  unfold merge_head_into_household in Hm.
  apply bind_Ok in Hm as (m0 & Hm0 & Hm).
  destruct (negb _); [discriminate Hm|].
  apply bind_Ok in Hm as (first & _ & Hm).
  apply bind_Ok in Hm as (x & _ & Hm). injection Hm as <-.
  destruct (pd_merge_left_columns _ _ _ lk rk Hlk Hrk Hdisj Hm0)
    as (_ & Hleft & Hright).
  rewrite (merge_plan_unique rk Hu lk) in Hleft, Hright.
  pose proof (Hwf _ _ Hlk) as Hlen.
  split.
  - intros c col Hc Hcol. rewrite (Hleft c col Hc Hcol). f_equal.
    pose proof (Hwf _ _ Hcol) as Hlc.
    apply list_eq. intros i.
    rewrite list_lookup_fmap, list_lookup_imap.
    destruct (lk !! i) as [k|] eqn:Ek; simpl.
    + destruct (lookup_lt_is_Some_2 col i) as [v Hv].
      { rewrite Hlc, <- Hlen. apply lookup_lt_is_Some. eauto. }
      rewrite Hv. reflexivity.
    + symmetry. apply lookup_ge_None. apply lookup_ge_None in Ek. lia.
  - intros c col Hc Hne Hcol. eexists. split; [exact (Hright c col Hc Hne Hcol)|].
    split; [rewrite length_fmap, length_imap; exact Hlen|].
    intros i k Hk. split.
    + intros Hnone. rewrite list_lookup_fmap, list_lookup_imap, Hk. simpl.
      rewrite Hnone. reflexivity.
    + intros j Hj. rewrite list_lookup_fmap, list_lookup_imap, Hk. simpl.
      rewrite Hj. reflexivity.
Qed.

Lemma merge_left_join_rows_witness :
  exists m,
    merge_head_into_household sample_households sample_heads = Ok m
    /\ columns m !! "income" = Some [100; 200]%float
    /\ exists mc, columns m !! "head_age" = Some mc /\ length mc = 2%nat.
Proof.
  assert (Hrun : exists m,
    merge_head_into_household sample_households sample_heads = Ok m)
    by (vm_compute; eauto).
  destruct Hrun as [m Hrun].
  destruct (merge_left_join_rows sample_households sample_heads m
              [1; 2]%float [1; 2]%float) as [Hleft Hright].
  - apply well_formed_frame_of. repeat constructor.
  - reflexivity.
  - reflexivity.
  - intros i j x y Hi Hj Heq.
    destruct i as [|[|i]]; destruct j as [|[|j]]; simpl in Hi, Hj;
      try discriminate; try reflexivity;
      injection Hi as <-; injection Hj as <-; vm_compute in Heq;
      discriminate Heq.
  - intros c Hc Hne Hin.
    apply (bool_decide_unpack _) in Hc || idtac.
    repeat (apply elem_of_cons in Hc as [->|Hc]; [|]);
      try (inversion Hc); try congruence.
    repeat (apply elem_of_cons in Hin as [Hin|Hin]; [discriminate Hin|]).
    inversion Hin.
  - exact Hrun.
  - exists m. split; [exact Hrun|]. split.
    + apply Hleft; [|reflexivity]. right. left.
    + destruct (Hright "head_age" [30; 40]%float) as (mc & Hmc & Hl & _).
      * right. left.
      * discriminate.
      * reflexivity.
      * exists mc. split; [exact Hmc|exact Hl].
Defined.

(** ** The validator: what a valid report means *)

Lemma count_where_zero {A} (p : A -> bool) (l : list A) :
  (0 <? count_where p l)%nat = false <-> forall x, x ∈ l -> p x = false.
Proof.
  rewrite Nat.ltb_ge. induction l as [|y l IH]; simpl.
  - split; [intros _ x Hx; inversion Hx|lia].
  - split.
    + intros H x Hx. destruct (p y) eqn:Ey; [lia|].
      apply elem_of_cons in Hx as [->|Hx]; [exact Ey|].
      apply IH; [lia|exact Hx].
    + intros H. rewrite (H y) by left.
      assert (count_where p l <= 0)%nat; [|lia].
      apply IH. intros x Hx. apply H. right. exact Hx.
Qed.

Lemma check_values_errors (cs : ColumnSchema) (non_null : list float)
    (v : Violation) :
  v ∈ check_values cs non_null -> is_error v = true.
Proof.
  unfold check_values. intros H.
  repeat (apply elem_of_app in H as [H|H]);
    repeat match type of H with
           | _ ∈ match ?o with _ => _ end => destruct o
           | _ ∈ (if ?b then _ else _) => destruct b
           end;
    try (inversion H; fail);
    apply elem_of_cons in H as [->|H]; try reflexivity; inversion H.
Qed.

Lemma check_values_nil (cs : ColumnSchema) (non_null : list float) :
  check_values cs non_null = []
  <-> forall x, x ∈ non_null -> cell_conforms cs x.
Proof.
  unfold check_values, cell_conforms. split.
  - intros H x Hx.
    apply app_eq_nil in H as [Hmin H].
    apply app_eq_nil in H as [Hmax H].
    apply app_eq_nil in H as [Hal Hinf].
    split; [|split; [|split]].
    + intros lo Hlo. rewrite Hlo in Hmin.
      destruct (0 <? _)%nat eqn:E; [discriminate Hmin|].
      exact (proj1 (count_where_zero _ _) E x Hx).
    + intros hi Hhi. rewrite Hhi in Hmax.
      destruct (0 <? _)%nat eqn:E; [discriminate Hmax|].
      exact (proj1 (count_where_zero _ _) E x Hx).
    + intros allowed Ha. rewrite Ha in Hal.
      destruct (0 <? _)%nat eqn:E; [discriminate Hal|].
      apply negb_false_iff.
      exact (proj1 (count_where_zero _ _) E x Hx).
    + destruct (0 <? _)%nat eqn:E; [discriminate Hinf|].
      exact (proj1 (count_where_zero _ _) E x Hx).
  - intros H.
    assert (Hmin : forall lo, min_value cs = Some lo ->
              (0 <? count_where (fun x => (x <? lo)%float) non_null)%nat
              = false).
    { intros lo Hlo. apply count_where_zero. intros x Hx.
      exact (proj1 (H x Hx) lo Hlo). }
    assert (Hmax : forall hi, max_value cs = Some hi ->
              (0 <? count_where (fun x => (hi <? x)%float) non_null)%nat
              = false).
    { intros hi Hhi. apply count_where_zero. intros x Hx.
      exact (proj1 (proj2 (H x Hx)) hi Hhi). }
    assert (Hal : forall allowed, allowed_values cs = Some allowed ->
              (0 <? count_where
                      (fun x => negb (existsb (fun a => (x =? a)%float)
                                        allowed)) non_null)%nat = false).
    { intros allowed Ha. apply count_where_zero. intros x Hx.
      apply negb_false_iff.
      exact (proj1 (proj2 (proj2 (H x Hx))) allowed Ha). }
    assert (Hinf : (0 <? count_where PrimFloat.is_infinity non_null)%nat
                   = false).
    { apply count_where_zero. intros x Hx.
      exact (proj2 (proj2 (proj2 (H x Hx)))). }
    destruct (min_value cs) as [lo|]; [rewrite (Hmin lo eq_refl)|];
    destruct (max_value cs) as [hi|]; try rewrite (Hmax hi eq_refl);
    destruct (allowed_values cs) as [al|]; try rewrite (Hal al eq_refl);
    rewrite Hinf; reflexivity.
Qed.

Lemma check_nullability_errors (cs : ColumnSchema) (series : list float) :
  (forall v, v ∈ check_nullability cs series -> is_error v = false)
  <-> (nullable cs = false -> forall x, x ∈ series -> Cell.isna x = false).
Proof.
  unfold check_nullability.
  destruct (0 <? count_where Cell.isna series)%nat eqn:E.
  - assert (Hex : exists x, x ∈ series /\ Cell.isna x = true).
    { apply Nat.ltb_lt, existsb_count_where, existsb_exists in E
        as (x & Hx & Hna).
      exists x. split; [apply list_elem_of_In; exact Hx|exact Hna]. }
    destruct Hex as (x & Hx & Hna).
    destruct (nullable cs); simpl.
    + split; [intros _ H; discriminate H|]. intros _ v Hv.
      destruct (80 <? _)%float; [|inversion Hv].
      apply elem_of_cons in Hv as [->|Hv]; [reflexivity|inversion Hv].
    + split.
      * intros H. specialize (H _ (list_elem_of_here _ _)). discriminate H.
      * intros H. specialize (H eq_refl x Hx). congruence.
  - split; [|intros _ v Hv; inversion Hv].
    intros _ _ x Hx. exact (proj1 (count_where_zero _ _) E x Hx).
Qed.

Lemma check_column_conforms (df : DataFrame) (cs : ColumnSchema) :
  (forall v, v ∈ _check_column df cs -> is_error v = false)
  <-> column_conforms df cs.
Proof.
  unfold _check_column, column_conforms.
  destruct (columns df !! name cs) as [series|] eqn:Es.
  - set (non_null := filter (fun x => Cell.isna x = false) series).
    assert (Hnn : forall x, x ∈ non_null
                  <-> x ∈ series /\ Cell.isna x = false).
    { intros x. unfold non_null. rewrite list_elem_of_filter. tauto. }
    assert (Hval : (forall v, v ∈ check_values cs non_null ->
                      is_error v = false)
                   <-> forall x, x ∈ series -> Cell.isna x = false ->
                         cell_conforms cs x).
    { split.
      - intros H x Hx Hna. apply (proj1 (check_values_nil cs non_null)).
        + pose proof (check_values_errors cs non_null) as Herr.
          destruct (check_values cs non_null) as [|v vs]; [reflexivity|].
          specialize (Herr v (list_elem_of_here _ _)).
          rewrite (H v) in Herr by left. discriminate Herr.
        + apply Hnn. auto.
      - intros H v Hv.
        assert (E : check_values cs non_null = []).
        { apply check_values_nil. intros x Hx. apply Hnn in Hx as [Hx Hna].
          exact (H x Hx Hna). }
        rewrite E in Hv. inversion Hv. }
    destruct non_null as [|y ys] eqn:Enn.
    + split.
      * intros H. exists series. split; [reflexivity|].
        split; [apply check_nullability_errors; exact H|].
        intros x Hx Hna. exfalso.
        assert (Hin : x ∈ @nil float) by (apply Hnn; auto).
        inversion Hin.
      * intros (s & Heq & Hnull & _). injection Heq as <-.
        apply check_nullability_errors. exact Hnull.
    + split.
      * intros H. exists series. split; [reflexivity|]. split.
        -- apply check_nullability_errors. intros v Hv. apply H.
           apply elem_of_app. left. exact Hv.
        -- apply Hval. intros v Hv. apply H. apply elem_of_app. right.
           exact Hv.
      * intros (s & Heq & Hnull & Hcells) v Hv. injection Heq as <-.
        apply elem_of_app in Hv as [Hv|Hv].
        -- exact (proj2 (check_nullability_errors cs series) Hnull v Hv).
        -- exact (proj2 Hval Hcells v Hv).
  - split.
    + intros H. specialize (H _ (list_elem_of_here _ _)). discriminate H.
    + intros (s & Heq & _). discriminate Heq.
Qed.

(** X18: what a valid report means.  [validate] reports the table valid
    exactly when every column of the schema is present, has no undefined
    cell unless its entry is nullable, and has every defined cell within
    the entry's bounds, among its allowed values if it has any, and
    finite. *)
Theorem validate_valid_iff (df : DataFrame) (schema : list ColumnSchema) :
  is_valid (validate df schema) = true
  <-> forall cs, cs ∈ schema -> column_conforms df cs.
Proof.
  unfold is_valid, validate. simpl. rewrite negb_true_iff.
  split.
  - intros H cs Hcs. apply check_column_conforms. intros v Hv.
    destruct (is_error v) eqn:E; [|reflexivity].
    assert (Ht : existsb is_error (concat (_check_column df <$> schema))
                 = true).
    { apply existsb_exists. exists v. split; [|exact E].
      apply list_elem_of_In, elem_of_concat.
      exists (_check_column df cs). split; [exact Hv|].
      apply list_elem_of_fmap. exists cs. auto. }
    congruence.
  - intros H.
    destruct (existsb is_error (concat (_check_column df <$> schema)))
      eqn:E; [|reflexivity].
    apply existsb_exists in E as (v & Hv & He).
    apply list_elem_of_In, elem_of_concat in Hv as (l & Hv & Hl).
    apply list_elem_of_fmap in Hl as (cs & -> & Hcs).
    rewrite (proj2 (check_column_conforms df cs) (H cs Hcs) v Hv) in He.
    discriminate He.
Qed.

Lemma check_column_shape (df : DataFrame) (cs : ColumnSchema)
    (v : Violation) :
  v ∈ _check_column df cs ->
  column v = name cs
  /\ (severity v = "ERROR"
      \/ (severity v = "WARNING" /\ rule v = "HIGH_MISSING")).
Proof.
  assert (Hnull : forall series,
            v ∈ check_nullability cs series ->
            column v = name cs
            /\ (severity v = "ERROR"
                \/ (severity v = "WARNING" /\ rule v = "HIGH_MISSING"))).
  { intros series. unfold check_nullability.
    destruct (0 <? _)%nat; [|intros H; inversion H].
    destruct (nullable cs); simpl.
    - destruct (80 <? _)%float; intros H; [|inversion H].
      apply elem_of_cons in H as [->|H]; [auto|inversion H].
    - intros H. apply elem_of_cons in H as [->|H]; [auto|inversion H]. }
  assert (Hval : forall non_null,
            v ∈ check_values cs non_null ->
            column v = name cs /\ severity v = "ERROR").
  { intros non_null. unfold check_values. intros H.
    repeat (apply elem_of_app in H as [H|H]);
      repeat match type of H with
             | _ ∈ match ?o with _ => _ end => destruct o
             | _ ∈ (if ?b then _ else _) => destruct b
             end;
      try (inversion H; fail);
      apply elem_of_cons in H as [->|H]; try (split; reflexivity);
      inversion H. }
  unfold _check_column. destruct (columns df !! name cs) as [series|].
  - destruct (filter _ series) as [|y ys].
    + apply Hnull.
    + intros H. apply elem_of_app in H as [H|H]; [exact (Hnull _ H)|].
      destruct (Hval _ H) as [Hc Hs]. auto.
  - intros H. apply elem_of_cons in H as [->|H]; [auto|inversion H].
Qed.

Lemma check_column_length (df : DataFrame) (cs : ColumnSchema) :
  (length (_check_column df cs) <= 5)%nat.
Proof.
  assert (Hnull : forall series,
            (length (check_nullability cs series) <= 1)%nat).
  { intros series. unfold check_nullability.
    destruct (0 <? _)%nat; [|simpl; lia].
    destruct (nullable cs); simpl; [|lia].
    destruct (80 <? _)%float; simpl; lia. }
  assert (Hval : forall non_null,
            (length (check_values cs non_null) <= 4)%nat).
  { intros non_null. unfold check_values. rewrite !length_app.
    destruct (min_value cs); [destruct (0 <? _)%nat|];
    destruct (max_value cs); try destruct (0 <? _)%nat;
    destruct (allowed_values cs); try destruct (0 <? _)%nat;
    destruct (0 <? count_where PrimFloat.is_infinity non_null)%nat;
    simpl; lia. }
  unfold _check_column. destruct (columns df !! name cs) as [series|];
    [|simpl; lia].
  destruct (filter _ series) as [|y ys].
  - specialize (Hnull series). lia.
  - rewrite length_app. specialize (Hnull series).
    specialize (Hval (y :: ys)). lia.
Qed.

Lemma count_where_partition {A} (p q : A -> bool) (l : list A) :
  (forall x, x ∈ l -> xorb (p x) (q x) = true) ->
  (count_where p l + count_where q l = length l)%nat.
Proof.
  induction l as [|x l IH]; intros H; simpl; [reflexivity|].
  specialize (IH (fun y Hy => H y (list_elem_of_further _ _ _ Hy))).
  specialize (H x (list_elem_of_here _ _)).
  destruct (p x), (q x); simpl in H; try discriminate H; lia.
Qed.

Lemma validate_length (df : DataFrame) (schema : list ColumnSchema) :
  (length (violations (validate df schema)) <= 5 * length schema)%nat.
Proof.
  unfold validate. cbn [violations].
  induction schema as [|cs schema IH]; [simpl; lia|].
  rewrite fmap_cons. cbn [concat length]. rewrite length_app.
  pose proof (check_column_length df cs). lia.
Qed.

(** X19: the shape of a report.  Every violation [validate] reports names
    a column of the schema and is either an error or the [HIGH_MISSING]
    warning; so errors and warnings add up to the number of violations,
    the report is valid exactly when it counts no error, and a schema
    entry yields at most five violations. *)
Theorem validate_report_shape (df : DataFrame) (schema : list ColumnSchema) :
  let report := validate df schema in
  (forall v, v ∈ violations report ->
     (exists cs, cs ∈ schema /\ column v = name cs)
     /\ (severity v = "ERROR"
         \/ (severity v = "WARNING" /\ rule v = "HIGH_MISSING")))
  /\ (error_count report + warning_count report
      = length (violations report))%nat
  /\ (is_valid report = true <-> error_count report = 0%nat)
  /\ (length (violations report) <= 5 * length schema)%nat.
Proof.
  intros report.
  assert (Hshape : forall v, v ∈ violations report ->
            (exists cs, cs ∈ schema /\ column v = name cs)
            /\ (severity v = "ERROR"
                \/ (severity v = "WARNING" /\ rule v = "HIGH_MISSING"))).
  { intros v Hv. unfold report, validate in Hv. simpl in Hv.
    apply elem_of_concat in Hv as (l & Hv & Hl).
    apply list_elem_of_fmap in Hl as (cs & -> & Hcs).
    destruct (check_column_shape df cs v Hv) as [Hc Hs].
    split; [exists cs; auto|exact Hs]. }
  split; [exact Hshape|]. split; [|split].
  - unfold error_count, warning_count. apply count_where_partition.
    intros v Hv. destruct (Hshape v Hv) as [_ [Hs|[Hs _]]];
      unfold is_error; rewrite Hs; reflexivity.
  - unfold is_valid, error_count. rewrite negb_true_iff.
    pose proof (existsb_count_where is_error (violations report)) as H.
    destruct (existsb is_error (violations report)).
    + split; [discriminate|]. intros H0.
      assert (0 < count_where is_error (violations report))%nat
        by (apply H; reflexivity).
      lia.
    + split; [|reflexivity]. intros _.
      destruct (count_where is_error (violations report)) eqn:E;
        [reflexivity|].
      assert (false = true) by (apply H; lia). discriminate.
  - exact (validate_length df schema).
Qed.

(** ** Control variables *)

Lemma indicator_column_spec (df : DataFrame) (src dst : string)
    (p : float -> bool) :
  src <> dst ->
  exists ind,
    indicator_column df src dst p = Ok (set_column df dst ind)
    /\ match columns df !! src with
       | Some s => ind = indicator_cell p <$> s
       | None => ind = replicate (nrows df) nan
       end.
Proof.
  intros Hne. unfold indicator_column.
  destruct (columns df !! src) as [s|] eqn:Es.
  - rewrite (proj2 (has_column_true df src)) by (rewrite Es; eauto).
    rewrite (proj2 (get_column_Ok _ _ _) Es). simpl.
    assert (Es' : columns (set_column df dst
                             ((fun x => np_where_flag (p x)) <$> s)) !! src
                  = Some s)
      by (rewrite set_column_other by congruence; exact Es).
    rewrite (proj2 (get_column_Ok _ _ _) Es'). simpl.
    rewrite (proj2 (get_column_Ok _ dst _) (set_column_same _ _ _)). simpl.
    exists (indicator_cell p <$> s). split; [|reflexivity].
    f_equal.
    assert (Hcol : loc_assign (Cell.isna <$> s) nan
                     ((fun x => np_where_flag (p x)) <$> s)
                   = indicator_cell p <$> s).
    { unfold loc_assign. clear. induction s as [|x s IH];
        [reflexivity|].
      rewrite !fmap_cons. cbn [zip_with]. rewrite IH.
      unfold indicator_cell, np_where_flag.
      destruct (Cell.isna x); reflexivity. }
    rewrite Hcol. unfold set_column. simpl. f_equal.
    + destruct (decide (dst ∈ colnames df)) as [Hin|Hnin].
      * rewrite !(bool_decide_eq_true_2 _ Hin). reflexivity.
      * rewrite !(bool_decide_eq_false_2 _ Hnin).
        rewrite bool_decide_eq_true_2; [reflexivity|].
        apply elem_of_app. right. left.
    + apply insert_insert_eq.
  - rewrite (proj2 (has_column_false df src) Es).
    exists (replicate (nrows df) nan). split; reflexivity.
Qed.

(** [build_controls] always returns: it writes five columns, each computed
    from a column of the table it was given. *)
Lemma build_controls_run (np_log : float -> float) (df : DataFrame) :
  exists male married business houses log_assets,
    build_controls np_log df
    = Ok (set_column
            (set_column
               (set_column
                  (set_column (set_column df "head_is_male" male)
                     "head_is_married" married)
                  "has_business" business)
               "num_houses" houses)
            "log_total_assets" log_assets)
    /\ male = match columns df !! "head_sex" with
              | Some s => indicator_cell (fun x => (x =? 1)%float) <$> s
              | None => replicate (nrows df) nan
              end
    /\ married = match columns df !! "head_marital" with
                 | Some s => indicator_cell is_married_code <$> s
                 | None => replicate (nrows df) nan
                 end
    /\ business = match columns df !! "b2000b" with
                  | Some s => indicator_cell (fun x => (x =? 1)%float) <$> s
                  | None => replicate (nrows df) nan
                  end
    /\ houses = match columns df !! "c2002" with
                | Some c => Cell.fillna 0 <$> c
                | None => replicate (nrows df) 0%float
                end
    /\ log_assets = match columns df !! "total_assets" with
                    | Some ta => (fun a => np_log (a + 1)%float) <$> ta
                    | None => replicate (nrows df) nan
                    end.
Proof.
  unfold build_controls.
  destruct (indicator_column_spec df "head_sex" "head_is_male"
              (fun x => (x =? 1)%float)) as (male & -> & Hmale);
    [discriminate|].
  cbn [mbind result_bind].
  set (df1 := set_column df "head_is_male" male).
  destruct (indicator_column_spec df1 "head_marital" "head_is_married"
              is_married_code) as (married & -> & Hmarried);
    [discriminate|].
  cbn [mbind result_bind].
  set (df2 := set_column df1 "head_is_married" married).
  destruct (indicator_column_spec df2 "b2000b" "has_business"
              (fun x => (x =? 1)%float)) as (business & -> & Hbusiness);
    [discriminate|].
  cbn [mbind result_bind].
  set (df3 := set_column df2 "has_business" business).
  assert (H1 : forall c, c <> "head_is_male" ->
            columns df1 !! c = columns df !! c)
    by (intros c Hc; unfold df1; apply set_column_other; congruence).
  assert (H2 : forall c, c <> "head_is_male" -> c <> "head_is_married" ->
            columns df2 !! c = columns df !! c).
  { intros c Hc Hc'. unfold df2. rewrite set_column_other by congruence.
    apply H1. exact Hc. }
  assert (H3 : forall c, c <> "head_is_male" -> c <> "head_is_married" ->
            c <> "has_business" -> columns df3 !! c = columns df !! c).
  { intros c Hc Hc' Hc''. unfold df3. rewrite set_column_other by congruence.
    apply H2; assumption. }
  rewrite H1 in Hmarried by discriminate.
  rewrite H2 in Hbusiness by discriminate.
  exists male, married, business.
  assert (Hh : exists houses,
            (if has_column df3 "c2002"
             then c ← get_column df3 "c2002";
                  Ok (set_column df3 "num_houses" (Cell.fillna 0 <$> c))
             else Ok (set_scalar df3 "num_houses" 0))
            = Ok (set_column df3 "num_houses" houses)
            /\ houses = match columns df !! "c2002" with
                        | Some c => Cell.fillna 0 <$> c
                        | None => replicate (nrows df) 0%float
                        end).
  { pose proof (H3 "c2002") as Hc. rewrite <- Hc by discriminate.
    destruct (columns df3 !! "c2002") as [c|] eqn:Ec.
    - rewrite (proj2 (has_column_true df3 "c2002")) by (rewrite Ec; eauto).
      rewrite (proj2 (get_column_Ok _ _ _) Ec). eexists. split; reflexivity.
    - rewrite (proj2 (has_column_false df3 "c2002") Ec).
      eexists. split; reflexivity. }
  destruct Hh as (houses & -> & Hhouses).
  cbn [mbind result_bind].
  set (df4 := set_column df3 "num_houses" houses).
  assert (H4 : columns df4 !! "total_assets" = columns df !! "total_assets").
  { unfold df4. rewrite set_column_other by discriminate.
    apply H3; discriminate. }
  exists houses.
  destruct (columns df4 !! "total_assets") as [ta|] eqn:Eta.
  - rewrite (proj2 (has_column_true df4 "total_assets"))
      by (rewrite Eta; eauto).
    rewrite (proj2 (get_column_Ok _ _ _) Eta). cbn [mbind result_bind].
    eexists. split; [reflexivity|]. rewrite <- H4.
    split; [destruct (columns df !! "head_sex"); exact Hmale|].
    split; [destruct (columns df !! "head_marital"); exact Hmarried|].
    split; [destruct (columns df !! "b2000b"); exact Hbusiness|].
    split; [exact Hhouses|reflexivity].
  - rewrite (proj2 (has_column_false df4 "total_assets") Eta).
    eexists. split; [reflexivity|]. rewrite <- H4.
    split; [destruct (columns df !! "head_sex"); exact Hmale|].
    split; [destruct (columns df !! "head_marital"); exact Hmarried|].
    split; [destruct (columns df !! "b2000b"); exact Hbusiness|].
    split; [exact Hhouses|reflexivity].
Qed.

(** X20: [build_controls] never raises.  It writes [head_is_male],
    [head_is_married], [has_business], [num_houses] and [log_total_assets],
    whatever columns the table has, and nothing else: the number of rows
    and every other column stay as they were. *)
Theorem build_controls_total (np_log : float -> float) (df : DataFrame) :
  exists df',
    build_controls np_log df = Ok df'
    /\ nrows df' = nrows df
    /\ (forall c,
          c ∈ ["head_is_male"; "head_is_married"; "has_business";
               "num_houses"; "log_total_assets"] ->
          is_Some (columns df' !! c))
    /\ (forall c,
          c ∉ ["head_is_male"; "head_is_married"; "has_business";
               "num_houses"; "log_total_assets"] ->
          columns df' !! c = columns df !! c).
Proof.
  destruct (build_controls_run np_log df)
    as (male & married & business & houses & lg & -> & _).
  eexists. split; [reflexivity|]. split; [reflexivity|]. split.
  - intros c Hc.
    repeat (apply elem_of_cons in Hc as [->|Hc];
            [rewrite ?set_column_other by discriminate;
             rewrite set_column_same; eauto|]).
    inversion Hc.
  - intros c Hc. repeat (apply not_elem_of_cons in Hc as [? Hc]).
    rewrite !set_column_other by congruence. reflexivity.
Qed.

(** X21: the three indicators.  Where the survey code is a column, the
    indicator is NaN in the rows where the code is undefined, and
    otherwise 1 when the code is 1 (for [head_is_married]: 2, 3 or 7) and
    0 when it is not; where the code is not a column, the indicator is NaN
    in every row.  An indicator cell is thus always 0, 1 or NaN. *)
Theorem build_controls_indicators (np_log : float -> float)
    (df df' : DataFrame) (src dst : string) (p : float -> bool) :
  build_controls np_log df = Ok df' ->
  (src, dst, p) ∈
    [ ("head_sex", "head_is_male", fun x => (x =? 1)%float);
      ("head_marital", "head_is_married", is_married_code);
      ("b2000b", "has_business", fun x => (x =? 1)%float) ] ->
  exists ind,
    columns df' !! dst = Some ind
    /\ (forall s, columns df !! src = Some s ->
          length ind = length s
          /\ forall i x, s !! i = Some x ->
               (Cell.isna x = true -> ind !! i = Some nan)
               /\ (Cell.isna x = false -> p x = true ->
                   ind !! i = Some 1%float)
               /\ (Cell.isna x = false -> p x = false ->
                   ind !! i = Some 0%float))
    /\ (columns df !! src = None -> ind = replicate (nrows df) nan)
    /\ (forall y, y ∈ ind ->
          y = 0%float \/ y = 1%float \/ Cell.isna y = true).
Proof.
  intros Hrun Hin.
  destruct (build_controls_run np_log df)
    as (male & married & business & houses & lg & Hrun' & Hmale & Hmarried
        & Hbusiness & _).
  rewrite Hrun' in Hrun. injection Hrun as <-.
  assert (Hgen : forall ind,
            ind = match columns df !! src with
                  | Some s => indicator_cell p <$> s
                  | None => replicate (nrows df) nan
                  end ->
            (forall s, columns df !! src = Some s ->
               length ind = length s
               /\ forall i x, s !! i = Some x ->
                    (Cell.isna x = true -> ind !! i = Some nan)
                    /\ (Cell.isna x = false -> p x = true ->
                        ind !! i = Some 1%float)
                    /\ (Cell.isna x = false -> p x = false ->
                        ind !! i = Some 0%float))
            /\ (columns df !! src = None -> ind = replicate (nrows df) nan)
            /\ (forall y, y ∈ ind ->
                  y = 0%float \/ y = 1%float \/ Cell.isna y = true)).
  { intros ind ->. split; [|split].
    - intros s Hs. rewrite Hs. split; [apply length_fmap|].
      intros i x Hx. rewrite list_lookup_fmap, Hx. unfold indicator_cell.
      simpl. split; [intros ->; reflexivity|].
      split; intros -> ->; reflexivity.
    - intros ->. reflexivity.
    - intros y Hy. destruct (columns df !! src) as [s|].
      + apply list_elem_of_fmap in Hy as (x & -> & _).
        unfold indicator_cell.
        destruct (Cell.isna x); [right; right; reflexivity|].
        destruct (p x); auto.
      + apply elem_of_replicate in Hy as [-> _]. right. right. reflexivity. }
  apply elem_of_cons in Hin as [Heq|Hin];
    [injection Heq as -> -> ->; exists male; split;
     [rewrite !set_column_other by discriminate; apply set_column_same
     |exact (Hgen male Hmale)]|].
  apply elem_of_cons in Hin as [Heq|Hin];
    [injection Heq as -> -> ->; exists married; split;
     [rewrite !set_column_other by discriminate; apply set_column_same
     |exact (Hgen married Hmarried)]|].
  apply elem_of_cons in Hin as [Heq|Hin]; [|inversion Hin].
  injection Heq as -> -> ->. exists business. split;
    [rewrite !set_column_other by discriminate; apply set_column_same
    |exact (Hgen business Hbusiness)].
Qed.

Lemma build_controls_indicators_witness :
  exists df' ind,
    build_controls (fun x => x) sample_controls = Ok df'
    /\ columns df' !! "head_is_married" = Some ind
    /\ ind !! 0%nat = Some 1%float
    /\ ind !! 1%nat = Some 0%float
    /\ ind !! 3%nat = Some nan.
Proof.
  assert (Hrun : exists df',
    build_controls (fun x => x) sample_controls = Ok df')
    by (vm_compute; eauto).
  destruct Hrun as [df' Hrun].
  destruct (build_controls_indicators (fun x => x) sample_controls df'
              "head_marital" "head_is_married" is_married_code Hrun)
    as (ind & Hind & Hrows & _).
  - right. left.
  - destruct (Hrows [2; 1; 7; nan]%float eq_refl) as [_ Hcells].
    exists df', ind. split; [exact Hrun|]. split; [exact Hind|].
    split; [|split].
    + exact (proj1 (proj2 (Hcells 0%nat 2%float eq_refl)) eq_refl eq_refl).
    + exact (proj2 (proj2 (Hcells 1%nat 1%float eq_refl)) eq_refl eq_refl).
    + exact (proj1 (Hcells 3%nat nan eq_refl) eq_refl).
Defined.

(** X22: the indicators pass the schema.  For the three binary entries of
    [ANALYSIS_SCHEMA] that [build_controls] fills, the validator reports no
    error on its output: at most the [HIGH_MISSING] warning. *)
Theorem controls_pass_schema (np_log : float -> float)
    (df df' : DataFrame) (cs : ColumnSchema) :
  build_controls np_log df = Ok df' ->
  cs ∈ ANALYSIS_SCHEMA ->
  name cs ∈ ["head_is_male"; "head_is_married"; "has_business"] ->
  forall v, v ∈ _check_column df' cs ->
    severity v = "WARNING" /\ rule v = "HIGH_MISSING".
Proof.
  intros Hrun Hcs Hname.
  assert (Hshape : nullable cs = true /\ min_value cs = None
                   /\ max_value cs = None
                   /\ allowed_values cs = Some [0; 1]%float).
  { apply list_elem_of_In in Hcs. simpl in Hcs.
    repeat (destruct Hcs as [<-|Hcs];
            [first [ repeat split; reflexivity
                   | exfalso; simpl in Hname;
                     repeat (apply elem_of_cons in Hname
                               as [Hname|Hname]; [discriminate Hname|]);
                     inversion Hname ]|]).
    contradiction. }
  destruct Hshape as (Hnull & Hmin & Hmax & Hal).
  assert (Hconf : column_conforms df' cs).
  { assert (Hind : exists src p,
              (src, name cs, p) ∈
                [ ("head_sex", "head_is_male", fun x => (x =? 1)%float);
                  ("head_marital", "head_is_married", is_married_code);
                  ("b2000b", "has_business", fun x => (x =? 1)%float) ]).
    { apply elem_of_cons in Hname as [->|Hname];
        [do 2 eexists; left|].
      apply elem_of_cons in Hname as [->|Hname];
        [do 2 eexists; right; left|].
      apply elem_of_cons in Hname as [->|Hname]; [|inversion Hname].
      do 2 eexists. right. right. left. }
    destruct Hind as (src & p & Hin).
    destruct (build_controls_run np_log df)
      as (male & married & business & houses & lg & Hrun' & Hmale
          & Hmarried & Hbusiness & _).
    rewrite Hrun' in Hrun. injection Hrun as <-.
    assert (Hcells : forall ind s0,
              ind = match s0 with
                    | Some s => indicator_cell p <$> s
                    | None => replicate (nrows df) nan
                    end ->
              forall x, x ∈ ind -> Cell.isna x = false ->
                cell_conforms cs x).
    { intros ind s0 -> x Hx Hna.
      assert (Hx01 : x = 0%float \/ x = 1%float).
      { destruct s0 as [s|].
        - apply list_elem_of_fmap in Hx as (y & -> & _).
          unfold indicator_cell in *.
          destruct (Cell.isna y); [discriminate Hna|].
          destruct (p y); auto.
        - apply elem_of_replicate in Hx as [-> _]. discriminate Hna. }
      unfold cell_conforms. rewrite Hmin, Hmax, Hal.
      split; [discriminate|]. split; [discriminate|]. split.
      - intros allowed H. injection H as <-.
        destruct Hx01 as [->| ->]; reflexivity.
      - destruct Hx01 as [->| ->]; reflexivity. }
    unfold column_conforms. rewrite Hnull.
    apply elem_of_cons in Hin as [Heq|Hin];
      [injection Heq as -> Hn ->; rewrite Hn; exists male;
       split; [rewrite !set_column_other by discriminate;
               apply set_column_same|];
       split; [discriminate|exact (Hcells male _ Hmale)]|].
    apply elem_of_cons in Hin as [Heq|Hin];
      [injection Heq as -> Hn ->; rewrite Hn; exists married;
       split; [rewrite !set_column_other by discriminate;
               apply set_column_same|];
       split; [discriminate|exact (Hcells married _ Hmarried)]|].
    apply elem_of_cons in Hin as [Heq|Hin]; [|inversion Hin].
    injection Heq as -> Hn ->. rewrite Hn. exists business.
    split; [rewrite !set_column_other by discriminate;
            apply set_column_same|].
    split; [discriminate|exact (Hcells business _ Hbusiness)]. }
  intros v Hv.
  pose proof (proj2 (check_column_conforms df' cs) Hconf v Hv) as Herr.
  destruct (check_column_shape df' cs v Hv) as [_ [Hs|Hs]]; [|exact Hs].
  unfold is_error in Herr. rewrite Hs in Herr. discriminate Herr.
Qed.

Lemma controls_pass_schema_witness :
  exists df',
    build_controls (fun x => x) sample_controls = Ok df'
    /\ forall v,
         v ∈ _check_column df'
               (mkColumnSchema "head_is_male" "Head is male (1/0)"
                  BINARY true None None (Some [0; 1]%float)) ->
         severity v = "WARNING" /\ rule v = "HIGH_MISSING".
Proof.
  assert (Hrun : exists df',
    build_controls (fun x => x) sample_controls = Ok df')
    by (vm_compute; eauto).
  destruct Hrun as [df' Hrun].
  exists df'. split; [exact Hrun|].
  apply (controls_pass_schema (fun x => x) sample_controls df' _ Hrun).
  - do 7 right. left.
  - left.
Defined.

(** X23: [num_houses] is always defined: it is the count [c2002] where
    that is defined, and 0 where it is undefined or where the table has no
    such column. *)
Theorem num_houses_defined (np_log : float -> float) (df df' : DataFrame) :
  build_controls np_log df = Ok df' ->
  exists houses,
    columns df' !! "num_houses" = Some houses
    /\ (forall x, x ∈ houses -> Cell.isna x = false)
    /\ (forall c, columns df !! "c2002" = Some c ->
          length houses = length c
          /\ forall i x, c !! i = Some x ->
               houses !! i = Some (if Cell.isna x then 0%float else x))
    /\ (columns df !! "c2002" = None ->
        houses = replicate (nrows df) 0%float).
Proof.
  intros Hrun.
  destruct (build_controls_run np_log df)
    as (male & married & business & houses & lg & Hrun' & _ & _ & _
        & Hhouses & _).
  rewrite Hrun' in Hrun. injection Hrun as <-.
  exists houses. split.
  { rewrite set_column_other by discriminate. apply set_column_same. }
  rewrite Hhouses. split; [|split].
  - intros x Hx. destruct (columns df !! "c2002") as [c|].
    + apply list_elem_of_fmap in Hx as (y & -> & _). unfold Cell.fillna.
      destruct (Cell.isna y) eqn:E; [reflexivity|exact E].
    + apply elem_of_replicate in Hx as [-> _]. reflexivity.
  - intros c ->. split; [apply length_fmap|].
    intros i x Hx. rewrite list_lookup_fmap, Hx. reflexivity.
  - intros ->. reflexivity.
Qed.

Lemma num_houses_defined_witness :
  exists df',
    build_controls (fun x => x) sample_controls = Ok df'
    /\ columns df' !! "num_houses" = Some [2; 0; 1; 0]%float.
Proof.
  assert (Hrun : exists df',
    build_controls (fun x => x) sample_controls = Ok df')
    by (vm_compute; eauto).
  destruct Hrun as [df' Hrun].
  destruct (num_houses_defined _ _ _ Hrun) as (houses & Hh & _ & Hc & _).
  exists df'. split; [exact Hrun|]. rewrite Hh. f_equal.
  destruct (Hc [2; nan; 1; 0]%float eq_refl) as [Hlen Hcells].
  apply list_eq. intros [|[|[|[|i]]]].
  - exact (Hcells 0%nat 2%float eq_refl).
  - exact (Hcells 1%nat nan eq_refl).
  - exact (Hcells 2%nat 1%float eq_refl).
  - exact (Hcells 3%nat 0%float eq_refl).
  - simpl. apply lookup_ge_None. simpl in Hlen. lia.
Defined.

(** ** The pipeline, end to end *)

Lemma merge_Ok_nrows (hh_df head_df m : DataFrame) :
  merge_head_into_household hh_df head_df = Ok m -> nrows m = nrows hh_df.
Proof.
  unfold merge_head_into_household. intros H.
  apply bind_Ok in H as (m0 & _ & H).
  destruct (Nat.eqb (nrows m0) (nrows hh_df)) eqn:E; simpl in H;
    [|discriminate H].
  apply Nat.eqb_eq in E.
  apply bind_Ok in H as (c & _ & H). apply bind_Ok in H as (x & _ & H).
  injection H as <-. exact E.
Qed.

Lemma coalesce_program_rows (l1 l2 : list VarSpec)
    (cols : list (option string)) (df df2 : DataFrame)
    (n1 n2 : list string) :
  names_fresh (l1 ++ l2) = true ->
  (let df :=
     (foldl ensure_column
        ((_ensure_columns (_ensure_columns df l1).1 l2).1, 0%nat) cols).1 in
   '(df, debt_cols) ← coalesce_loop df l1;
   '(df, asset_cols) ← coalesce_loop df l2;
   Ok (df, debt_cols, asset_cols)) = Ok (df2, n1, n2) ->
  nrows df2 = nrows df
  /\ forall c, c ∉ n1 -> c ∉ n2 ->
       is_Some (columns df !! c) -> columns df2 !! c = columns df !! c.
Proof.
  intros Hfresh H.
  destruct (coalesce_program_keeps l1 l2 cols df df2 n1 n2 Hfresh H)
    as (_ & _ & Hn & Hother).
  split; [exact Hn|].
  intros c H1 H2 [x Hx]. destruct (Hother c H1 H2) as [E|[E _]];
    [exact E|congruence].
Qed.

Lemma coalesce_all_frame (df df' : DataFrame)
    (debt_cols asset_cols : list string) :
  coalesce_all df = Ok (df', debt_cols, asset_cols) ->
  nrows df' = nrows df
  /\ forall c, c ∉ debt_cols -> c ∉ asset_cols ->
       is_Some (columns df !! c) -> columns df' !! c = columns df !! c.
Proof.
  exact (coalesce_program_rows ALL_DEBT_VARS ALL_ASSET_VARS
           [Some (exact ASSET_VEHICLE_IN_BUSINESS);
            interval ASSET_VEHICLE_IN_BUSINESS]
           df df' debt_cols asset_cols catalogue_names_fresh).
Qed.

Lemma select_existing_lookup (df : DataFrame) (all_cols : list string)
    (c : string) :
  columns (select_existing df all_cols) !! c
  = if bool_decide (c ∈ all_cols) then columns df !! c else None.
Proof.
  unfold select_existing. destruct (decide (c ∈ all_cols)) as [Hin|Hnin].
  - rewrite (bool_decide_eq_true_2 _ Hin).
    destruct (columns df !! c) as [col|] eqn:E.
    + unfold frame_of. apply foldl_set_column_same_data.
      * apply list_elem_of_omap. exists c. split; [exact Hin|].
        rewrite E. reflexivity.
      * intros col' H'. apply list_elem_of_omap in H' as (c0 & _ & Hf).
        destruct (columns df !! c0) as [col0|] eqn:E0; [|discriminate Hf].
        injection Hf as -> <-. congruence.
    + apply frame_of_None. intros H'.
      apply list_elem_of_fmap in H' as ([c1 col1] & Heq & H').
      simpl in Heq. subst c1.
      apply list_elem_of_omap in H' as (c0 & _ & Hf).
      destruct (columns df !! c0) as [col0|] eqn:E0; [|discriminate Hf].
      injection Hf as -> <-. congruence.
  - rewrite (bool_decide_eq_false_2 _ Hnin).
    apply frame_of_None. intros H'.
    apply list_elem_of_fmap in H' as ([c1 col1] & Heq & H').
    simpl in Heq. subst c1.
    apply list_elem_of_omap in H' as (c0 & Hc0 & Hf).
    destruct (columns df !! c0) as [col0|]; [|discriminate Hf].
    injection Hf as -> _. exact (Hnin Hc0).
Qed.

(** The stages of a run that returned. *)
Lemma run_pipeline_Ok_inv (np_log : float -> float)
    (np_sum : list (list float) -> list float) (cfg : Settings)
    (hcv hhcv : list string) (hh_df ind_df : DataFrame)
    (r : PipelineResult) :
  run_pipeline np_log np_sum cfg hcv hhcv hh_df ind_df = Ok r ->
  exists head_df merged coalesced debt_cols asset_cols totals ratios final,
    extract_heads ind_df cfg = Ok head_df
    /\ merge_head_into_household hh_df head_df = Ok merged
    /\ coalesce_all merged = Ok (coalesced, debt_cols, asset_cols)
    /\ compute_totals np_sum coalesced debt_cols asset_cols = Ok totals
    /\ compute_debt_ratio np_log totals cfg = Ok ratios
    /\ build_controls np_log ratios = Ok final
    /\ r = {| analysis_df :=
                select_existing final (core_vars ++ hcv ++ hhcv);
              validation_report :=
                validate (select_existing final (core_vars ++ hcv ++ hhcv))
                  ANALYSIS_SCHEMA;
              n_raw_households := nrows hh_df;
              n_raw_individuals := nrows ind_df;
              n_analysis_rows :=
                nrows (select_existing final (core_vars ++ hcv ++ hhcv)) |}.
Proof.
  unfold run_pipeline. intros H.
  apply bind_Ok in H as (head_df & H1 & H).
  apply bind_Ok in H as (merged & H2 & H).
  apply bind_Ok in H as ([[coalesced debt_cols] asset_cols] & H3 & H).
  apply bind_Ok in H as (totals & H4 & H).
  apply bind_Ok in H as (ratios & H5 & H).
  apply bind_Ok in H as (final & H6 & H).
  destruct (selected_twice final (core_vars ++ hcv ++ hhcv) ANALYSIS_SCHEMA);
    [discriminate H|].
  injection H as <-.
  exists head_df, merged, coalesced, debt_cols, asset_cols, totals, ratios,
    final.
  repeat (split; [assumption|]). reflexivity.
Qed.

(** X24: the pipeline keeps the households.  When a run returns, the
    analysis table has exactly one row per household of the input:
    [n_analysis_rows] equals [n_raw_households], and the validator checked
    that many rows. *)
Theorem run_pipeline_keeps_households (np_log : float -> float)
    (np_sum : list (list float) -> list float)
    (cfg : Settings) (hcv hhcv : list string) (hh_df ind_df : DataFrame)
    (r : PipelineResult) :
  run_pipeline np_log np_sum cfg hcv hhcv hh_df ind_df = Ok r ->
  n_raw_households r = nrows hh_df
  /\ n_raw_individuals r = nrows ind_df
  /\ n_analysis_rows r = n_raw_households r
  /\ nrows (analysis_df r) = nrows hh_df
  /\ rows_checked (validation_report r) = nrows hh_df.
Proof.
  intros H. apply run_pipeline_Ok_inv in H
    as (head_df & merged & coalesced & debt_cols & asset_cols & totals
        & ratios & final & _ & H2 & H3 & H4 & H5 & H6 & ->).
  assert (Hn : nrows final = nrows hh_df).
  { destruct (build_controls_run np_log ratios)
      as (? & ? & ? & ? & ? & Hrun & _).
    rewrite Hrun in H6. injection H6 as <-.
    apply compute_debt_ratio_Ok_inv in H5 as (? & ? & ? & _ & _ & _ & ->).
    apply compute_totals_Ok_inv in H4 as (? & ? & ? & ->).
    apply coalesce_all_frame in H3 as [H3 _].
    apply merge_Ok_nrows in H2. simpl. congruence. }
  assert (Hsel : nrows (select_existing final (core_vars ++ hcv ++ hhcv))
                 = nrows hh_df).
  { unfold select_existing, frame_of. rewrite foldl_set_column_nrows.
    exact Hn. }
  simpl. repeat split; try reflexivity; exact Hsel.
Qed.

Lemma run_pipeline_keeps_households_witness :
  exists r,
    run_pipeline (fun x => x) fold_sum default_settings
      default_head_control_vars default_hh_control_vars
      sample_households sample_individuals = Ok r
    /\ n_raw_households r = 2%nat
    /\ n_analysis_rows r = 2%nat.
Proof.
  assert (Hrun : exists r,
    run_pipeline (fun x => x) fold_sum default_settings
      default_head_control_vars default_hh_control_vars
      sample_households sample_individuals = Ok r)
    by (vm_compute; eauto).
  destruct Hrun as [r Hrun].
  destruct (run_pipeline_keeps_households _ _ _ _ _ _ _ _ Hrun)
    as (H1 & _ & H3 & _).
  exists r. split; [exact Hrun|]. split; [exact H1|].
  rewrite H3. exact H1.
Defined.

Lemma check_column_missing (df : DataFrame) (cs : ColumnSchema)
    (v : Violation) :
  v ∈ _check_column df cs -> rule v = "MISSING_COLUMN" ->
  column v = name cs /\ columns df !! name cs = None.
Proof.
  intros Hv Hrule. split; [exact (proj1 (check_column_shape df cs v Hv))|].
  unfold _check_column in Hv.
  destruct (columns df !! name cs) as [series|]; [|reflexivity].
  exfalso.
  assert (Hnull : forall v, v ∈ check_nullability cs series ->
            rule v <> "MISSING_COLUMN").
  { intros w. unfold check_nullability.
    destruct (0 <? _)%nat; [|intros H; inversion H].
    destruct (nullable cs); simpl.
    - destruct (80 <? _)%float; intros H; [|inversion H].
      apply elem_of_cons in H as [->|H]; [discriminate|inversion H].
    - intros H. apply elem_of_cons in H as [->|H];
        [discriminate|inversion H]. }
  assert (Hval : forall non_null v, v ∈ check_values cs non_null ->
            rule v <> "MISSING_COLUMN").
  { intros non_null w. unfold check_values. intros H.
    repeat (apply elem_of_app in H as [H|H]);
      repeat match type of H with
             | _ ∈ match ?o with _ => _ end => destruct o
             | _ ∈ (if ?b then _ else _) => destruct b
             end;
      try (inversion H; fail);
      apply elem_of_cons in H as [->|H]; try discriminate; inversion H. }
  destruct (filter _ series) as [|y ys].
  - exact (Hnull v Hv Hrule).
  - apply elem_of_app in Hv as [Hv|Hv];
      [exact (Hnull v Hv Hrule)|exact (Hval _ v Hv Hrule)].
Qed.

(** X25: the analysis table.  When a run returns, the analysis table
    holds no column outside the selected names, and it holds every selected
    name among the nine columns the pipeline itself derives.  So the
    validator can report [MISSING_COLUMN] only for a column that comes from
    the survey data, or for one that was not selected. *)
Theorem run_pipeline_columns (np_log : float -> float)
    (np_sum : list (list float) -> list float)
    (cfg : Settings) (hcv hhcv : list string) (hh_df ind_df : DataFrame)
    (r : PipelineResult) :
  run_pipeline np_log np_sum cfg hcv hhcv hh_df ind_df = Ok r ->
  let all_cols := core_vars ++ hcv ++ hhcv in
  (forall c, c ∉ all_cols -> columns (analysis_df r) !! c = None)
  /\ (forall c,
        c ∈ ["total_debt"; "total_assets"; "debt_ratio_winsorized";
             "log_debt_ratio_winsorized"; "head_is_male";
             "head_is_married"; "has_business"; "num_houses";
             "log_total_assets"] ->
        c ∈ all_cols -> is_Some (columns (analysis_df r) !! c))
  /\ (forall v,
        v ∈ violations (validation_report r) ->
        rule v = "MISSING_COLUMN" ->
        column v ∈ ["hhid"; "head_siblings"; "head_age"; "head_educ";
                    "head_health"]
        \/ column v ∉ all_cols).
Proof.
  intros H all_cols. apply run_pipeline_Ok_inv in H
    as (head_df & merged & coalesced & debt_cols & asset_cols & totals
        & ratios & final & _ & _ & _ & H4 & H5 & H6 & ->).
  cbn [analysis_df validation_report]. fold all_cols.
  assert (Hfinal : forall c,
            c ∈ ["total_debt"; "total_assets"; "debt_ratio_winsorized";
                 "log_debt_ratio_winsorized"; "head_is_male";
                 "head_is_married"; "has_business"; "num_houses";
                 "log_total_assets"] ->
            is_Some (columns final !! c)).
  { destruct (build_controls_run np_log ratios)
      as (? & ? & ? & ? & ? & Hrun & _).
    rewrite Hrun in H6. injection H6 as <-.
    apply compute_debt_ratio_Ok_inv in H5 as (? & ? & ? & _ & _ & _ & ->).
    apply compute_totals_Ok_inv in H4 as (? & ? & ? & ->).
    intros c Hc.
    repeat (apply elem_of_cons in Hc as [->|Hc];
            [rewrite ?set_column_other by discriminate;
             rewrite set_column_same; eauto|]).
    inversion Hc. }
  assert (Hsel : forall c,
            c ∈ ["total_debt"; "total_assets"; "debt_ratio_winsorized";
                 "log_debt_ratio_winsorized"; "head_is_male";
                 "head_is_married"; "has_business"; "num_houses";
                 "log_total_assets"] ->
            c ∈ all_cols ->
            is_Some (columns (select_existing final all_cols) !! c)).
  { intros c Hc Hin. rewrite select_existing_lookup.
    rewrite (bool_decide_eq_true_2 _ Hin). exact (Hfinal c Hc). }
  split; [|split].
  - intros c Hc. rewrite select_existing_lookup.
    rewrite (bool_decide_eq_false_2 _ Hc). reflexivity.
  - exact Hsel.
  - intros v Hv Hrule. unfold validate in Hv. cbn [violations] in Hv.
    apply elem_of_concat in Hv as (l & Hv & Hl).
    apply list_elem_of_fmap in Hl as (cs & -> & Hcs).
    destruct (check_column_missing _ cs v Hv Hrule) as [Hcol Hnone].
    rewrite Hcol.
    destruct (decide (name cs ∈ all_cols)) as [Hin|Hnin]; [|right; exact Hnin].
    left.
    apply list_elem_of_In in Hcs. simpl in Hcs.
    repeat (destruct Hcs as [<-|Hcs];
            [first [ apply (bool_decide_unpack _); vm_compute; exact I
                   | exfalso;
                     match type of Hnone with
                     | columns _ !! ?n = None =>
                         destruct (Hsel n) as [x Hx];
                         [apply (bool_decide_unpack _); vm_compute; exact I
                         |exact Hin|congruence]
                     end ]|]).
    contradiction.
Qed.

Lemma run_pipeline_columns_witness :
  exists r,
    run_pipeline (fun x => x) fold_sum default_settings
      default_head_control_vars default_hh_control_vars
      sample_households sample_individuals = Ok r
    /\ columns (analysis_df r) !! "income" = None
    /\ is_Some (columns (analysis_df r) !! "num_houses").
Proof.
  assert (Hrun : exists r,
    run_pipeline (fun x => x) fold_sum default_settings
      default_head_control_vars default_hh_control_vars
      sample_households sample_individuals = Ok r)
    by (vm_compute; eauto).
  destruct Hrun as [r Hrun].
  destruct (run_pipeline_columns _ _ _ _ _ _ _ _ Hrun) as (Hout & Hin & _).
  exists r. split; [exact Hrun|]. split.
  - apply Hout. apply (bool_decide_unpack _). vm_compute. exact I.
  - apply Hin; apply (bool_decide_unpack _); vm_compute; exact I.
Defined.

(** ** The tables behind the resolver *)

Lemma midpoints_checked :
  forallb midpoints_increase (map_to_list _VAR_TO_MAP) = true.
Proof. vm_compute. reflexivity. Qed.

Lemma get_midpoint_defined_inv (c : float) (var : string) (m : float) :
  get_midpoint c var = Ok m -> Cell.isna m = false ->
  exists mp k,
    _VAR_TO_MAP !! _normalise_var_name var = Some mp
    /\ Cell.int c = Ok k /\ mp !! k = Some m.
Proof.
  unfold get_midpoint. intros H Hm.
  destruct (Cell.isna c); [injection H as <-; discriminate Hm|].
  destruct (_VAR_TO_MAP !! _normalise_var_name var) as [mp|];
    [|injection H as <-; discriminate Hm].
  apply bind_Ok in H as (k & Hk & H). injection H as <-.
  exists mp, k. split; [reflexivity|]. split; [exact Hk|].
  destruct (mp !! k) as [v|]; [reflexivity|discriminate Hm].
Qed.

(** X26: the resolved amounts are positive and ordered like the codes.
    Whatever the variable and the code, a midpoint that [get_midpoint]
    finds is positive; and of two codes the one with the larger integer
    part resolves to the strictly larger midpoint, whenever both
    resolve. *)
Theorem get_midpoint_monotone :
  (forall (c : float) (var : string) (m : float),
     get_midpoint c var = Ok m -> Cell.isna m = false ->
     (0 <? m)%float = true)
  /\ (forall (c1 c2 : float) (k1 k2 : Z) (var : string) (m1 m2 : float),
        Cell.int c1 = Ok k1 -> Cell.int c2 = Ok k2 -> k1 < k2 ->
        get_midpoint c1 var = Ok m1 -> get_midpoint c2 var = Ok m2 ->
        Cell.isna m1 = false -> Cell.isna m2 = false ->
        (m1 <? m2)%float = true).
Proof.
  assert (Hentry : forall var mp k m,
            _VAR_TO_MAP !! _normalise_var_name var = Some mp ->
            mp !! k = Some m ->
            (0 <? m)%float = true
            /\ forall k' m', mp !! k' = Some m' -> k < k' ->
                 (m <? m')%float = true).
  { intros var mp k m Hmp Hl.
    pose proof (forallb_map_lookup _VAR_TO_MAP midpoints_increase
                  midpoints_checked _ _ Hmp) as Hinc.
    unfold midpoints_increase in Hinc. cbn [snd] in Hinc.
    rewrite forallb_forall in Hinc.
    specialize (Hinc (k, m)).
    rewrite andb_true_iff, forallb_forall in Hinc.
    destruct Hinc as [Hpos Hall].
    { apply list_elem_of_In, elem_of_map_to_list. exact Hl. }
    split; [exact Hpos|].
    intros k' m' Hl' Hlt.
    specialize (Hall (k', m')). cbn [fst snd] in Hall.
    rewrite (proj2 (Z.ltb_lt k k') Hlt) in Hall. apply Hall.
    apply list_elem_of_In, elem_of_map_to_list. exact Hl'. }
  split.
  - intros c var m H Hm.
    destruct (get_midpoint_defined_inv _ _ _ H Hm) as (mp & k & Hmp & _ & Hl).
    exact (proj1 (Hentry var mp k m Hmp Hl)).
  - intros c1 c2 k1 k2 var m1 m2 Hk1 Hk2 Hlt H1 H2 Hm1 Hm2.
    destruct (get_midpoint_defined_inv _ _ _ H1 Hm1)
      as (mp & k1' & Hmp & Hk1' & Hl1).
    destruct (get_midpoint_defined_inv _ _ _ H2 Hm2)
      as (mp' & k2' & Hmp' & Hk2' & Hl2).
    assert (mp' = mp) by congruence. subst mp'.
    assert (k1' = k1) by congruence. assert (k2' = k2) by congruence.
    subst k1' k2'.
    exact (proj2 (Hentry var mp k1 m1 Hmp Hl1) k2 m2 Hl2 Hlt).
Qed.

Lemma get_midpoint_monotone_witness :
  get_midpoint 2 "d1105it" = Ok 15000%float
  /\ get_midpoint 3 "d1105it" = Ok 35000%float
  /\ (0 <? 15000)%float = true
  /\ (0 <? 35000)%float = true
  /\ (15000 <? 35000)%float = true.
Proof.
  destruct get_midpoint_monotone as [Hpos Hmono].
  split; [reflexivity|]. split; [reflexivity|]. split; [|split].
  - apply (Hpos 2%float "d1105it"); reflexivity.
  - apply (Hpos 3%float "d1105it"); reflexivity.
  - apply (Hmono 2%float 3%float 2 3 "d1105it"); reflexivity.
Defined.

Lemma foldl_insert_lookup {V} (vars : list string) (mp : V) :
  forall (m : gmap string V) (v : string),
    foldl (fun acc v => <[v := mp]> acc) m vars !! v
    = if bool_decide (v ∈ vars) then Some mp else m !! v.
Proof.
  induction vars as [|x vars IH]; intros m v; simpl; [reflexivity|].
  rewrite IH. destruct (decide (v ∈ vars)) as [Hin|Hnin].
  - rewrite (bool_decide_eq_true_2 _ Hin).
    rewrite bool_decide_eq_true_2 by (right; exact Hin). reflexivity.
  - rewrite (bool_decide_eq_false_2 _ Hnin).
    destruct (decide (v = x)) as [->|Hne].
    + rewrite lookup_insert_eq.
      rewrite bool_decide_eq_true_2 by left. reflexivity.
    + rewrite lookup_insert_ne by congruence.
      rewrite bool_decide_eq_false_2; [reflexivity|].
      intros H. apply elem_of_cons in H as [H|H]; contradiction.
Qed.

(** The dictionary that the registration loop builds from a registry
    without repeated names. *)
Lemma registration_lookup {V} (R : list (list string * V)) :
  NoDup (concat R.*1) ->
  forall v mp,
    foldl (fun acc '(vars, mp) =>
             foldl (fun acc' v => <[v := mp]> acc') acc vars)
          (∅ : gmap string V) R !! v
    = Some mp
    <-> exists vars, (vars, mp) ∈ R /\ v ∈ vars.
Proof.
  induction R as [|[vars0 mp0] R IH] using rev_ind; intros Hnd v mp.
  - simpl. rewrite lookup_empty. split; [discriminate|].
    intros (vars & H & _). inversion H.
  - rewrite fmap_app, concat_app in Hnd. simpl in Hnd.
    rewrite app_nil_r in Hnd.
    apply NoDup_app in Hnd as (Hnd1 & Hdisj & _).
    rewrite foldl_app. simpl. rewrite foldl_insert_lookup.
    destruct (decide (v ∈ vars0)) as [Hin|Hnin].
    + rewrite (bool_decide_eq_true_2 _ Hin). split.
      * intros H. injection H as <-. exists vars0.
        split; [apply elem_of_app; right; left|exact Hin].
      * intros (vars & Hentry & Hv).
        apply elem_of_app in Hentry as [Hentry|Hentry].
        -- exfalso. apply (Hdisj v); [|exact Hin].
           apply elem_of_concat. exists vars. split; [exact Hv|].
           apply list_elem_of_fmap. exists (vars, mp). auto.
        -- apply elem_of_cons in Hentry as [Heq|Hentry];
             [|inversion Hentry].
           injection Heq as _ ->. reflexivity.
    + rewrite (bool_decide_eq_false_2 _ Hnin). rewrite (IH Hnd1). split.
      * intros (vars & Hentry & Hv). exists vars.
        split; [apply elem_of_app; left; exact Hentry|exact Hv].
      * intros (vars & Hentry & Hv).
        apply elem_of_app in Hentry as [Hentry|Hentry]; [eauto|].
        apply elem_of_cons in Hentry as [Heq|Hentry]; [|inversion Hentry].
        injection Heq as -> _. contradiction.
Qed.

Lemma registry_names_unique : NoDup (concat _REGISTRY.*1).
Proof. apply (bool_decide_unpack _). vm_compute. exact I. Qed.

(** X27: no table is shadowed.  The registration loop lets a later table
    overwrite an earlier one, but no variable name is listed twice: a name
    is registered exactly when some registry entry lists it, and it then
    resolves through the table of that entry. *)
Theorem registry_lookup (v : string) (mp : gmap Z float) :
  _VAR_TO_MAP !! v = Some mp
  <-> exists vars, (vars, mp) ∈ _REGISTRY /\ v ∈ vars.
Proof.
  exact (registration_lookup _REGISTRY registry_names_unique v mp).
Qed.
